(* ===== verification/_CoqProject ===== *)
-Q . S2P
Prelude.v
JsValue.v
Prog.v
TokenCache.v
Uri.v
Handlers.v
EventLoop.v
Liveness.v
Agreement.v
Routing.v
Startup.v
Json.v
App.v
