(* ===== verification/Prelude.v ===== *)
(** * A verification library for the Fortium Partners logo-wall gateway

    The program is one Express server, [src/server.js].  It has three parts:

    - the token cache (lines 14-56): two module-level variables
      [accessToken] and [tokenExpiry] and the async function
      [getAccessToken], which returns the cached bearer token while
      [Date.now() < tokenExpiry] and otherwise performs the OAuth2
      client-credentials exchange against [FORTIUM_TOKEN_ENDPOINT],
      stores the new token with the expiry [now + (expires_in - 300) * 1000]
      and logs a 50-character preview of it;
    - the partner proxy handlers [GET /api/users] and [GET /api/companies]
      (lines 69-115): ask the cache for a token, GET the upstream resource
      with [Authorization: Bearer <token>], relay the JSON body or answer
      500 with a fixed error object;
    - the logo handler [GET /api/logo/:domain] (lines 128-154) and the
      config handler [GET /api/config] (lines 121-125), which do not use
      the cache.

    The handlers interact only through the cache: the two module-level
    variables are the whole mutable state of the process, and they are
    read and written only by [getAccessToken].  Every handler is an async
    function; the event loop runs one of them at a time until it reaches
    an [await], so requests interleave at the network calls.

    ** Files

    - [Prelude.v] (this file): the notation scope [js_scope], the hint
      databases [gateway] (resolution) and [gw] (rewriting), the tactics
      of the development and the generic lemmas on strings, options and
      integers that the components share.
    - [JsValue.v], Module [Js]: the JavaScript values the code handles
      (the results of [response.json()], the [process.env] strings, the
      two cache variables) and the operators the code applies to them:
      truthiness ([&&] at line 21), [ToNumber] and the arithmetic of
      line 47, [<] of line 21, property access [data.access_token],
      [results.length], [results[0].logo_url], [String.prototype.substring]
      (line 50), template literals ([ToString]) and [===] (line 144).
      Numbers are integers or NaN (see "Bounds" below).
    - [Prog.v], Module [Prog]: the async code as a small free monad
      [prog]: [Ret], [Throw], [Now] ([Date.now()]), [GetG] (reading the
      module-level variables), [SetVar] (assigning one of them), [Log] ([console.log]/[console.error]),
      [Yield] (an [await] that resumes with a known value: the dynamic
      [import('node-fetch')], [response.json()] and, through
      [await_promise], the [await getAccessToken()] of line 71) and [Fetch] (an
      [await fetch(...)] answered by the network).  [bind] is sequencing,
      [catch] is [try]/[catch]; [run] executes a program against a list
      of network answers, each with the time it took, and reports
      [Done], [Failed] (an exception escaped) or [Hung] (a fetch never
      answered).
    - [TokenCache.v], Module [TokenCache]: [getAccessToken] statement by
      statement, the token request it sends, the abstract single-slot
      cache it refines, and its theorems.
    - [Uri.v], Module [Uri]: [encodeURIComponent] (line 133), for the
      strings whose code units are below 256, and [decodeURIComponent],
      which Express applies to the [:domain] path segment.
    - [Handlers.v], Module [Handlers]: the four JSON handlers.  The
      partner handlers are proved against the interface [TokenSource]
      (a [Class]: a program that yields a token and touches nothing but
      the cache), which [getAccessToken] instantiates.
    - [EventLoop.v], Module [EventLoop]: the event loop as a step
      relation [step] over a pool of in-flight requests: a request for
      one of the API routes arrives ([route]), a ready task runs its
      synchronous segment ([segment]) up to its next [await] without
      interruption, the network answers a pending fetch in any order,
      the clock advances.  The configuration records, for each of the
      two module variables, the segment that assigned it last.  The
      invariant is [loop_inv], proved by induction over the reachable
      configurations from the per-program property [keeps] (every
      segment assigns both variables or neither, and sends only allowed
      requests), which is established compositionally for the
      handlers.
    - [Liveness.v], Module [Liveness]: [bounded n p], "every path of [p]
      has at most [n] awaits", and [fetches n p], "every path of [p]
      has at most [n] [fetch]es", checked for the handlers node by
      node; with them, a handler given as many network answers as it
      has fetches does not hang.
    - [Agreement.v], Module [Agreement]: the event loop against [run].
      [run_split] cuts [run] at the end of a segment; [lone_task_runs]
      shows, by well-founded induction on the bound of [bounded], that
      a task the loop runs alone (its segments in turn, each [fetch]
      answered after the time the answer took, by a tick and an answer
      step) reaches the outcome, state, clock, log and requests [run]
      computes, the other tasks untouched.
    - [Routing.v], Module [Routing]: the Express application as the
      stack of layers the code registers ([app_stack]: [cors()],
      [express.json()], [express.static('.')], then the six routes),
      and [dispatch], which hands a request down the stack.  The
      library layers are modelled as those libraries behave with their
      default options; the working directory is a list of file paths,
      and the static layer looks a path up under its root ([under]).
      The dotfile rule of [send] differs between its versions 0.x and
      1.x, and the repository pins neither: the theorems that depend on
      it hold under both (see the header of [Routing.v]).
    - [Startup.v], Module [Startup]: [dotenv]'s [config()] (line 4),
      [PORT] (line 7) and the lines the [app.listen] callback logs, with
      the environment check.
    - [Json.v], Module [Json]: the texts on the wire.  [stringify] is
      [JSON.stringify] (line 32, and inside every [res.json]): QuoteJSONString,
      the own-key order of an object (array-index keys ascending, then
      insertion order, last value wins) and the dropping of [undefined]
      members.  [parse_json] is [JSON.parse] as [response.json()] applies
      it (line 85), a mutually recursive reader [parse_value] /
      [parse_elems] / [parse_members] with fuel.  [sent_text] is the text
      [res.json] sends and [text_response] an upstream answer given by its
      text.
    - [App.v], Module [App]: the application end to end.  [respond]
      sends a request down [Routing]'s stack, runs the callback of the
      route it reaches ([handler], the programs of [Handlers] with the
      token cache as their [TokenSource]) against the network's answers,
      and replies with the text [Json.sent_text], or, to a [HEAD], with
      the status alone (Express sends no body).  The handler programs
      are the arrivals of [EventLoop.route] ([handler_arrives]), so the
      loop's theorems cover every request the router forwards.

    ** What the theorems show (see PROJECT.json for the list)

    - cache hits: a token is returned from the cache, with no fetch and
      no state change, exactly when it is truthy and [Date.now()] is
      strictly before its expiry; otherwise exactly one token request is
      sent;
    - refresh: on a well-formed token response the cache holds the new
      token with expiry [t + (expires_in - 300) * 1000], the token is
      returned, and the log shows at most its first 50 characters;
      a refresh is a functional refinement of an abstract single-slot
      cache with time-based invalidation;
    - failures: a network error, a non-2xx status, a body that is not
      JSON or the JSON [null] leave the cache unchanged and propagate
      the error; a response whose [access_token] is not a string is
      rejected with a TypeError only after the cache was overwritten,
      so the next call can return the rejected value (a finding);
    - handlers: every handler answers (none lets an exception escape),
      the partner handlers relay the upstream body on success and the
      fixed 500 body on every failure, the logo handler answers 404 on a
      non-2xx status or an empty list, 200 with the first result's
      [logo_url] otherwise, and 500 on an exception;
    - logo requests: the domain is sent encoded, decodes back to itself
      and cannot end or split the [q] parameter; the header is written
      [Bearer: <key>], with a colon (a finding);
    - event loop: in every reachable configuration the two cache
      variables were last written by the same segment (the token state
      is never partially updated, whatever the interleaving) and every
      request sent is the token exchange, a read of the partner API
      carrying a bearer token or a logo search, each handler sending
      only its own kinds; refreshes are not serialised: in every
      reachable configuration whose cache is cold, two [GET /api/users]
      that arrive both send a token request before either is answered
      ([EventLoop.concurrent_misses_both_refresh]), as section 5 of the
      spec accepts;
    - termination: every handler has at most 3 awaits (logo) or 7
      (partner: the [await getAccessToken()] counts) on every path and
      at most 2 fetches;
    - the application: [express.static('.')] serves every file of the
      working directory a browser can name without a dot segment,
      [server.js] included (a finding), but not a top-level dotfile
      such as [.env];
      the [GET /] route is dead code when [index.html] exists (an
      equivalence of the two stacks); the logo route receives exactly
      the domain the client encoded; preflights and bad JSON bodies are
      answered before any route;
    - start-up: the port default and the environment check, which does
      not see the token endpoint, the audience and the logo search key,
      and reports an API key no handler reads (findings);
    - texts: [JSON.parse] reads back what [JSON.stringify] writes for
      every value without [undefined], NaN, duplicate or array-index keys
      ([Json.json_roundtrip], by nested induction on values); hence a
      partner handler sends a text that parses to the value the upstream
      text parsed to, but not the upstream text itself (keys reordered, a
      finding against "verbatim"); the logo answer without [logo_url] is
      the text [{}]; the token request body leaves out every unset
      variable, the audience included (findings);
    - types: [JSON.parse] only gives JSON values ([Json.json_typed]: no
      [undefined], no NaN at any depth), by one induction on the fuel
      over the three mutually recursive readers, so every answer of a
      partner handler is a JSON value that [res.json] serialises;
    - end to end: every request, whatever its method, path, body and the
      directory, is replied when the network answers the awaits of its
      handler, with a status the handlers use and a non-empty text
      ([App.every_request_replied], from the [post] lemmas of the
      handlers and [Liveness.fetches_run_answered]); [GET /api/config]
      is replied with its exact text, or its status alone to a [HEAD];
    - small steps against big steps: a routed request arriving in any
      configuration of the loop and run alone ends with the reply and
      the world [respond] computes ([App.respond_agrees_with_loop], by
      [Agreement.lone_task_runs]), so the replies of [App] and the
      interleavings of [EventLoop] describe the same process.

    ** Bounds

    JavaScript numbers are doubles.  The model keeps integers exactly
    ([Z]) and NaN; every number the code computes is an integer as long
    as the upstream [expires_in] is one, and the theorem
    [TokenCache.expiry_exact] shows that for [Date.now()] below 2^50 ms
    (the year 37 648) and [expires_in] below 2^31 s every intermediate
    value of line 47 stays below 2^53, where double arithmetic on
    integers is exact, so the integer model computes what the double
    arithmetic computes.  [run] needs no fuel: programs are finite trees
    and [run] recurses on them structurally.  [parse_json] gives its
    reader the length of the text plus one as fuel: each value, element
    or member read uses one unit and takes at least one character, and
    [Json.need_le_length] proves that the fuel a printed value needs is
    at most the length of its text, so the round trip never runs out.  The bound 7 of
    [Liveness] is the largest number of awaits of a handler: a partner
    handler awaits [import], the token [fetch] and its [json], the
    promise of [getAccessToken()] itself, then [import], the partner
    [fetch] and its [json]; it fetches at most twice, so two network
    answers are enough for every request.

    ** Not modelled

    - Double-precision arithmetic outside the integers below 2^53: a
      fractional or huge [expires_in], [Infinity], rounding.  The
      operators of [Js] compute on integers and NaN, which is why the
      component "JavaScript operators" stays partly modelled;
      [TokenCache.expiry_exact] bounds the inputs under which the two
      agree.
    - The file I/O of [express.static] and [res.sendFile] (what is in a
      file, its headers, ranges, caching), the CORS headers of
      non-preflight answers, and what [express.json] stores in
      [req.body], which no handler reads.
    - The reading of [.env] and its line syntax: [dotenv_config] takes
      the file as the list of pairs it holds.  The binding of the port by
      [app.listen].
    - [respond] runs one request alone; the interleaving of several is
      [EventLoop]'s.  A rejected promise of an async callback is not
      caught by Express and is modelled as [NoReply]; no handler
      rejects.
    - The JSON texts of numbers with a fraction or an exponent and of
      [\u] escapes above [00ff] ([parse_json] refuses them), and the
      bytes of the body before it is decoded to a string.  The handler
      theorems of [Handlers] take a response body as the parsed value;
      [Json] connects it to the text through [text_response].
    - Strings with code units above U+00FF: [Uri] models
      [encodeURIComponent] for the code units below 256 only.
    - The network is any function of the request: [run] and
      [EventLoop.step] accept every answer to every request.  That is
      more than happens: [fetch] rejects a URL that is not absolute,
      such as the ["undefined"] of an unset [FORTIUM_TOKEN_ENDPOINT],
      without sending it.  Theorems over every answer cover the real
      answers; [c_sent] lists the requests the code passes to [fetch].
      Likewise [import('node-fetch')] is modelled as an [await] that
      resumes: a missing module would reject it, and the handlers'
      [catch] blocks would answer as for any other exception, but the
      dependency is not installed by anything in the repository, so
      its presence is an assumption of the model.
    - The Node runtime itself: [EventLoop] models its scheduling of
      tasks at [await]s, not its timers, sockets or the order in which
      it happens to pick runnable tasks (every order is allowed).

    ** Left open

    The token a partner request carries when other requests interleave
    with it: [EventLoop] proves that the cache is never half written,
    and [TokenCache] that a request alone uses a token valid when it
    read the cache and that the 300-second margin makes a cached token
    expire before the upstream one when the token request took at most
    300 s ([TokenCache.margin_covers_latency]); a statement over
    interleavings that the token was valid when its task read it is not
    proved.
*)

From Stdlib Require Export ZArith String Ascii Lia.
From stdpp Require Export base list strings gmap pretty.

Declare Scope js_scope.
Delimit Scope js_scope with js.

Create HintDb gateway discriminated.
Create Rewrite HintDb gw.

(** ** Tactics of the development *)

(** Invert a hypothesis and clean up. *)
Ltac invc H := inversion H; subst; clear H.

(** Rewrite with the development's equations, then close what is left
    by computation or arithmetic. *)
Ltac gw_simpl := repeat (progress (cbn [negb andb orb] in *; autorewrite with gw in *)).
Ltac gw_auto := gw_simpl; try solve [eauto with gateway | lia | done].

(** ** Strings *)

Lemma substring_0_length (n : nat) (s : string) :
  String.length (String.substring 0 n s) = Nat.min n (String.length s).
Proof.
  revert s; induction n as [|n IH]; intros [|c s]; cbn; try done.
  by rewrite IH.
Qed.

Lemma substring_0_prefix (n : nat) (s : string) :
  String.prefix (String.substring 0 n s) s = true.
Proof.
  revert s; induction n as [|n IH]; intros [|c s]; cbn; try done.
  destruct (ascii_dec c c) as [_|]; [apply IH | done].
Qed.

Lemma substring_0_all (n : nat) (s : string) :
  String.length s <= n -> String.substring 0 n s = s.
Proof.
  revert s; induction n as [|n IH]; intros [|c s] Hle; cbn in *; try done; try lia.
  rewrite IH; [done | lia].
Qed.

Lemma string_app_length (s1 s2 : string) :
  String.length (s1 ++ s2)%string = String.length s1 + String.length s2.
Proof. induction s1 as [|c s1 IH]; simpl; [done | by rewrite IH]. Qed.

Lemma string_app_cons (c : ascii) (s t : string) : (String c s ++ t)%string = String c (s ++ t).
Proof. done. Qed.

Lemma string_app_assoc (s1 s2 s3 : string) : ((s1 ++ s2) ++ s3)%string = (s1 ++ (s2 ++ s3))%string.
Proof. induction s1 as [|c s1 IH]; [done|]. by rewrite !string_app_cons, IH. Qed.

Lemma string_app_nil_l (s : string) : ("" ++ s)%string = s.
Proof. done. Qed.

Lemma string_app_nil_r (s : string) : (s ++ "")%string = s.
Proof. induction s as [|c s IH]; [done|]. by rewrite string_app_cons, IH. Qed.

Lemma string_concat_cons2 (sep x y : string) rs :
  String.concat sep (x :: y :: rs) = (x ++ sep ++ String.concat sep (y :: rs))%string.
Proof. done. Qed.

Lemma string_eqb_refl (s : string) : String.eqb s s = true.
Proof. apply String.eqb_refl. Qed.

Lemma string_prefix_app (s1 s2 : string) : String.prefix s1 (s1 ++ s2) = true.
Proof.
  induction s1 as [|c s1 IH]; simpl; [by destruct s2 | ].
  destruct (ascii_dec c c); [apply IH | done].
Qed.

#[export] Hint Rewrite substring_0_length string_app_length string_eqb_refl : gw.
#[export] Hint Resolve substring_0_prefix string_prefix_app : gateway.

(** ** Options *)

Lemma option_bind_Some {A B} (o : option A) (f : A -> option B) (b : B) :
  o ≫= f = Some b <-> exists a, o = Some a /\ f a = Some b.
Proof. destruct o; cbn; naive_solver. Qed.

(** ** Integers *)

Lemma Z_ltb_irrefl (z : Z) : (z <? z)%Z = false.
Proof. apply Z.ltb_irrefl. Qed.

#[export] Hint Rewrite Z_ltb_irrefl : gw.
