(* ===== verification/JsValue.v ===== *)
(** JavaScript values and the operators [src/server.js] applies to them:
    [ToBoolean] (the [&&] of line 21 and the [||] of line 123),
    [ToNumber] and the arithmetic of line 47, the [<] of line 21,
    [ToString] (template literals), property access (lines 45, 47, 144,
    149), [===] against a number (line 144) and
    [String.prototype.substring] (line 50).  Numbers are NaN or integers. *)

From S2P Require Import Prelude.

Module Js.

(** ** Values *)

(** A number is NaN or an integer; the code never produces a fraction
    from integer inputs (see the root file, "Bounds"). *)
Inductive num := NaN | Int (z : Z).

#[export] Instance num_eq_dec : EqDecision num.
Proof. solve_decision. Defined.

(** The values [JSON.parse] produces, plus [undefined]. *)
Inductive jsval :=
| JUndefined
| JNull
| JBool (b : bool)
| JNum (n : num)
| JStr (s : string)
| JArr (l : list jsval)
| JObj (fields : list (string * jsval)).

(** ** ToBoolean *)

Definition truthy (v : jsval) : bool :=
  match v with
  | JUndefined | JNull => false
  | JBool b => b
  | JNum NaN => false
  | JNum (Int z) => negb (Z.eqb z 0)
  | JStr s => negb (String.eqb s "")
  | JArr _ | JObj _ => true
  end.

(** ** ToString *)

Definition num_to_string (n : num) : string :=
  match n with NaN => "NaN" | Int z => pretty z end.

(** [Array.prototype.join] writes [null] and [undefined] elements as the
    empty string; a plain object prints as ["[object Object]"]. *)
Fixpoint to_string (v : jsval) : string :=
  match v with
  | JUndefined => "undefined"
  | JNull => "null"
  | JBool true => "true"
  | JBool false => "false"
  | JNum n => num_to_string n
  | JStr s => s
  | JArr l =>
      String.concat ","
        ((fix go (l : list jsval) : list string :=
            match l with
            | [] => []
            | (JUndefined | JNull) :: l => "" :: go l
            | x :: l => to_string x :: go l
            end) l)
  | JObj _ => "[object Object]"
  end.

(** ** ToNumber *)

Definition is_space (c : ascii) : bool :=
  match nat_of_ascii c with
  | 9 | 10 | 11 | 12 | 13 | 32 => true
  | _ => false
  end.

Fixpoint trim_left (s : string) : string :=
  match s with
  | EmptyString => EmptyString
  | String c s' => if is_space c then trim_left s' else s
  end.

Fixpoint trim_right (s : string) : string :=
  match s with
  | EmptyString => EmptyString
  | String c s' =>
      let r := trim_right s' in
      if is_space c && String.eqb r "" then EmptyString else String c r
  end.

Definition trim (s : string) : string := trim_right (trim_left s).

Definition digit_value (c : ascii) : option Z :=
  let n := nat_of_ascii c in
  if (48 <=? n) && (n <=? 57) then Some (Z.of_nat n - 48)%Z else None.

(** Decimal digits, most significant first, accumulated into [acc]. *)
Fixpoint parse_digits (s : string) (acc : Z) : option Z :=
  match s with
  | EmptyString => Some acc
  | String c s' =>
      match digit_value c with
      | Some d => parse_digits s' (10 * acc + d)%Z
      | None => None
      end
  end.

Definition parse_unsigned (s : string) : option Z :=
  match s with
  | EmptyString => None
  | _ => parse_digits s 0
  end.

(** StringToNumber on the integer literals [-?[0-9]+] and [+[0-9]+]
    after trimming white space; the empty string is 0.  Other numeric
    literals (fractions, exponents, hex, [Infinity]) are outside the
    integer model and read as NaN. *)
Definition string_to_number (s : string) : num :=
  match trim s with
  | EmptyString => Int 0
  | String "-" r => match parse_unsigned r with Some z => Int (- z) | None => NaN end
  | String "+" r => match parse_unsigned r with Some z => Int z | None => NaN end
  | r => match parse_unsigned r with Some z => Int z | None => NaN end
  end.

(** Arrays and objects go through [ToPrimitive], which here is their
    [toString]. *)
Definition to_number (v : jsval) : num :=
  match v with
  | JUndefined => NaN
  | JNull => Int 0
  | JBool b => Int (if b then 1 else 0)
  | JNum n => n
  | JStr s => string_to_number s
  | JArr _ | JObj _ => string_to_number (to_string v)
  end.

(** ** Arithmetic and comparison on numbers *)

Definition num_lift2 (f : Z -> Z -> Z) (a b : num) : num :=
  match a, b with
  | Int x, Int y => Int (f x y)
  | _, _ => NaN
  end.

Definition num_add := num_lift2 Z.add.
Definition num_sub := num_lift2 Z.sub.
Definition num_mul := num_lift2 Z.mul.

(** [a < b]: false as soon as one side is NaN. *)
Definition num_lt (a b : num) : bool :=
  match a, b with
  | Int x, Int y => Z.ltb x y
  | _, _ => false
  end.

(** [x < v] with a number on the left, as in [Date.now() < tokenExpiry]:
    the right side goes through [ToNumber]. *)
Definition lt_num (x : Z) (v : jsval) : bool := num_lt (Int x) (to_number v).

(** [v === z] against a number literal. *)
Definition strict_eq_int (v : jsval) (z : Z) : bool :=
  match v with JNum (Int x) => Z.eqb x z | _ => false end.

(** ** Property access *)

(** A property key that is an array index: digits without a leading
    zero. *)
Definition key_index (k : string) : option nat :=
  match parse_unsigned k with
  | Some z => if String.eqb (pretty z) k then Some (Z.to_nat z) else None
  | None => None
  end.

(** The own property of a parsed object: with a duplicated key
    [JSON.parse] keeps the last value. *)
Definition obj_lookup (fs : list (string * jsval)) (k : string) : jsval :=
  match find (fun kv => String.eqb kv.1 k) (rev fs) with
  | Some (_, v) => v
  | None => JUndefined
  end.

Fixpoint string_at (s : string) (i : nat) : option string :=
  match s, i with
  | EmptyString, _ => None
  | String c _, 0 => Some (String c EmptyString)
  | String _ s', S i' => string_at s' i'
  end.

(** [v.k] (and [v[k]]): [None] is the TypeError of reading a property
    of [null] or [undefined].  Only own data properties are modelled;
    the keys the program reads ([access_token], [expires_in], [length],
    [0], [logo_url]) are not properties of the prototypes. *)
Definition get_prop (v : jsval) (k : string) : option jsval :=
  match v with
  | JUndefined | JNull => None
  | JBool _ | JNum _ => Some JUndefined
  | JStr s =>
      if String.eqb k "length" then Some (JNum (Int (Z.of_nat (String.length s))))
      else match key_index k with
           | Some i => Some (default JUndefined (JStr <$> string_at s i))
           | None => Some JUndefined
           end
  | JArr l =>
      if String.eqb k "length" then Some (JNum (Int (Z.of_nat (length l))))
      else match key_index k with
           | Some i => Some (default JUndefined (l !! i))
           | None => Some JUndefined
           end
  | JObj fs => Some (obj_lookup fs k)
  end.

(** [v.substring(0, n)]: only strings have the method; on any other
    value the call throws a TypeError ([None]). *)
Definition substring0 (v : jsval) (n : nat) : option string :=
  match v with
  | JStr s => Some (String.substring 0 n s)
  | _ => None
  end.

(** ** Equations *)

Lemma truthy_str (s : string) : truthy (JStr s) = true <-> s <> "".
Proof.
  cbn. destruct (String.eqb_spec s ""); cbn; naive_solver.
Qed.

Lemma to_number_int (z : Z) : to_number (JNum (Int z)) = Int z.
Proof. done. Qed.

Lemma lt_num_int (x z : Z) : lt_num x (JNum (Int z)) = (x <? z)%Z.
Proof. done. Qed.

Lemma num_arith_int (x y : Z) :
  num_add (Int x) (Int y) = Int (x + y) /\
  num_sub (Int x) (Int y) = Int (x - y) /\
  num_mul (Int x) (Int y) = Int (x * y).
Proof. done. Qed.

Lemma num_lt_NaN_r (a : num) : num_lt a NaN = false.
Proof. by destruct a. Qed.

Lemma get_prop_obj (fs : list (string * jsval)) (k : string) :
  get_prop (JObj fs) k = Some (obj_lookup fs k).
Proof. done. Qed.

Lemma substring0_str (s : string) (n : nat) :
  substring0 (JStr s) n = Some (String.substring 0 n s).
Proof. done. Qed.

Lemma substring0_Some (v : jsval) (n : nat) (p : string) :
  substring0 v n = Some p -> exists s, v = JStr s /\ p = String.substring 0 n s.
Proof. destruct v; cbn; naive_solver. Qed.

#[export] Hint Rewrite to_number_int lt_num_int num_lt_NaN_r get_prop_obj substring0_str : gw.

End Js.
