(* ===== verification/Prog.v ===== *)
(** The async code of [src/server.js] as programs of a small free monad.
    A program is a finite tree whose nodes are the effects the code
    performs: [Date.now()], reading and assigning the two module-level
    variables (lines 15-16), [console.log]/[console.error], an [await]
    that resumes with a value already known ([import('node-fetch')],
    [response.json()]), and an [await fetch(...)] answered by the
    network.  [bind] is the sequencing of statements, [catch] a
    [try]/[catch] block, and [run] executes a program against the
    network's answers. *)

From S2P Require Import Prelude JsValue.
Import Js.

Module Prog.

(** ** The process state, errors, HTTP messages and log lines *)

(** [let accessToken = null; let tokenExpiry = null;] (lines 15-16). *)
Record globals := mkGlobals { accessToken : jsval; tokenExpiry : jsval }.

Definition globals_init : globals := mkGlobals JNull JNull.

(** The two variables, as the targets of an assignment. *)
Inductive var := VAccessToken | VTokenExpiry.

#[export] Instance var_eq_dec : EqDecision var.
Proof. solve_decision. Defined.

Definition set_var (g : globals) (x : var) (v : jsval) : globals :=
  match x with
  | VAccessToken => mkGlobals v (tokenExpiry g)
  | VTokenExpiry => mkGlobals (accessToken g) v
  end.

Inductive jserror :=
| TypeError (what : string)   (** reading a property of null, calling a non-method *)
| SyntaxError                 (** [response.json()] on a body that is not JSON *)
| NetworkError                (** [fetch] rejected: unreachable host, invalid URL *)
| Error (msg : string).       (** [throw new Error(msg)] *)

(** An outgoing request: what the code passes to [fetch]. *)
Record request := mkRequest {
  req_method : string;
  req_url : string;
  req_headers : list (string * string);
  req_body : option jsval }.

(** An upstream response: its status and its body as [JSON.parse] reads
    it ([None]: the text is not JSON, so [response.json()] rejects). *)
Record response := mkResponse { status : Z; body : option jsval }.

(** [response.ok]. *)
Definition resp_ok (r : response) : bool := (200 <=? status r)%Z && (status r <=? 299)%Z.

Inductive fetch_result := Resolved (r : response) | Rejected (e : jserror).

Inductive log_line :=
| Info (parts : list string)               (** [console.log(p1, p2, ...)] *)
| ErrorLog (label : string) (e : jserror). (** [console.error(label, error)] *)

(** ** Programs *)

Inductive prog (A : Type) : Type :=
| Ret (a : A)
| Throw (e : jserror)
| Now (k : Z -> prog A)
| GetG (k : globals -> prog A)
| SetVar (x : var) (v : jsval) (k : prog A)
| Log (l : log_line) (k : prog A)
| Yield (k : prog A)
| Fetch (r : request) (k : fetch_result -> prog A).

Arguments Ret {A} a.
Arguments Throw {A} e.
Arguments Now {A} k.
Arguments GetG {A} k.
Arguments SetVar {A} x v k.
Arguments Log {A} l k.
Arguments Yield {A} k.
Arguments Fetch {A} r k.

Fixpoint bind {A B} (p : prog A) (f : A -> prog B) : prog B :=
  match p with
  | Ret a => f a
  | Throw e => Throw e
  | Now k => Now (fun t => bind (k t) f)
  | GetG k => GetG (fun g => bind (k g) f)
  | SetVar x v k => SetVar x v (bind k f)
  | Log l k => Log l (bind k f)
  | Yield k => Yield (bind k f)
  | Fetch r k => Fetch r (fun x => bind (k x) f)
  end.

(** [try { p } catch (e) { h(e) }]: an exception raised anywhere in [p],
    also after an [await], is handed to [h]. *)
Fixpoint catch {A} (p : prog A) (h : jserror -> prog A) : prog A :=
  match p with
  | Ret a => Ret a
  | Throw e => h e
  | Now k => Now (fun t => catch (k t) h)
  | GetG k => GetG (fun g => catch (k g) h)
  | SetVar x v k => SetVar x v (catch k h)
  | Log l k => Log l (catch k h)
  | Yield k => Yield (catch k h)
  | Fetch r k => Fetch r (fun x => catch (k x) h)
  end.

#[export] Instance prog_ret : MRet prog := @Ret.
#[export] Instance prog_bind : MBind prog := fun A B f p => bind p f.

(** The effects one at a time, as the code writes them. *)
Definition now : prog Z := Now Ret.
Definition get_globals : prog globals := GetG Ret.
Definition assign (x : var) (v : jsval) : prog unit := SetVar x v (Ret tt).
Definition log (l : log_line) : prog unit := Log l (Ret tt).

(** [(await import('node-fetch')).default]: the module is loaded, the
    task yields once. *)
Definition import_fetch : prog unit := Yield (Ret tt).

(** [await fetch(url, opts)]: a rejection is thrown at the [await]. *)
Definition fetch (r : request) : prog response :=
  Fetch r (fun x => match x with Resolved resp => Ret resp | Rejected e => Throw e end).

(** [await response.json()]. *)
Definition json (r : response) : prog jsval :=
  Yield (match body r with Some v => Ret v | None => Throw SyntaxError end).

(** [await f()] on the promise of an async function [f] (line 71): the
    caller resumes in a later job once the promise settles, even when
    [f] returned without suspending, and whether the promise resolved or
    rejected. *)
Definition await_promise {A} (p : prog A) : prog A :=
  catch (x ← p; Yield (Ret x)) (fun e => Yield (Throw e)).

(** A JavaScript operation that throws a TypeError where the model
    returns [None]. *)
Definition js_op {A} (what : string) (o : option A) : prog A :=
  match o with Some a => Ret a | None => Throw (TypeError what) end.

(** ** Running a program *)

(** What the outside world has seen: the process state, the clock, the
    log and the requests sent, in order. *)
Record world := mkWorld {
  w_globals : globals;
  w_now : Z;
  w_log : list log_line;
  w_sent : list request }.

Definition set_globals (w : world) (g : globals) : world :=
  mkWorld g (w_now w) (w_log w) (w_sent w).
Definition add_log (w : world) (l : log_line) : world :=
  mkWorld (w_globals w) (w_now w) (w_log w ++ [l]) (w_sent w).
Definition send (w : world) (r : request) (d : N) : world :=
  mkWorld (w_globals w) (w_now w + Z.of_N d) (w_log w) (w_sent w ++ [r]).

(** The network's answer to one request: the milliseconds it took and
    its result. *)
Definition answer := (N * fetch_result)%type.

Inductive outcome (A : Type) := Done (a : A) | Failed (e : jserror) | Hung.
Arguments Done {A} a.
Arguments Failed {A} e.
Arguments Hung {A}.

(** Answers are consumed in the order the requests are sent; a request
    with no answer left never completes, and the program hangs there,
    as the code does on an upstream that never responds. *)
Fixpoint run {A} (p : prog A) (ans : list answer) (w : world)
  : outcome A * list answer * world :=
  match p with
  | Ret a => (Done a, ans, w)
  | Throw e => (Failed e, ans, w)
  | Now k => run (k (w_now w)) ans w
  | GetG k => run (k (w_globals w)) ans w
  | SetVar x v k => run k ans (set_globals w (set_var (w_globals w) x v))
  | Log l k => run k ans (add_log w l)
  | Yield k => run k ans w
  | Fetch r k =>
      match ans with
      | [] => (Hung, [], send w r 0)
      | (d, x) :: ans' => run (k x) ans' (send w r d)
      end
  end.


(** ** Postconditions of programs *)

(** [post P Q p]: every value [p] can return satisfies [P] and every
    exception it can let escape satisfies [Q], whatever the clock, the
    state and the network do. *)
Inductive post {A} (P : A -> Prop) (Q : jserror -> Prop) : prog A -> Prop :=
| post_ret a : P a -> post P Q (Ret a)
| post_throw e : Q e -> post P Q (Throw e)
| post_now k : (forall t, post P Q (k t)) -> post P Q (Now k)
| post_getg k : (forall g, post P Q (k g)) -> post P Q (GetG k)
| post_setvar x v k : post P Q k -> post P Q (SetVar x v k)
| post_log l k : post P Q k -> post P Q (Log l k)
| post_yield k : post P Q k -> post P Q (Yield k)
| post_fetch r k : (forall x, post P Q (k x)) -> post P Q (Fetch r k).

(** What a final outcome satisfies. *)
Definition outcome_post {A} (P : A -> Prop) (Q : jserror -> Prop) (o : outcome A) : Prop :=
  match o with Done a => P a | Failed e => Q e | Hung => True end.

(** How a result continues after [bind] and [catch]. *)
Definition continue_with {A B} (f : A -> list answer -> world -> outcome B * list answer * world)
  (r : outcome A * list answer * world) : outcome B * list answer * world :=
  match r with
  | (Done a, ans, w) => f a ans w
  | (Failed e, ans, w) => (Failed e, ans, w)
  | (Hung, ans, w) => (Hung, ans, w)
  end.

Definition recover_with {A} (h : jserror -> list answer -> world -> outcome A * list answer * world)
  (r : outcome A * list answer * world) : outcome A * list answer * world :=
  match r with
  | (Failed e, ans, w) => h e ans w
  | r => r
  end.

(** ** The equations of [run] *)

Lemma run_bind {A B} (p : prog A) (f : A -> prog B) ans w :
  run (bind p f) ans w = continue_with (fun a => run (f a)) (run p ans w).
Proof.
  revert ans w; induction p as [| | ? IH | ? IH | ? ? IH | ? ? IH | ? IH | ? ? IH];
    intros ans w; cbn; try done.
  destruct ans as [|[d x] ans]; [done | apply IH].
Qed.

Lemma run_catch {A} (p : prog A) (h : jserror -> prog A) ans w :
  run (catch p h) ans w = recover_with (fun e => run (h e)) (run p ans w).
Proof.
  revert ans w; induction p as [| | ? IH | ? IH | ? ? IH | ? ? IH | ? IH | ? ? IH];
    intros ans w; cbn; try done.
  destruct ans as [|[d x] ans]; [done | apply IH].
Qed.

#[export] Hint Rewrite @run_bind @run_catch : gw.

(** Awaiting a promise changes when the caller resumes, not what it gets. *)
Lemma run_await_promise {A} (p : prog A) ans w : run (await_promise p) ans w = run p ans w.
Proof.
  unfold await_promise, mbind, prog_bind. rewrite run_catch, run_bind.
  by destruct (run p ans w) as [[[a|e|] ans'] w'].
Qed.

(** A program consumes the answers from the front: what is left is a
    suffix of what it was given. *)
Lemma run_suffix {A} (p : prog A) ans w : suffix (run p ans w).1.2 ans.
Proof.
  revert ans w; induction p as [| | ? IH | ? IH | ? ? IH | ? ? IH | ? IH | ? ? IH];
    intros ans w; cbn; try done.
  destruct ans as [|[d x] ans]; [done |]. apply suffix_cons_r, IH.
Qed.

(** *** The rules of [post] *)

Lemma post_trivial {A} (p : prog A) : post (fun _ => True) (fun _ => True) p.
Proof. induction p; constructor; auto. Qed.

Lemma post_weaken {A} (P P' : A -> Prop) (Q Q' : jserror -> Prop) (p : prog A) :
  post P Q p -> (forall a, P a -> P' a) -> (forall e, Q e -> Q' e) -> post P' Q' p.
Proof. induction 1; constructor; eauto. Qed.

Lemma post_bind {A B} (P : A -> Prop) (P' : B -> Prop) (Q : jserror -> Prop)
    (p : prog A) (f : A -> prog B) :
  post P Q p -> (forall a, P a -> post P' Q (f a)) -> post P' Q (bind p f).
Proof. induction 1; intros Hf; cbn; try constructor; auto. Qed.

Lemma post_catch {A} (P : A -> Prop) (Q Q' : jserror -> Prop)
    (p : prog A) (h : jserror -> prog A) :
  post P Q' p -> (forall e, Q' e -> post P Q (h e)) -> post P Q (catch p h).
Proof. induction 1; intros Hh; cbn; try constructor; auto. Qed.

Lemma post_run {A} (P : A -> Prop) (Q : jserror -> Prop) (p : prog A) ans w :
  post P Q p -> outcome_post P Q (run p ans w).1.1.
Proof.
  intros H; revert ans w; induction H; intros ans w; cbn; auto.
  destruct ans as [|[d x] ans]; cbn; auto.
Qed.

#[export] Hint Resolve post_trivial : gateway.
#[export] Hint Constructors post : gateway.


End Prog.
