(* ===== verification/TokenCache.v ===== *)
(** The token cache of [src/server.js] (lines 14-56): the request
    [getAccessToken] sends, the function itself statement by statement,
    the abstract single-slot cache it implements, and its theorems. *)

From S2P Require Import Prelude JsValue Prog.
Import Js Prog.

Module TokenCache.

(** ** The environment *)

(** [process.env.K]: a string, or [undefined] when unset. *)
Definition env_get (E : gmap string string) (k : string) : jsval :=
  match E !! k with Some s => JStr s | None => JUndefined end.

(** ** The token request (lines 27-38) *)

(** The object passed to [JSON.stringify]: an unset variable is an
    [undefined] field. *)
Definition token_request_body (E : gmap string string) : jsval :=
  JObj [("client_id", env_get E "FORTIUM_CLIENT_ID");
        ("client_secret", env_get E "FORTIUM_CLIENT_SECRET");
        ("audience", env_get E "FORTIUM_AUDIENCE");
        ("grant_type", JStr "client_credentials")].

Definition token_request (E : gmap string string) : request :=
  mkRequest "POST" (to_string (env_get E "FORTIUM_TOKEN_ENDPOINT"))
    [("Content-Type", "application/json")] (Some (token_request_body E)).

(** ** getAccessToken (lines 19-56) *)

(** [accessToken && tokenExpiry && Date.now() < tokenExpiry] (line 21). *)
Definition cache_hit (g : globals) (t : Z) : bool :=
  truthy (accessToken g) && truthy (tokenExpiry g) && lt_num t (tokenExpiry g).

(** [Date.now() + (data.expires_in - 300) * 1000] (line 47). *)
Definition expiry_of (t : Z) (expires_in : jsval) : num :=
  num_add (Int t) (num_mul (num_sub (to_number expires_in) (Int 300)) (Int 1000)).

(** The body of the [try] block (lines 26-51).  The two assignments are
    two statements, and the reads of [accessToken] that follow them go
    through the module variable, as the code does. *)
Definition refresh (E : gmap string string) : prog jsval :=
  import_fetch;;
  response ← fetch (token_request E);
  if negb (resp_ok response)
  then Throw (Error ("Token request failed: " ++ pretty (status response))%string)
  else
    data ← json response;
    tok ← js_op "access_token" (get_prop data "access_token");
    assign VAccessToken tok;;
    t ← now;
    ex ← js_op "expires_in" (get_prop data "expires_in");
    assign VTokenExpiry (JNum (expiry_of t ex));;
    log (Info ["Access token refreshed successfully"]);;
    g ← get_globals;
    preview ← js_op "substring" (substring0 (accessToken g) 50);
    log (Info ["Token starts with:"; (preview ++ "...")%string]);;
    g ← get_globals;
    mret (accessToken g).

Definition getAccessToken (E : gmap string string) : prog jsval :=
  g ← get_globals;
  t ← now;
  if cache_hit g t then mret (accessToken g)
  else catch (refresh E)
         (fun err => log (ErrorLog "Error getting access token:" err);; Throw err).

(** ** Several calls one after the other *)

(** Calls to [getAccessToken] at the times [ts], each started once the
    previous one has finished; the network answers from [ans]. *)
Fixpoint run_calls (E : gmap string string) (ts : list Z) (ans : list answer) (w : world)
  : list (outcome jsval) * world :=
  match ts with
  | [] => ([], w)
  | t :: ts =>
      let '(o, ans', w') :=
        run (getAccessToken E) ans (mkWorld (w_globals w) t (w_log w) (w_sent w)) in
      let '(os, w'') := run_calls E ts ans' w' in
      (o :: os, w'')
  end.

(** ** The abstract cache *)

(** A single slot holding a token and the instant (ms) until which it may
    be used. *)
Definition abs_cache := option (string * Z).

Definition abs_lookup (c : abs_cache) (t : Z) : option string :=
  match c with Some (s, x) => if (t <? x)%Z then Some s else None | None => None end.

(** What the token endpoint can answer, for the abstract cache: a
    non-empty token with its lifetime in seconds, or a failure. *)
Inductive token_reply := Granted (tok : string) (life : Z) | Refused.

(** [getValidToken] of the specification: a hit returns the slot; a miss
    asks the endpoint once, and a grant received at [t'] fills the slot
    with the expiry [t' + (life - 300) s]. *)
Definition abs_get (c : abs_cache) (t : Z) (reply : token_reply) (t' : Z)
  : option string * abs_cache :=
  match abs_lookup c t with
  | Some s => (Some s, c)
  | None =>
      match reply with
      | Granted s life => (Some s, Some (s, t' + (life - 300) * 1000)%Z)
      | Refused => (None, c)
      end
  end.

(** The abstraction of the two module variables. *)
Definition abs (g : globals) : abs_cache :=
  match accessToken g, tokenExpiry g with
  | JStr s, JNum (Int x) => if String.eqb s "" then None else Some (s, x)
  | _, _ => None
  end.

(** The states the cache is in while every token response is in the
    contract: no token, or a string token, with a numeric expiry or
    none. *)
Definition typed (g : globals) : Prop :=
  match accessToken g, tokenExpiry g with
  | (JNull | JStr _), (JNull | JNum _) => True
  | _, _ => False
  end.

(** How the network's answer to the token request reads for the
    abstract cache; [None] is an answer outside the contract (a token
    that is not a non-empty string, or a lifetime that is not an integer). *)
Definition reply_of (x : fetch_result) : option token_reply :=
  match x with
  | Rejected _ => Some Refused
  | Resolved r =>
      if negb (resp_ok r) then Some Refused else
      match body r with
      | None | Some JNull | Some JUndefined => Some Refused
      | Some data =>
          match get_prop data "access_token", get_prop data "expires_in" with
          | Some (JStr s), Some ex =>
              match to_number ex with
              | Int life => if String.eqb s "" then None else Some (Granted s life)
              | NaN => None
              end
          | _, _ => None
          end
      end
  end.

(** ** Definitions used by the proofs *)

(** The world after the token request is answered and both variables
    are assigned. *)
Definition refreshed (E : gmap string string) (w : world) (d : N) (tok ex : jsval) : world :=
  add_log (set_globals (send w (token_request E) d)
             (mkGlobals tok (JNum (expiry_of (w_now w + Z.of_N d) ex))))
    (Info ["Access token refreshed successfully"]).

(** The world after a refresh that received the token [s] with the
    lifetime [e] seconds after [d] ms. *)
Definition granted_world (E : gmap string string) (w : world) (d : N) (s : string) (e : Z) : world :=
  mkWorld (mkGlobals (JStr s) (JNum (Int (w_now w + Z.of_N d + (e - 300) * 1000))))
    (w_now w + Z.of_N d)
    (w_log w ++ [Info ["Access token refreshed successfully"];
                 Info ["Token starts with:"; (String.substring 0 50 s ++ "...")%string]])
    (w_sent w ++ [token_request E]).

(** The outcome of a call matches the abstract answer: a token, or a
    failure. *)
Definition outcome_refines (o : outcome jsval) (res : option string) : Prop :=
  match res with
  | Some s => o = Done (JStr s)
  | None => exists e, o = Failed e
  end.

(** ** Running getAccessToken *)

Lemma get_prop_None (v : jsval) (k : string) :
  get_prop v k = None <-> v = JNull \/ v = JUndefined.
Proof.
  split; [|by intros [-> | ->]].
  destruct v; cbn; try naive_solver;
    repeat case_match; naive_solver.
Qed.

Lemma run_refresh_rejected E d e ans w :
  run (refresh E) ((d, Rejected e) :: ans) w = (Failed e, ans, send w (token_request E) d).
Proof. done. Qed.

Lemma run_refresh_not_ok E d r ans w :
  resp_ok r = false ->
  run (refresh E) ((d, Resolved r) :: ans) w =
  (Failed (Error ("Token request failed: " ++ pretty (status r))%string), ans,
   send w (token_request E) d).
Proof. intros Hok. cbn. by rewrite Hok. Qed.

Lemma run_refresh_not_json E d r ans w :
  resp_ok r = true -> body r = None ->
  run (refresh E) ((d, Resolved r) :: ans) w = (Failed SyntaxError, ans, send w (token_request E) d).
Proof. intros Hok Hb. cbn. by rewrite Hok, Hb. Qed.

Lemma run_refresh_null E d r v ans w :
  resp_ok r = true -> body r = Some v -> (v = JNull \/ v = JUndefined) ->
  run (refresh E) ((d, Resolved r) :: ans) w =
  (Failed (TypeError "access_token"), ans, send w (token_request E) d).
Proof. intros Hok Hb Hv. cbn. rewrite Hok, Hb. by destruct Hv as [-> | ->]. Qed.

(** Once the body is an object-like value, both assignments happen; the
    outcome then depends only on whether [accessToken.substring] exists. *)
Lemma run_refresh_data E d r data tok ans w :
  resp_ok r = true -> body r = Some data ->
  get_prop data "access_token" = Some tok ->
  run (refresh E) ((d, Resolved r) :: ans) w =
  let ex := default JUndefined (get_prop data "expires_in") in
  let w1 := refreshed E w d tok ex in
  match substring0 tok 50 with
  | Some p => (Done tok, ans, add_log w1 (Info ["Token starts with:"; (p ++ "...")%string]))
  | None => (Failed (TypeError "substring"), ans, w1)
  end.
Proof.
  intros Hok Hb Htok. cbn. rewrite Hok, Hb. cbn. rewrite Htok. cbn.
  destruct (get_prop data "expires_in") as [ex|] eqn:Hex.
  - cbn. by destruct (substring0 tok 50).
  - apply get_prop_None in Hex as [-> | ->]; discriminate.
Qed.

Lemma run_refresh_granted E d r fs s e ans w :
  resp_ok r = true -> body r = Some (JObj fs) ->
  obj_lookup fs "access_token" = JStr s -> obj_lookup fs "expires_in" = JNum (Int e) ->
  run (refresh E) ((d, Resolved r) :: ans) w = (Done (JStr s), ans, granted_world E w d s e).
Proof.
  intros Hok Hb Htok Hex.
  rewrite (run_refresh_data E d r (JObj fs) (JStr s)); cbn; rewrite ?Htok, ?Hex; try done.
  unfold refreshed, add_log, set_globals, send, granted_world; cbn. by rewrite <- app_assoc.
Qed.

Lemma run_getAccessToken_hit E ans w :
  cache_hit (w_globals w) (w_now w) = true ->
  run (getAccessToken E) ans w = (Done (accessToken (w_globals w)), ans, w).
Proof. intros H. cbn. by rewrite H. Qed.

Lemma run_getAccessToken_miss E ans w :
  cache_hit (w_globals w) (w_now w) = false ->
  run (getAccessToken E) ans w =
  recover_with (fun err ans' w' => (Failed err, ans', add_log w' (ErrorLog "Error getting access token:" err)))
    (run (refresh E) ans w).
Proof.
  intros H. unfold getAccessToken. cbn [run bind mbind prog_bind get_globals now].
  rewrite H, run_catch. done.
Qed.

(** Every run of [refresh] ends in one of four ways: the token request
    is never answered, the request fails before any assignment, the
    token is stored but is not a string, or the token is a string and is
    returned. *)
Lemma run_refresh_cases E ans w :
  (exists ans', run (refresh E) ans w = (Hung, ans', send w (token_request E) 0)) \/
  (exists e d ans', run (refresh E) ans w = (Failed e, ans', send w (token_request E) d)) \/
  (exists d tok ex ans', substring0 tok 50 = None /\
     run (refresh E) ans w = (Failed (TypeError "substring"), ans', refreshed E w d tok ex)) \/
  (exists d s ex ans',
     run (refresh E) ans w =
     (Done (JStr s), ans',
      add_log (refreshed E w d (JStr s) ex)
        (Info ["Token starts with:"; (String.substring 0 50 s ++ "...")%string]))).
Proof.
  destruct ans as [|[d [r|e]] ans]; [left; by eexists | | right; left; by eauto].
  destruct (resp_ok r) eqn:Hok; [| right; left; eauto using run_refresh_not_ok].
  destruct (body r) as [data|] eqn:Hb; [| right; left; eauto using run_refresh_not_json].
  destruct (get_prop data "access_token") as [tok|] eqn:Htok.
  - setoid_rewrite (run_refresh_data E d r data tok ans w Hok Hb Htok). cbn.
    destruct tok; cbn; first [right; right; left; do 4 eexists; split; cycle 1; [reflexivity | done] | right; right; right; by eauto 10].
  - right; left. apply get_prop_None in Htok.
    eauto using run_refresh_null.
Qed.

Lemma send_sent w r d : w_sent (send w r d) = w_sent w ++ [r].
Proof. done. Qed.

Lemma refreshed_sent E w d tok ex : w_sent (refreshed E w d tok ex) = w_sent w ++ [token_request E].
Proof. done. Qed.

Lemma add_log_sent w l : w_sent (add_log w l) = w_sent w.
Proof. done. Qed.

#[export] Hint Rewrite send_sent refreshed_sent add_log_sent : gw.

(** A miss sends exactly the token request, whatever the network does. *)
Lemma refresh_sends_token_request E ans w :
  w_sent (run (getAccessToken E) ans w).2 = w_sent w ++ [token_request E] \/
  cache_hit (w_globals w) (w_now w) = true.
Proof.
  destruct (cache_hit (w_globals w) (w_now w)) eqn:Hhit; [by right | left].
  rewrite run_getAccessToken_miss by done.
  destruct (run_refresh_cases E ans w)
    as [[? ->] | [[? [? [? ->]]] | [[? [? [? [? [_ ->]]]]] | [? [? [? [? ->]]]]]]];
    cbn -[refreshed send]; by gw_simpl.
Qed.

(** *** C1 *)
(** C1. A cache hit: when the cached token is truthy, the cached expiry
    is truthy and [Date.now()] is strictly before it, [getAccessToken]
    returns the cached token without sending a request, logging or
    changing anything. *)
Theorem getAccessToken_cache_hit E ans w :
  truthy (accessToken (w_globals w)) = true ->
  truthy (tokenExpiry (w_globals w)) = true ->
  lt_num (w_now w) (tokenExpiry (w_globals w)) = true ->
  run (getAccessToken E) ans w = (Done (accessToken (w_globals w)), ans, w).
Proof.
  intros Ht He Hlt. apply run_getAccessToken_hit. unfold cache_hit. by rewrite ?Ht, ?He, ?Hlt.
Qed.

(** *** C2 *)
(** C2. A cache miss: when the cached token is falsy, or the expiry is
    falsy, or [Date.now()] is not strictly before it, [getAccessToken]
    sends exactly one request, the token request built from the
    environment, whatever the network answers. *)
Theorem getAccessToken_miss_sends_one E ans w :
  truthy (accessToken (w_globals w)) && truthy (tokenExpiry (w_globals w))
    && lt_num (w_now w) (tokenExpiry (w_globals w)) = false ->
  w_sent (run (getAccessToken E) ans w).2 = w_sent w ++ [token_request E].
Proof.
  intros Hmiss. destruct (refresh_sends_token_request E ans w) as [? | Hhit]; [done|].
  unfold cache_hit in Hhit. congruence.
Qed.

(** *** C3 *)
(** C3. A successful refresh: on a miss, when the token endpoint answers
    [d] ms later with a 2xx status and an object whose [access_token] is
    a string [s] and whose [expires_in] is an integer [e], the call
    returns [s], the cache holds [s] with the expiry
    [now + d + (e - 300) * 1000], exactly the token request was sent and
    the log shows the two refresh lines with the first 50 characters of
    [s]. *)
Theorem getAccessToken_refresh_success E d r fs s e ans w :
  cache_hit (w_globals w) (w_now w) = false ->
  resp_ok r = true -> body r = Some (JObj fs) ->
  obj_lookup fs "access_token" = JStr s -> obj_lookup fs "expires_in" = JNum (Int e) ->
  run (getAccessToken E) ((d, Resolved r) :: ans) w =
  (Done (JStr s), ans,
   mkWorld (mkGlobals (JStr s) (JNum (Int (w_now w + Z.of_N d + (e - 300) * 1000))))
     (w_now w + Z.of_N d)
     (w_log w ++ [Info ["Access token refreshed successfully"];
                  Info ["Token starts with:"; (String.substring 0 50 s ++ "...")%string]])
     (w_sent w ++ [token_request E])).
Proof.
  intros Hmiss Hok Hb Htok Hex.
  rewrite run_getAccessToken_miss, (run_refresh_granted E d r fs s e) by done. done.
Qed.

(** *** C4 *)
(** C4. A failed refresh leaves the cache unchanged: when the token
    request is rejected by the network, answered with a non-2xx status,
    answered with a body that is not JSON, or with the JSON [null], the
    call fails, the two module variables keep their values, and the
    only effects are the request and the error log line. *)
Theorem getAccessToken_failure_keeps_cache E d x ans w :
  cache_hit (w_globals w) (w_now w) = false ->
  match x with
  | Rejected _ => True
  | Resolved r => resp_ok r = false \/ body r = None \/ body r = Some JNull
  end ->
  exists err,
    run (getAccessToken E) ((d, x) :: ans) w =
    (Failed err, ans, add_log (send w (token_request E) d) (ErrorLog "Error getting access token:" err)).
Proof.
  intros Hmiss Hx. rewrite run_getAccessToken_miss by done.
  destruct x as [r|e]; [|by eexists].
  destruct (resp_ok r) eqn:Hok; [| rewrite run_refresh_not_ok by done; by eexists].
  destruct Hx as [|[Hb|Hb]]; [congruence | |].
  - rewrite run_refresh_not_json by done. by eexists.
  - rewrite (run_refresh_null E d r JNull) by auto. by eexists.
Qed.

(** *** C5 *)
(** C5. A token that is not a string poisons the cache: when the
    endpoint answers 2xx with an object whose [access_token] is a truthy
    non-string [v] (a number, an object, ...) and whose [expires_in] is
    an integer, the call fails with a TypeError at
    [accessToken.substring], but only after both module variables were
    assigned; every later call before the stored expiry returns [v]
    from the cache, without a request. *)
Theorem non_string_token_poisons_cache E d r fs v e ans w :
  cache_hit (w_globals w) (w_now w) = false ->
  resp_ok r = true -> body r = Some (JObj fs) ->
  obj_lookup fs "access_token" = v -> (forall s, v <> JStr s) -> truthy v = true ->
  obj_lookup fs "expires_in" = JNum (Int e) ->
  let x := (w_now w + Z.of_N d + (e - 300) * 1000)%Z in
  exists w',
    run (getAccessToken E) ((d, Resolved r) :: ans) w = (Failed (TypeError "substring"), ans, w') /\
    w_globals w' = mkGlobals v (JNum (Int x)) /\
    forall t l sent ans2, (0 <= t < x)%Z ->
      run (getAccessToken E) ans2 (mkWorld (w_globals w') t l sent) =
      (Done v, ans2, mkWorld (w_globals w') t l sent).
Proof.
  intros Hmiss Hok Hb Hv Hns Htv Hex x.
  rewrite run_getAccessToken_miss by done.
  rewrite (run_refresh_data E d r (JObj fs) v) by (cbn; congruence).
  cbv zeta. rewrite get_prop_obj, Hex.
  destruct (substring0 v 50) eqn:Hsub;
    [apply substring0_Some in Hsub as [? [? _]]; naive_solver |].
  eexists; split; [reflexivity | split; [reflexivity |]].
  intros t l sent ans2 Ht. apply run_getAccessToken_hit.
  unfold cache_hit; cbn. rewrite Htv. subst x.
  destruct (Z.eqb_spec (w_now w + Z.of_N d + (e - 300) * 1000) 0); [lia |].
  cbn. apply Z.ltb_lt. lia.
Qed.

(** ** The code refines the abstract cache *)

(** On the typed states, the test of line 21 is the abstract lookup. *)
Lemma cache_hit_abs g t :
  typed g -> (0 <= t)%Z ->
  match abs_lookup (abs g) t with
  | Some s => cache_hit g t = true /\ accessToken g = JStr s
  | None => cache_hit g t = false
  end.
Proof.
  destruct g as [tok ex]; unfold typed, abs, cache_hit; cbn.
  intros Hty Ht. destruct tok; try contradiction; destruct ex as [| | |[|x]| | |];
    try contradiction; cbn; try done.
  1,2: by destruct (String.eqb s "").
  destruct (String.eqb_spec s ""); cbn; [done|].
  destruct (Z.ltb_spec t x); cbn; [|by destruct (x =? 0)%Z].
  destruct (Z.eqb_spec x 0); [lia | done].
Qed.

(** A refused token request: the call fails and the state is the one
    before the call. *)
Local Ltac refused := cbn; split; [done | split; [done | by eexists]].

(** *** C6 *)
(** C6. [getAccessToken] refines the abstract single-slot cache
    [abs_get]: from a typed state, at a non-negative time, for every
    answer of the token endpoint that is in the contract (a grant with a
    non-empty string token and an integer lifetime, or a failure), the
    call returns what [abs_get] returns, the new state abstracts to the
    slot [abs_get] leaves, and it is typed again. *)
Theorem getAccessToken_refines_abs_get E d x rep ans w :
  typed (w_globals w) -> (0 <= w_now w)%Z -> reply_of x = Some rep ->
  let '(o, _, w') := run (getAccessToken E) ((d, x) :: ans) w in
  let '(res, c') := abs_get (abs (w_globals w)) (w_now w) rep (w_now w + Z.of_N d) in
  typed (w_globals w') /\ abs (w_globals w') = c' /\ outcome_refines o res.
Proof.
  intros Hty Ht Hrep. unfold abs_get.
  pose proof (cache_hit_abs (w_globals w) (w_now w) Hty Ht) as Hhit.
  destruct (abs_lookup (abs (w_globals w)) (w_now w)) as [s|] eqn:Hl.
  { destruct Hhit as [Hhit Htok]. rewrite run_getAccessToken_hit, Htok by done. done. }
  rewrite run_getAccessToken_miss by done.
  destruct x as [r|e]; cbn in Hrep; cycle 1.
  { simplify_eq. rewrite run_refresh_rejected. refused. }
  destruct (resp_ok r) eqn:Hok; cbn in Hrep;
    [| simplify_eq; rewrite run_refresh_not_ok by done; refused].
  destruct (body r) as [data|] eqn:Hb;
    [| simplify_eq; rewrite run_refresh_not_json by done; refused].
  assert ((data = JNull \/ data = JUndefined) \/ ~ (data = JNull \/ data = JUndefined))
    as [Hnull|Hnull] by (destruct data; naive_solver).
  { assert (rep = Refused) as -> by (destruct Hnull as [-> | ->]; by simplify_eq).
    rewrite (run_refresh_null E d r data) by done. refused. }
  destruct (get_prop data "access_token") as [tok|] eqn:Htok;
    [| by apply get_prop_None in Htok].
  destruct (get_prop data "expires_in") as [ex|] eqn:Hex;
    [| by apply get_prop_None in Hex].
  assert (exists s life, tok = JStr s /\ s <> "" /\ to_number ex = Int life /\ rep = Granted s life)
    as (s & life & -> & Hs & Hlife & ->).
  { destruct data; try (destruct Hnull; by auto); cbn in Htok, Hex, Hrep; simplify_eq;
      repeat (case_match; simplify_eq); eauto 10.
    all: do 2 eexists; split_and!; try done; by apply String.eqb_neq. }
  rewrite (run_refresh_data E d r data (JStr s)) by done. cbn.
  rewrite Hex. cbn. unfold expiry_of. rewrite Hlife. cbn.
  destruct (String.eqb_spec s ""); done.
Qed.

(** ** Sequences of calls *)

(** While a non-empty token is cached with an expiry [x], calls at
    times in [0, x) all return it and change nothing but the clock. *)
Lemma run_calls_hits E s x ts ans w :
  s <> "" -> w_globals w = mkGlobals (JStr s) (JNum (Int x)) ->
  Forall (fun t => 0 <= t < x)%Z ts ->
  (run_calls E ts ans w).1 = (fun _ => Done (JStr s)) <$> ts /\
  w_globals (run_calls E ts ans w).2 = w_globals w /\
  w_sent (run_calls E ts ans w).2 = w_sent w.
Proof.
  intros Hs Hg Hts. revert w Hg; induction Hts as [|t ts Ht Hts IH]; intros w Hg; [done|].
  cbn [run_calls]. rewrite run_getAccessToken_hit; cbn [w_globals w_now].
  - destruct (run_calls E ts ans (mkWorld (w_globals w) t (w_log w) (w_sent w))) as [os w''] eqn:Hr.
    destruct (IH (mkWorld (w_globals w) t (w_log w) (w_sent w)) Hg) as (Hos & Hg' & Hsent).
    rewrite Hr in Hos, Hg', Hsent. cbn in *. split_and!; [by rewrite Hg, Hos | done | done].
  - rewrite Hg. unfold cache_hit; cbn.
    destruct (String.eqb_spec s ""); [done|]. destruct (Z.eqb_spec x 0); [lia|].
    cbn. apply Z.ltb_lt. lia.
Qed.

(** *** C26 *)
(** C26. One fetch per validity window: starting from the initial
    state, a call at [t0] that receives a non-empty token [s] with
    lifetime [e] after [d] ms, followed by any number of calls before
    the stored expiry [t0 + d + (e - 300) s], returns [s] every time,
    and exactly one request was sent, the token request. *)
Theorem single_fetch_until_expiry E t0 d r fs s e ts ans l sent :
  s <> "" -> (0 <= t0)%Z ->
  resp_ok r = true -> body r = Some (JObj fs) ->
  obj_lookup fs "access_token" = JStr s -> obj_lookup fs "expires_in" = JNum (Int e) ->
  Forall (fun t => t0 + Z.of_N d <= t < t0 + Z.of_N d + (e - 300) * 1000)%Z ts ->
  let '(os, w') := run_calls E (t0 :: ts) ((d, Resolved r) :: ans) (mkWorld globals_init t0 l sent) in
  os = Done (JStr s) :: ((fun _ => Done (JStr s)) <$> ts) /\ w_sent w' = sent ++ [token_request E].
Proof.
  intros Hs Ht0 Hok Hb Htok Hex Hts. cbn [run_calls w_globals w_log w_sent].
  rewrite run_getAccessToken_miss by done.
  rewrite (run_refresh_granted E d r fs s e) by done. cbn [recover_with].
  destruct (run_calls_hits E s (t0 + Z.of_N d + (e - 300) * 1000) ts ans
              (granted_world E (mkWorld globals_init t0 l sent) d s e))
    as (Hos & _ & Hsent); [done | done | |].
  { eapply Forall_impl; [exact Hts|]. cbn. lia. }
  destruct (run_calls E ts ans _) as [os w'']. cbn in *. by rewrite Hos, Hsent.
Qed.

(** *** C27 *)
(** C27. A token whose lifetime is at most the 300-second margin is
    never reused: after a call at [t0] that receives it [d] ms later,
    the next call at any [t1 >= t0 + d] sends the token request again. *)
Theorem short_lived_token_refetched E t0 t1 d r fs s e ans l sent :
  (e <= 300)%Z -> (t0 + Z.of_N d <= t1)%Z ->
  resp_ok r = true -> body r = Some (JObj fs) ->
  obj_lookup fs "access_token" = JStr s -> obj_lookup fs "expires_in" = JNum (Int e) ->
  w_sent (run_calls E [t0; t1] ((d, Resolved r) :: ans) (mkWorld globals_init t0 l sent)).2 =
  sent ++ [token_request E; token_request E].
Proof.
  intros He Ht1 Hok Hb Htok Hex. cbn [run_calls w_globals w_log w_sent].
  rewrite run_getAccessToken_miss by done.
  rewrite (run_refresh_granted E d r fs s e) by done. cbn [recover_with].
  set (w1 := mkWorld (w_globals (granted_world E (mkWorld globals_init t0 l sent) d s e)) t1
               (w_log (granted_world E (mkWorld globals_init t0 l sent) d s e))
               (w_sent (granted_world E (mkWorld globals_init t0 l sent) d s e))).
  destruct (refresh_sends_token_request E ans w1) as [Hsent | Hhit].
  - destruct (run (getAccessToken E) ans w1) as [[o ans'] w'']. cbn in *.
    rewrite Hsent. by rewrite <- app_assoc.
  - exfalso. revert Hhit. unfold cache_hit; cbn.
    destruct (String.eqb s ""), (_ =? 0)%Z; cbn; try done.
    intros Hlt%Z.ltb_lt. lia.
Qed.

(** ** Bounds and the safety margin *)

(** The arithmetic of line 47 is exact in doubles: for [Date.now()]
    in [0, 2^50) ms and [expires_in] in [0, 2^31) s, the expiry is the
    integer [t + (e - 300) * 1000] and it, like every intermediate value
    of the expression, lies strictly between [-2^53] and [2^53]. *)
Theorem expiry_exact t e :
  (0 <= t < 2 ^ 50)%Z -> (0 <= e < 2 ^ 31)%Z ->
  expiry_of t (JNum (Int e)) = Int (t + (e - 300) * 1000) /\
  (Z.abs (e - 300) < 2 ^ 53 /\ Z.abs ((e - 300) * 1000) < 2 ^ 53 /\
   Z.abs (t + (e - 300) * 1000) < 2 ^ 53)%Z.
Proof. intros Ht He. split; [done|]. lia. Qed.

(** *** C28 (safety)
    The 300-second margin of line 47 covers the latency of the token
    request, and only that: after a refresh whose request was answered
    [d] ms after it was sent, granting [s] for [expires_in] seconds,
    every later cache hit happens before [expires_in] seconds have
    passed since the request was sent (so the token is still valid at
    the issuer) when [d] is at most 300 000; when the request took
    longer, the cache still serves [s] at that moment, when it has
    expired at the issuer. *)
Theorem margin_covers_latency E d r fs s e ans w :
  cache_hit (w_globals w) (w_now w) = false -> resp_ok r = true -> body r = Some (JObj fs) ->
  obj_lookup fs "access_token" = JStr s -> obj_lookup fs "expires_in" = JNum (Int e) ->
  let g := w_globals (run (getAccessToken E) ((d, Resolved r) :: ans) w).2 in
  ((Z.of_N d <= 300000)%Z -> forall t', cache_hit g t' = true -> (t' < w_now w + e * 1000)%Z) /\
  (s <> "" -> (0 <= w_now w + e * 1000)%Z -> (300000 < Z.of_N d)%Z ->
   cache_hit g (w_now w + e * 1000) = true).
Proof.
  intros Hmiss Hok Hb Htok Hex. cbn zeta.
  rewrite run_getAccessToken_miss, (run_refresh_granted E d r fs s e) by done.
  unfold granted_world, cache_hit, lt_num. cbn [recover_with snd w_globals accessToken tokenExpiry to_number num_lt].
  split.
  - intros Hd t' [_ Ht]%andb_true_iff. apply Z.ltb_lt in Ht. lia.
  - intros Hs Hpos Hd. apply andb_true_iff. split; [apply andb_true_iff; split |].
    + by apply truthy_str.
    + cbn. apply negb_true_iff, Z.eqb_neq. lia.
    + apply Z.ltb_lt. lia.
Qed.

(** ** The log *)

(** *** C29 *)
(** C29. The log never shows more than 50 characters of a token: every
    ["Token starts with:"] line a call writes is the first (at most) 50
    characters of the token then cached, followed by ["..."]. *)
Theorem log_preview_bounded E ans w :
  let '(_, _, w') := run (getAccessToken E) ans w in
  exists added, w_log w' = w_log w ++ added /\
    forall p, In (Info ["Token starts with:"; p]) added ->
      exists s, accessToken (w_globals w') = JStr s /\
                p = (String.substring 0 50 s ++ "...")%string /\ String.length p <= 53.
Proof.
  destruct (cache_hit (w_globals w) (w_now w)) eqn:Hhit.
  { rewrite run_getAccessToken_hit by done. exists []. by rewrite app_nil_r. }
  rewrite run_getAccessToken_miss by done.
  destruct (run_refresh_cases E ans w)
    as [[? ->] | [[? [? [? ->]]] | [[? [? [? [? [_ ->]]]]] | [d [s [ex [? ->]]]]]]]; cbn.
  - exists []. by rewrite app_nil_r.
  - eexists; split; [done|]. by intros p [].
  - eexists; split; [by rewrite <- app_assoc|]. by intros p [|[]].
  - eexists; split; [by rewrite <- app_assoc|].
    intros p [|[Hp|[]]]; [done|]. injection Hp as <-.
    exists s; split_and!; [done | done |].
    rewrite string_app_length, substring_0_length. change (String.length "...") with 3. lia.
Qed.

(** ** Witnesses: the theorems at concrete inputs *)

Lemma getAccessToken_cache_hit_witness :
  run (getAccessToken ∅) [] (mkWorld (mkGlobals (JStr "abc") (JNum (Int 5000))) 1000 [] []) =
  (Done (JStr "abc"), [], mkWorld (mkGlobals (JStr "abc") (JNum (Int 5000))) 1000 [] []).
Proof. apply (getAccessToken_cache_hit ∅); reflexivity. Defined.

Lemma getAccessToken_miss_sends_one_witness :
  w_sent (run (getAccessToken ∅) []
            (mkWorld (mkGlobals (JStr "abc") (JNum (Int 5000))) 6000 [] [])).2
  = [] ++ [token_request ∅].
Proof. apply (getAccessToken_miss_sends_one ∅); reflexivity. Defined.

Lemma getAccessToken_refresh_success_witness :
  run (getAccessToken ∅)
    [(5%N, Resolved (mkResponse 200 (Some (JObj [("access_token", JStr "abc");
                                                  ("expires_in", JNum (Int 3600))]))))]
    (mkWorld globals_init 1000 [] []) =
  (Done (JStr "abc"), [],
   mkWorld (mkGlobals (JStr "abc") (JNum (Int (1000 + 5 + (3600 - 300) * 1000)))) (1000 + 5)
     [Info ["Access token refreshed successfully"]; Info ["Token starts with:"; "abc..."]]
     [token_request ∅]).
Proof.
  rewrite (getAccessToken_refresh_success ∅ 5 _ _ "abc" 3600) by reflexivity. reflexivity.
Defined.

Lemma getAccessToken_failure_keeps_cache_witness :
  exists err,
    run (getAccessToken ∅) [(5%N, Rejected NetworkError)] (mkWorld globals_init 1000 [] []) =
    (Failed err, [], add_log (send (mkWorld globals_init 1000 [] []) (token_request ∅) 5)
                       (ErrorLog "Error getting access token:" err)).
Proof. apply (getAccessToken_failure_keeps_cache ∅ 5 (Rejected NetworkError)); done. Defined.

Lemma non_string_token_poisons_cache_witness :
  exists w',
    run (getAccessToken ∅)
      [(5%N, Resolved (mkResponse 200 (Some (JObj [("access_token", JNum (Int 42));
                                                    ("expires_in", JNum (Int 3600))]))))]
      (mkWorld globals_init 1000 [] []) = (Failed (TypeError "substring"), [], w') /\
    w_globals w' = mkGlobals (JNum (Int 42)) (JNum (Int (1000 + 5 + (3600 - 300) * 1000))) /\
    forall t l sent ans2, (0 <= t < 1000 + 5 + (3600 - 300) * 1000)%Z ->
      run (getAccessToken ∅) ans2 (mkWorld (w_globals w') t l sent) =
      (Done (JNum (Int 42)), ans2, mkWorld (w_globals w') t l sent).
Proof.
  refine (non_string_token_poisons_cache ∅ 5 _
            [("access_token", JNum (Int 42)); ("expires_in", JNum (Int 3600))]
            (JNum (Int 42)) 3600 [] (mkWorld globals_init 1000 [] []) _ _ _ _ _ _ _);
    try reflexivity.
  intros s; discriminate.
Defined.

Lemma getAccessToken_refines_abs_get_witness :
  let '(o, _, w') :=
    run (getAccessToken ∅)
      [(5%N, Resolved (mkResponse 200 (Some (JObj [("access_token", JStr "abc");
                                                    ("expires_in", JNum (Int 3600))]))))]
      (mkWorld globals_init 1000 [] []) in
  let '(res, c') := abs_get (abs globals_init) 1000 (Granted "abc" 3600) (1000 + 5) in
  typed (w_globals w') /\ abs (w_globals w') = c' /\ outcome_refines o res.
Proof.
  apply (getAccessToken_refines_abs_get ∅ 5 _ (Granted "abc" 3600) [] (mkWorld globals_init 1000 [] []));
    cbn; [done | lia | reflexivity].
Defined.

Lemma single_fetch_until_expiry_witness :
  let '(os, w') :=
    run_calls ∅ [1000; 2000; 3000]%Z
      [(5%N, Resolved (mkResponse 200 (Some (JObj [("access_token", JStr "abc");
                                                    ("expires_in", JNum (Int 3600))]))))]
      (mkWorld globals_init 1000 [] []) in
  os = Done (JStr "abc") :: ((fun _ => Done (JStr "abc")) <$> [2000; 3000]%Z) /\
  w_sent w' = [] ++ [token_request ∅].
Proof.
  refine (single_fetch_until_expiry ∅ 1000 5
            (mkResponse 200 (Some (JObj [("access_token", JStr "abc"); ("expires_in", JNum (Int 3600))])))
            [("access_token", JStr "abc"); ("expires_in", JNum (Int 3600))]
            "abc" 3600 [2000; 3000]%Z [] [] [] _ _ _ _ _ _ _); try done.
  repeat constructor; cbn; lia.
Defined.

Lemma short_lived_token_refetched_witness :
  w_sent (run_calls ∅ [1000; 2000]%Z
            [(5%N, Resolved (mkResponse 200 (Some (JObj [("access_token", JStr "abc");
                                                          ("expires_in", JNum (Int 200))]))))]
            (mkWorld globals_init 1000 [] [])).2 =
  [] ++ [token_request ∅; token_request ∅].
Proof.
  refine (short_lived_token_refetched ∅ 1000 2000 5
            (mkResponse 200 (Some (JObj [("access_token", JStr "abc"); ("expires_in", JNum (Int 200))])))
            [("access_token", JStr "abc"); ("expires_in", JNum (Int 200))] "abc" 200 [] [] []
            _ _ _ _ _ _); try done; cbn; lia.
Defined.

Lemma expiry_exact_witness :
  expiry_of 1700000000000 (JNum (Int 3600)) = Int (1700000000000 + (3600 - 300) * 1000) /\
  (Z.abs (3600 - 300) < 2 ^ 53 /\ Z.abs ((3600 - 300) * 1000) < 2 ^ 53 /\
   Z.abs (1700000000000 + (3600 - 300) * 1000) < 2 ^ 53)%Z.
Proof. apply expiry_exact; lia. Defined.

Lemma margin_covers_latency_witness :
  let r := mkResponse 200 (Some (JObj [("access_token", JStr "tok"); ("expires_in", JNum (Int 3600))])) in
  let w := mkWorld globals_init 1000 [] [] in
  let g := w_globals (run (getAccessToken ∅) [(400000%N, Resolved r)] w).2 in
  cache_hit (w_globals w) (w_now w) = false /\
  ((Z.of_N 400000 <= 300000)%Z -> forall t', cache_hit g t' = true -> (t' < 1000 + 3600 * 1000)%Z) /\
  ("tok" <> "" -> (0 <= 1000 + 3600 * 1000)%Z -> (300000 < Z.of_N 400000)%Z ->
   cache_hit g (1000 + 3600 * 1000) = true).
Proof.
  intros r w g. split; [reflexivity |].
  exact (margin_covers_latency ∅ 400000 r _ "tok" 3600 [] w eq_refl eq_refl eq_refl eq_refl eq_refl).
Defined.

End TokenCache.
