(* ===== verification/Uri.v ===== *)
(** [encodeURIComponent], which the logo handler applies to the domain
    (line 133 of [src/server.js]), and its inverse
    [decodeURIComponent], which Express applies to the path segment
    before the handler sees it as [req.params.domain].

    A Rocq [string] is read as a JavaScript string whose code units are
    below 256 (U+0000 to U+00FF).  [encodeURIComponent] writes each
    character as its UTF-8 bytes: the unreserved ASCII characters
    [A-Z a-z 0-9 - _ . ! ~ * ' ( )] stay, every other byte becomes
    [%XX] with upper-case hex digits; U+0080 to U+00FF take two bytes. *)

From S2P Require Import Prelude.

Module Uri.

(** ** Encoding *)

Definition is_unreserved (c : ascii) : bool :=
  let n := nat_of_ascii c in
  ((65 <=? n) && (n <=? 90)) || ((97 <=? n) && (n <=? 122)) || ((48 <=? n) && (n <=? 57))
  || bool_decide (n ∈ [45; 95; 46; 33; 126; 42; 39; 40; 41]).

(** The hex digit of [0 <= n < 16], upper case. *)
Definition hex_digit (n : nat) : ascii :=
  if n <? 10 then ascii_of_nat (48 + n) else ascii_of_nat (55 + n).

(** [%XX] for a byte. *)
Definition pct (b : nat) : string :=
  String "%" (String (hex_digit (b / 16)) (String (hex_digit (b mod 16)) EmptyString)).

(** The UTF-8 bytes of a code point below 256. *)
Definition utf8_bytes (n : nat) : list nat :=
  if n <? 128 then [n] else [192 + n / 64; 128 + n mod 64].

Definition encode_char (c : ascii) : string :=
  if is_unreserved c then String c EmptyString
  else String.concat "" (pct <$> utf8_bytes (nat_of_ascii c)).

Fixpoint encodeURIComponent (s : string) : string :=
  match s with
  | EmptyString => EmptyString
  | String c s' => (encode_char c ++ encodeURIComponent s')%string
  end.

(** ** Decoding *)

Definition hex_value (c : ascii) : option nat :=
  let n := nat_of_ascii c in
  if (48 <=? n) && (n <=? 57) then Some (n - 48)
  else if (65 <=? n) && (n <=? 70) then Some (n - 55)
  else if (97 <=? n) && (n <=? 102) then Some (n - 87)
  else None.

Definition hex_byte (h l : ascii) : option nat :=
  match hex_value h, hex_value l with
  | Some x, Some y => Some (16 * x + y)
  | _, _ => None
  end.

(** [decodeURIComponent] on the strings of the model: an escape that
    is not two hex digits, or UTF-8 that is malformed or encodes a code
    point above U+00FF, is refused ([None], a URIError or a string
    outside the model). *)
Fixpoint decodeURIComponent (s : string) : option string :=
  match s with
  | EmptyString => Some EmptyString
  | String "%" (String h (String l rest)) =>
      match hex_byte h l with
      | None => None
      | Some b =>
          if b <? 128 then String (ascii_of_nat b) <$> decodeURIComponent rest
          else if (194 <=? b) && (b <=? 195) then
            match rest with
            | String "%" (String h2 (String l2 rest')) =>
                match hex_byte h2 l2 with
                | Some b2 =>
                    if (128 <=? b2) && (b2 <=? 191)
                    then String (ascii_of_nat ((b - 192) * 64 + (b2 - 128))) <$>
                           decodeURIComponent rest'
                    else None
                | None => None
                end
            | _ => None
            end
          else None
      end
  | String "%" _ => None
  | String c rest => String c <$> decodeURIComponent rest
  end.

(** The characters that end or split a query parameter, or a path
    segment. *)
Definition query_delimiters : list ascii := ["&"; "="; "#"; "+"; " "; "/"; "?"]%char.

Definition no_delimiter (c : ascii) : bool := negb (bool_decide (c ∈ query_delimiters)).

Fixpoint string_forall (f : ascii -> bool) (s : string) : bool :=
  match s with EmptyString => true | String c s' => f c && string_forall f s' end.

(** ** Per-character facts, by computation over the 256 characters *)

Lemma decode_encode_char (c : ascii) (t : string) :
  decodeURIComponent (encode_char c ++ t) = String c <$> decodeURIComponent t.
Proof. destruct c as [[] [] [] [] [] [] [] []]; reflexivity. Qed.

Lemma encode_char_no_delimiter (c : ascii) : string_forall no_delimiter (encode_char c) = true.
Proof. destruct c as [[] [] [] [] [] [] [] []]; reflexivity. Qed.

Lemma string_forall_app (f : ascii -> bool) (s t : string) :
  string_forall f (s ++ t) = string_forall f s && string_forall f t.
Proof. induction s as [|c s IH]; simpl; [done | by rewrite IH, andb_assoc]. Qed.

(** *** Round trip *)
(** Decoding an encoded component gives the component back. *)
Theorem decode_encodeURIComponent (s : string) :
  decodeURIComponent (encodeURIComponent s) = Some s.
Proof. induction s as [|c s IH]; [done|]. simpl. by rewrite decode_encode_char, IH. Qed.

(** *** Safety *)
(** An encoded component contains none of the characters that would end
    the [q] parameter or start another one: [&], [=], [#], [+], a space,
    [/] or [?]. *)
Theorem encodeURIComponent_no_delimiter (s : string) :
  string_forall no_delimiter (encodeURIComponent s) = true.
Proof.
  induction s as [|c s IH]; [done|]. simpl.
  by rewrite string_forall_app, encode_char_no_delimiter, IH.
Qed.

End Uri.
