(* ===== verification/Handlers.v ===== *)
(** The JSON route handlers of [src/server.js]: [GET /api/users] and
    [GET /api/companies] (lines 69-115), [GET /api/config] (lines
    121-125) and [GET /api/logo/:domain] (lines 128-154).

    The two partner handlers get their token through the interface
    [TokenSource]: a program that yields a token and sends at most one
    request of its own.  Their theorems are proved for every token
    source; [getAccessToken] is the instance the server uses. *)

From S2P Require Import Prelude JsValue Prog TokenCache Uri.
Import Js Prog TokenCache Uri.

Module Handlers.

(** ** Answers *)

(** What a handler answers: [res.status(n).json(v)], or [res.json(v)]
    with the status 200. *)
Record res := mkRes { res_status : Z; res_json : jsval }.

Definition error_body (msg : string) : jsval := JObj [("error", JStr msg)].

(** ** The interface between the handlers and the token cache *)

(** What the partner handlers need from the cache: a program that
    yields a token (or fails, or hangs) and sends at most one request
    of its own. *)
Class TokenSource := {
  get_token : prog jsval;
  get_token_one_request : forall ans w,
    length (w_sent (run get_token ans w).2) <= S (length (w_sent w))
}.

(** ** Partner handlers (lines 69-115) *)

(** [fetch(`${process.env.FORTIUM_API_URL}${path}`, {headers: ...})]. *)
Definition partner_request (E : gmap string string) (path : string) (token : jsval) : request :=
  mkRequest "GET" (to_string (env_get E "FORTIUM_API_URL") ++ path)%string
    [("Authorization", "Bearer " ++ to_string token)%string;
     ("Content-Type", "application/json")] None.

(** The body shared by the two partner handlers: [path] is the upstream
    resource, [label] the [console.error] label, [msg] the error the
    client sees. *)
Definition partner_get `{TokenSource} (E : gmap string string)
    (path label msg : string) : prog res :=
  catch
    (token ← await_promise get_token;
     import_fetch;;
     response ← fetch (partner_request E path token);
     if negb (resp_ok response)
     then Throw (Error ("API responded with status: " ++ pretty (status response))%string)
     else
       data ← json response;
       mret (mkRes 200 data))
    (fun err => log (ErrorLog label err);; mret (mkRes 500 (error_body msg))).

Definition api_users `{TokenSource} (E : gmap string string) : prog res :=
  partner_get E "/api/users" "Error fetching users:" "Failed to fetch users".

Definition api_companies `{TokenSource} (E : gmap string string) : prog res :=
  partner_get E "/api/companies" "Error fetching companies:" "Failed to fetch companies".

(** ** Config handler (lines 121-125) *)

(** [{ logodevToken: process.env.LOGODEV_TOKEN || 'pk_demo_token' }]. *)
Definition api_config (E : gmap string string) : res :=
  let v := env_get E "LOGODEV_TOKEN" in
  mkRes 200 (JObj [("logodevToken", if truthy v then v else JStr "pk_demo_token")]).

(** ** Logo handler (lines 128-154) *)

Definition logo_search_url : string := "https://api.logo.dev/search?q=".

(** The upstream request: the domain is encoded, and the header is
    written [Bearer: <token>], with a colon. *)
Definition logo_request (E : gmap string string) (domain : string) : request :=
  mkRequest "GET" (logo_search_url ++ encodeURIComponent domain)%string
    [("Authorization", "Bearer: " ++ to_string (env_get E "LOGODEV_SEARCH_TOKEN"))%string]
    None.

Definition logo_not_found : res := mkRes 404 (error_body "Logo not found").

Definition api_logo (E : gmap string string) (domain : string) : prog res :=
  catch
    (import_fetch;;
     response ← fetch (logo_request E domain);
     if negb (resp_ok response) then mret logo_not_found
     else
       results ← json response;
       len ← js_op "length" (get_prop results "length");
       if strict_eq_int len 0 then mret logo_not_found
       else
         first ← js_op "0" (get_prop results "0");
         url ← js_op "logo_url" (get_prop first "logo_url");
         mret (mkRes 200 (JObj [("logoUrl", url)])))
    (fun err => log (ErrorLog "Error fetching logo:" err);;
                mret (mkRes 500 (error_body "Failed to fetch logo"))).

(** ** The cache is a token source *)

Lemma getAccessToken_one_request E ans w :
  length (w_sent (run (getAccessToken E) ans w).2) <= S (length (w_sent w)).
Proof.
  destruct (refresh_sends_token_request E ans w) as [-> | Hhit].
  - rewrite length_app. cbn. lia.
  - rewrite run_getAccessToken_hit by done. cbn. lia.
Qed.

#[export] Instance cache_token_source (E : gmap string string) : TokenSource :=
  {| get_token := getAccessToken E; get_token_one_request := getAccessToken_one_request E |}.

(** ** The partner handlers, for every token source *)

Section Partner.
Context `{TS : TokenSource} (E : gmap string string) (path label msg : string).

Lemma run_partner_get ans w :
  run (partner_get E path label msg) ans w =
  recover_with (fun err ans' w' => (Done (mkRes 500 (error_body msg)), ans', add_log w' (ErrorLog label err)))
    (continue_with
       (fun token ans1 w1 =>
          match ans1 with
          | [] => (Hung, [], send w1 (partner_request E path token) 0)
          | (d, Rejected e) :: ans2 => (Failed e, ans2, send w1 (partner_request E path token) d)
          | (d, Resolved r) :: ans2 =>
              if negb (resp_ok r)
              then (Failed (Error ("API responded with status: " ++ pretty (status r))%string),
                    ans2, send w1 (partner_request E path token) d)
              else match body r with
                   | Some v => (Done (mkRes 200 v), ans2, send w1 (partner_request E path token) d)
                   | None => (Failed SyntaxError, ans2, send w1 (partner_request E path token) d)
                   end
          end)
       (run get_token ans w)).
Proof.
  unfold partner_get. rewrite run_catch. unfold mbind, prog_bind, mret, prog_ret.
  rewrite run_bind, run_await_promise.
  destruct (run get_token ans w) as [[[tok| e |] ans1] w1]; cbn; [|done|done].
  destruct ans1 as [|[d [r|e]] ans2]; cbn; try done.
  destruct (resp_ok r); cbn; [|done]. by destruct (body r).
Qed.

(** The partner handler lets no exception escape, and answers 200 or
    the fixed 500 answer. *)
Lemma partner_get_post :
  post (fun r => res_status r = 200%Z \/ r = mkRes 500 (error_body msg)) (fun _ => False)
    (partner_get E path label msg).
Proof.
  unfold partner_get, mbind, prog_bind, mret, prog_ret.
  apply (post_catch _ _ (fun _ => True)).
  - eapply post_bind; [apply post_trivial | intros tok _].
    eapply post_bind; [apply post_trivial | intros [] _].
    eapply post_bind; [apply post_trivial | intros response _].
    destruct (negb (resp_ok response)); [by constructor |].
    eapply post_bind; [apply post_trivial | intros data _]. constructor. by left.
  - intros err _. apply (post_bind (fun _ => True)); [by repeat constructor | intros [] _].
    constructor. by right.
Qed.

(** *** C12 *)
(** C12. A partner handler relays the upstream body: when the token
    source yields [tok] and the upstream answers 2xx with the JSON value
    [v], the handler answers 200 with [v] itself, after exactly one
    request to [FORTIUM_API_URL + path] carrying [Bearer <tok>]. *)
Theorem partner_get_relays_body ans w tok w1 d r v ans2 :
  run get_token ans w = (Done tok, (d, Resolved r) :: ans2, w1) ->
  resp_ok r = true -> body r = Some v ->
  run (partner_get E path label msg) ans w =
  (Done (mkRes 200 v), ans2, send w1 (partner_request E path tok) d).
Proof. intros Htok Hok Hb. rewrite run_partner_get, Htok. cbn. by rewrite Hok, Hb. Qed.

(** *** C14 *)
(** C14. A partner handler always answers: no exception escapes it, and
    every answer is either a 200 or exactly the 500 answer
    [{error: msg}], which carries nothing of the upstream response. *)
Theorem partner_get_always_answers ans w :
  match (run (partner_get E path label msg) ans w).1.1 with
  | Failed _ => False
  | Done r => res_status r = 200%Z \/ r = mkRes 500 (error_body msg)
  | Hung => True
  end.
Proof. exact (post_run _ _ _ ans w partner_get_post). Qed.

(** *** C15 *)
(** C15. A partner request sends at most two upstream requests: at most
    one for the token (the law of [TokenSource]) and one for the
    resource. *)
Theorem partner_get_at_most_two_requests ans w :
  length (w_sent (run (partner_get E path label msg) ans w).2) <= length (w_sent w) + 2.
Proof.
  pose proof (get_token_one_request ans w) as Hone.
  rewrite run_partner_get.
  destruct (run get_token ans w) as [[[tok| e |] ans1] w1]; cbn in Hone |- *; try lia.
  destruct ans1 as [|[d [r|e]] ans2]; cbn; rewrite ?length_app; cbn; try lia.
  destruct (resp_ok r); cbn; [destruct (body r)|]; cbn; rewrite ?length_app; cbn; lia.
Qed.

End Partner.

(** [/api/users] on an upstream error: when the token is obtained
    and the upstream answers a non-2xx status, the handler answers
    exactly 500 [{"error": "Failed to fetch users"}] and logs the
    status. *)
Theorem api_users_upstream_error `{TokenSource} E ans w tok w1 d r ans2 :
  run get_token ans w = (Done tok, (d, Resolved r) :: ans2, w1) ->
  resp_ok r = false ->
  run (api_users E) ans w =
  (Done (mkRes 500 (JObj [("error", JStr "Failed to fetch users")])), ans2,
   add_log (send w1 (partner_request E "/api/users" tok) d)
     (ErrorLog "Error fetching users:"
        (Error ("API responded with status: " ++ pretty (status r))%string))).
Proof. intros Htok Hok. unfold api_users. rewrite run_partner_get, Htok. cbn. by rewrite Hok. Qed.


(** ** The partner handlers with the cache *)

(** *** C16 *)
(** C16. With the token cache as the token source, a request to
    [/api/users] served while the cached token is valid sends exactly
    one request: the users request, carrying [Bearer] and the cached
    token. *)
Theorem api_users_cache_hit_one_request E ans w :
  cache_hit (w_globals w) (w_now w) = true ->
  w_sent (run (@api_users (cache_token_source E) E) ans w).2 =
  w_sent w ++ [partner_request E "/api/users" (accessToken (w_globals w))].
Proof.
  intros Hhit. unfold api_users. rewrite run_partner_get. cbn [get_token cache_token_source].
  rewrite run_getAccessToken_hit by done. cbn.
  destruct ans as [|[d [r|e]] ans]; cbn; try done.
  destruct (resp_ok r); cbn; [destruct (body r)|]; done.
Qed.

(** ** The logo and config handlers *)

(** *** C17 *)
(** C17. The answers of [/api/logo/:domain], branch by branch: a
    rejected fetch answers 500 [{error: "Failed to fetch logo"}]; a
    non-2xx status answers 404 [{error: "Logo not found"}]; an empty
    array answers 404 the same; an array whose first element is an
    object answers 200 with that object's [logo_url] (which is
    [undefined] when the field is missing); a 2xx body that is not JSON
    answers 500.  Each sends exactly the logo request. *)
Theorem api_logo_branches E domain d ans w :
  let w1 := send w (logo_request E domain) d in
  (forall e, run (api_logo E domain) ((d, Rejected e) :: ans) w =
     (Done (mkRes 500 (error_body "Failed to fetch logo")), ans,
      add_log w1 (ErrorLog "Error fetching logo:" e))) /\
  (forall r, resp_ok r = false ->
     run (api_logo E domain) ((d, Resolved r) :: ans) w = (Done logo_not_found, ans, w1)) /\
  (forall r, resp_ok r = true -> body r = Some (JArr []) ->
     run (api_logo E domain) ((d, Resolved r) :: ans) w = (Done logo_not_found, ans, w1)) /\
  (forall r fs rest, resp_ok r = true -> body r = Some (JArr (JObj fs :: rest)) ->
     run (api_logo E domain) ((d, Resolved r) :: ans) w =
     (Done (mkRes 200 (JObj [("logoUrl", obj_lookup fs "logo_url")])), ans, w1)) /\
  (forall r, resp_ok r = true -> body r = None ->
     run (api_logo E domain) ((d, Resolved r) :: ans) w =
     (Done (mkRes 500 (error_body "Failed to fetch logo")), ans,
      add_log w1 (ErrorLog "Error fetching logo:" SyntaxError))).
Proof.
  split_and!; intros *; try intros Hok; try intros Hb; cbn; rewrite ?Hok, ?Hb; done.
Qed.

(** The logo handler lets no exception escape; its 200 answer is the
    object [{logoUrl: u}], its other answers the fixed 404 and 500. *)
Lemma api_logo_post E domain :
  post (fun r => (exists u, mkRes 200 (JObj [("logoUrl", u)]) = r) \/ r = logo_not_found \/
                 r = mkRes 500 (error_body "Failed to fetch logo")) (fun _ => False)
    (api_logo E domain).
Proof.
  unfold api_logo, mbind, prog_bind, mret, prog_ret.
  apply (post_catch _ _ (fun _ => True)).
  - eapply post_bind; [apply post_trivial | intros [] _].
    eapply post_bind; [apply post_trivial | intros response _].
    destruct (negb (resp_ok response)); [constructor; by right; left |].
    eapply post_bind; [apply post_trivial | intros results _].
    eapply post_bind; [apply post_trivial | intros len _].
    destruct (strict_eq_int len 0); [constructor; by right; left |].
    eapply post_bind; [apply post_trivial | intros first _].
    eapply post_bind; [apply post_trivial | intros url _]. constructor. left. by exists url.
  - intros err _. apply (post_bind (fun _ => True)); [by repeat constructor | intros [] _].
    constructor. by right; right.
Qed.

(** *** C18 *)
(** C18. The logo handler always answers: no exception escapes it, and
    every answer is a 200, exactly the 404 [{error: "Logo not found"}]
    or exactly the 500 [{error: "Failed to fetch logo"}]. *)
Theorem api_logo_always_answers E domain ans w :
  match (run (api_logo E domain) ans w).1.1 with
  | Failed _ => False
  | Done r => res_status r = 200%Z \/ r = logo_not_found \/
              r = mkRes 500 (error_body "Failed to fetch logo")
  | Hung => True
  end.
Proof.
  refine (post_run _ _ _ ans w (post_weaken _ _ _ _ _ (api_logo_post E domain) _ (fun _ H => H))).
  intros r [(u & <-)|Hr]; [by left | by right].
Qed.

(** *** C19 *)
(** C19. The logo handler sends exactly one request, whatever the
    network answers; its [q] parameter is the domain encoded: it decodes
    back to the domain and holds no character that would end the
    parameter or start another one; and its only header is
    [Authorization: Bearer: <LOGODEV_SEARCH_TOKEN>], with a colon. *)
Theorem api_logo_sends_encoded_domain E domain ans w :
  w_sent (run (api_logo E domain) ans w).2 = w_sent w ++ [logo_request E domain] /\
  (exists q, req_url (logo_request E domain) = (logo_search_url ++ q)%string /\
             decodeURIComponent q = Some domain /\ string_forall no_delimiter q = true) /\
  req_headers (logo_request E domain) =
    [("Authorization", "Bearer: " ++ to_string (env_get E "LOGODEV_SEARCH_TOKEN"))%string].
Proof.
  split_and!; [| | done].
  - destruct ans as [|[d [r|e]] ans]; cbn; try done.
    destruct (resp_ok r); cbn; [|done].
    destruct (body r); cbn; unfold js_op; repeat (case_match; cbn); done.
  - exists (encodeURIComponent domain).
    split_and!; [done | apply decode_encodeURIComponent | apply encodeURIComponent_no_delimiter].
Qed.

(** [/api/config] answers 200 with [logodevToken] set to the
    environment's [LOGODEV_TOKEN] when it is set and non-empty, and to
    ["pk_demo_token"] otherwise (an empty value is falsy for [||]). *)
Theorem api_config_token E :
  api_config E =
  mkRes 200 (JObj [("logodevToken",
                    JStr (match E !! "LOGODEV_TOKEN" with
                          | Some s => if String.eqb s "" then "pk_demo_token" else s
                          | None => "pk_demo_token"
                          end))]).
Proof.
  unfold api_config, env_get. destruct (E !! "LOGODEV_TOKEN") as [s|]; cbn; [|done].
  by destruct (String.eqb s "").
Qed.

(** ** Witnesses: the theorems at concrete inputs *)

Lemma partner_get_relays_body_witness :
  run (@partner_get (cache_token_source ∅) ∅ "/api/users" "Error fetching users:" "Failed to fetch users")
    [(3%N, Resolved (mkResponse 200 (Some (JArr [JObj [("name", JStr "Ada")]]))))]
    (mkWorld (mkGlobals (JStr "abc") (JNum (Int 5000))) 1000 [] []) =
  (Done (mkRes 200 (JArr [JObj [("name", JStr "Ada")]])), [],
   send (mkWorld (mkGlobals (JStr "abc") (JNum (Int 5000))) 1000 [] [])
     (partner_request ∅ "/api/users" (JStr "abc")) 3).
Proof.
  refine (partner_get_relays_body (TS := cache_token_source ∅) ∅ _ _ _ _ _ (JStr "abc") _ 3
            (mkResponse 200 (Some (JArr [JObj [("name", JStr "Ada")]]))) _ [] _ _ _);
    reflexivity.
Defined.

Lemma api_users_upstream_error_witness :
  run (@api_users (cache_token_source ∅) ∅)
    [(3%N, Resolved (mkResponse 503 None))]
    (mkWorld (mkGlobals (JStr "abc") (JNum (Int 5000))) 1000 [] []) =
  (Done (mkRes 500 (JObj [("error", JStr "Failed to fetch users")])), [],
   add_log (send (mkWorld (mkGlobals (JStr "abc") (JNum (Int 5000))) 1000 [] [])
              (partner_request ∅ "/api/users" (JStr "abc")) 3)
     (ErrorLog "Error fetching users:"
        (Error ("API responded with status: " ++ pretty 503%Z)%string))).
Proof.
  refine (api_users_upstream_error (H := cache_token_source ∅) ∅ _ _ (JStr "abc") _ 3
            (mkResponse 503 None) [] _ _); reflexivity.
Defined.

Lemma api_users_cache_hit_one_request_witness :
  w_sent (run (@api_users (cache_token_source ∅) ∅) []
            (mkWorld (mkGlobals (JStr "abc") (JNum (Int 5000))) 1000 [] [])).2 =
  [] ++ [partner_request ∅ "/api/users" (JStr "abc")].
Proof. apply (api_users_cache_hit_one_request ∅); reflexivity. Defined.

Lemma api_logo_branches_witness :
  run (api_logo ∅ "unknown-domain") [(4%N, Resolved (mkResponse 200 (Some (JArr []))))]
    (mkWorld globals_init 1000 [] []) =
  (Done (mkRes 404 (JObj [("error", JStr "Logo not found")])), [],
   send (mkWorld globals_init 1000 [] []) (logo_request ∅ "unknown-domain") 4).
Proof.
  destruct (api_logo_branches ∅ "unknown-domain" 4 [] (mkWorld globals_init 1000 [] []))
    as (_ & _ & Hempty & _).
  apply Hempty; reflexivity.
Defined.

End Handlers.
