(* ===== verification/EventLoop.v ===== *)
(** The event loop of the Node process running [src/server.js]: several
    requests in flight at once, interleaved at their [await]s.

    A task is a handler program.  The loop picks a runnable task and runs
    its synchronous segment, up to its next [await] or its end, without
    interruption ([segment]); a task suspended on [fetch] waits until the
    network answers it, in any order; the clock advances between steps;
    new requests arrive at any time.  The configuration keeps, besides
    the code's state, the number of segments run so far and, for each of
    the two module variables, the segment that wrote it last. *)

From S2P Require Import Prelude JsValue Prog TokenCache Uri Handlers.
Import Js Prog TokenCache Handlers.

Module EventLoop.

(** ** Synchronous segments *)

(** Run a program up to its next [await] ([Yield], [Fetch]) or its end
    ([Ret], [Throw]) with the clock fixed: the rest of the program, the
    state, the log lines and the variables assigned on the way. *)
Fixpoint segment {A} (p : prog A) (g : globals) (t : Z)
  : prog A * globals * list log_line * list var :=
  match p with
  | Now k => segment (k t) g t
  | GetG k => segment (k g) g t
  | SetVar x v k =>
      let '(q, g', l, ws) := segment k (set_var g x v) t in (q, g', l, x :: ws)
  | Log m k =>
      let '(q, g', l, ws) := segment k g t in (q, g', m :: l, ws)
  | _ => (p, g, [], [])
  end.

(** A segment assigns both variables or neither. *)
Definition paired (ws : list var) : Prop := VAccessToken ∈ ws <-> VTokenExpiry ∈ ws.

(** [q] is where [p] resumes after the [await] its segment stops at. *)
Definition resumes {A} (p q : prog A) : Prop :=
  exists g t g' l ws,
    segment p g t = (Yield q, g', l, ws) \/
    exists r k x, segment p g t = (Fetch r k, g', l, ws) /\ q = k x.

(** The request a segment sends, if it stops at a [fetch]. *)
Definition fetched {A} (q : prog A) : option request :=
  match q with Fetch r _ => Some r | _ => None end.

Section Keeps.
Context {A : Type} (R : request -> Prop).

(** [keeps p]: every segment of [p], and of every program it resumes
    as, assigns both variables or neither and sends only requests
    satisfying [R]. *)
Inductive keeps : prog A -> Prop :=
| keeps_intro (p : prog A) :
    (forall g t, paired (segment p g t).2) ->
    (forall g t r, fetched (segment p g t).1.1.1 = Some r -> R r) ->
    (forall q, resumes p q -> keeps q) ->
    keeps p.

End Keeps.

(** ** Tasks and configurations *)

Inductive task :=
| Ready (p : prog res)
| Waiting (r : request) (k : fetch_result -> prog res)
| Finished (o : outcome res).

(** What a task becomes at the end of a segment. *)
Definition after (q : prog res) : task :=
  match q with
  | Ret a => Finished (Done a)
  | Throw e => Finished (Failed e)
  | Yield k => Ready k
  | Fetch r k => Waiting r k
  | _ => Ready q
  end.

Record config := mkConfig {
  c_globals : globals;
  c_now : Z;
  c_log : list log_line;
  c_sent : list request;
  c_tasks : list task;
  c_segments : nat;
  c_tag_token : nat;    (** the segment that last assigned [accessToken] *)
  c_tag_expiry : nat }. (** the segment that last assigned [tokenExpiry] *)

Definition config_init (t0 : Z) : config := mkConfig globals_init t0 [] [] [] 0 0 0.

(** Run the segment of the task [i], which is [Ready p]. *)
Definition run_segment (c : config) (i : nat) (p : prog res) : config :=
  let '(q, g', l, ws) := segment p (c_globals c) (c_now c) in
  let n := S (c_segments c) in
  mkConfig g' (c_now c) (c_log c ++ l) (c_sent c ++ option_list (fetched q))
    (<[i := after q]> (c_tasks c)) n
    (if bool_decide (VAccessToken ∈ ws) then n else c_tag_token c)
    (if bool_decide (VTokenExpiry ∈ ws) then n else c_tag_expiry c).

Definition with_tasks (c : config) (ts : list task) : config :=
  mkConfig (c_globals c) (c_now c) (c_log c) (c_sent c) ts
    (c_segments c) (c_tag_token c) (c_tag_expiry c).

Definition with_now (c : config) (t : Z) : config :=
  mkConfig (c_globals c) t (c_log c) (c_sent c) (c_tasks c)
    (c_segments c) (c_tag_token c) (c_tag_expiry c).

(** A scheduler's moves, as functions: run the segment of task [i] if
    it is ready, answer its request with [x] if it is waiting. *)
Definition run_ready (c : config) (i : nat) : config :=
  match c_tasks c !! i with Some (Ready p) => run_segment c i p | _ => c end.

Definition answer_task (c : config) (i : nat) (x : fetch_result) : config :=
  match c_tasks c !! i with
  | Some (Waiting r k) => with_tasks c (<[i := Ready (k x)]> (c_tasks c))
  | _ => c
  end.

Definition arrive (c : config) (p : prog res) : config := with_tasks c (c_tasks c ++ [Ready p]).

(** The handlers of the API routes (lines 69-154): the two partner
    routes, with the cache as token source, the config route, which
    answers without an [await], and the logo route with any domain. *)
Inductive route (E : gmap string string) : prog res -> Prop :=
| route_users : route E (@api_users (cache_token_source E) E)
| route_companies : route E (@api_companies (cache_token_source E) E)
| route_config : route E (Ret (api_config E))
| route_logo domain : route E (api_logo E domain).

Inductive step (E : gmap string string) : config -> config -> Prop :=
| step_arrive c p :
    route E p -> step E c (arrive c p)
| step_run c i p :
    c_tasks c !! i = Some (Ready p) -> step E c (run_segment c i p)
| step_answer c i r k x :
    c_tasks c !! i = Some (Waiting r k) ->
    step E c (with_tasks c (<[i := Ready (k x)]> (c_tasks c)))
| step_tick c d :
    (0 <= d)%Z -> step E c (with_now c (c_now c + d)).

Definition reachable (E : gmap string string) (t0 : Z) (c : config) : Prop :=
  rtc (step E) (config_init t0) c.

(** The requests the server may send, described by their fields as the
    spec describes them (sections 4.1-4.3), not by the functions that
    build them: the client-credentials [POST] to the token endpoint,
    carrying the client's id, secret and audience as JSON; a [GET] of
    one of the two partner resources with a bearer token; a [GET] of the
    logo search. *)
Definition token_exchange (E : gmap string string) (r : request) : Prop :=
  req_method r = "POST" /\ req_url r = to_string (env_get E "FORTIUM_TOKEN_ENDPOINT") /\
  In ("Content-Type", "application/json") (req_headers r) /\
  exists fs, req_body r = Some (JObj fs) /\
    obj_lookup fs "grant_type" = JStr "client_credentials" /\
    obj_lookup fs "client_id" = env_get E "FORTIUM_CLIENT_ID" /\
    obj_lookup fs "client_secret" = env_get E "FORTIUM_CLIENT_SECRET" /\
    obj_lookup fs "audience" = env_get E "FORTIUM_AUDIENCE".

Definition partner_read_at (E : gmap string string) (path : string) (r : request) : Prop :=
  req_method r = "GET" /\ req_body r = None /\
  req_url r = (to_string (env_get E "FORTIUM_API_URL") ++ path)%string /\
  exists tok, In ("Authorization", "Bearer " ++ tok)%string (req_headers r).

Definition partner_read (E : gmap string string) (r : request) : Prop :=
  exists path, (path = "/api/users" \/ path = "/api/companies") /\ partner_read_at E path r.

Definition logo_search (r : request) : Prop :=
  req_method r = "GET" /\ req_body r = None /\
  exists q, req_url r = ("https://api.logo.dev/search?q=" ++ q)%string.

Definition allowed_request (E : gmap string string) (r : request) : Prop :=
  token_exchange E r \/ partner_read E r \/ logo_search r.

(** What a task still has to do keeps the invariant. *)
Definition task_ok (E : gmap string string) (tk : task) : Prop :=
  match tk with
  | Ready p => keeps (allowed_request E) p
  | Waiting _ k => forall x, keeps (allowed_request E) (k x)
  | Finished _ => True
  end.

(** The invariant of the loop: the two variables were last written by
    the same segment, every request sent is one the code may send, and
    every task keeps the invariant. *)
Definition loop_inv (E : gmap string string) (c : config) : Prop :=
  c_tag_token c = c_tag_expiry c /\ Forall (allowed_request E) (c_sent c) /\
  Forall (task_ok E) (c_tasks c).

(** ** Two requests on a cold cache *)

Definition is_ready (c : config) (i : nat) : bool :=
  match c_tasks c !! i with Some (Ready _) => true | _ => false end.

Definition is_waiting (c : config) (i : nat) : bool :=
  match c_tasks c !! i with Some (Waiting _ _) => true | _ => false end.

Definition users_cached (E : gmap string string) : prog res :=
  @api_users (cache_token_source E) E.

(** Two [GET /api/users] arrive at [t0]; each runs up to its [fetch] of
    a token. *)
Definition race_config (E : gmap string string) (t0 : Z) : config :=
  let c := arrive (arrive (config_init t0) (users_cached E)) (users_cached E) in
  run_ready (run_ready (run_ready (run_ready c 0) 0) 1) 1.

(** A token endpoint's answer granting [tok] for [expires_in] seconds. *)
Definition token_answer (tok : string) (expires_in : Z) : fetch_result :=
  Resolved (mkResponse 200 (Some (JObj [("access_token", JStr tok);
                                        ("expires_in", JNum (Int expires_in))]))).

(** The second request's refresh completes first, with [a], and the
    first one's afterwards, with [b]. *)
Definition race_finish (E : gmap string string) (t0 : Z) (a : string) (ea : Z)
    (b : string) (eb : Z) : config :=
  let c := run_ready (run_ready (answer_task (race_config E t0) 1 (token_answer a ea)) 1) 1 in
  run_ready (run_ready (answer_task c 0 (token_answer b eb)) 0) 0.

(** ** Segments of composed programs *)

Lemma segment_bind {A B} (p : prog A) (f : A -> prog B) g t :
  segment (bind p f) g t =
  match segment p g t with
  | (Ret a, g1, l1, w1) =>
      let '(q, g2, l2, w2) := segment (f a) g1 t in (q, g2, l1 ++ l2, w1 ++ w2)
  | (q, g1, l1, w1) => (bind q f, g1, l1, w1)
  end.
Proof.
  revert g; induction p as [a|e|k IH|k IH|x v k IH|m k IH|k IH|r k IH]; intros g; cbn; try done.
  - by destruct (segment (f a) g t) as [[[??]?]?].
  - rewrite IH. destruct (segment k (set_var g x v) t) as [[[q g1] l1] w1].
    destruct q; cbn; try done. by destruct (segment (f _) g1 t) as [[[??]?]?].
  - rewrite IH. destruct (segment k g t) as [[[q g1] l1] w1].
    destruct q; cbn; try done. by destruct (segment (f _) g1 t) as [[[??]?]?].
Qed.

Lemma segment_catch {A} (p : prog A) (h : jserror -> prog A) g t :
  segment (catch p h) g t =
  match segment p g t with
  | (Throw e, g1, l1, w1) =>
      let '(q, g2, l2, w2) := segment (h e) g1 t in (q, g2, l1 ++ l2, w1 ++ w2)
  | (q, g1, l1, w1) => (catch q h, g1, l1, w1)
  end.
Proof.
  revert g; induction p as [a|e|k IH|k IH|x v k IH|m k IH|k IH|r k IH]; intros g; cbn; try done.
  - by destruct (segment (h e) g t) as [[[??]?]?].
  - rewrite IH. destruct (segment k (set_var g x v) t) as [[[q g1] l1] w1].
    destruct q; cbn; try done. by destruct (segment (h _) g1 t) as [[[??]?]?].
  - rewrite IH. destruct (segment k g t) as [[[q g1] l1] w1].
    destruct q; cbn; try done. by destruct (segment (h _) g1 t) as [[[??]?]?].
Qed.

(** A segment stops at an [await] or at the end, never elsewhere. *)
Lemma segment_stops {A} (p : prog A) g t :
  match (segment p g t).1.1.1 with
  | Now _ | GetG _ | SetVar _ _ _ | Log _ _ => False
  | _ => True
  end.
Proof.
  revert g; induction p as [a|e|k IH|k IH|x v k IH|m k IH|k IH|r k IH]; intros g; cbn;
    try done; try apply IH.
  - specialize (IH (set_var g x v)). by destruct (segment k (set_var g x v) t) as [[[??]?]?].
  - specialize (IH g). by destruct (segment k g t) as [[[??]?]?].
Qed.

Lemma paired_app (w1 w2 : list var) : paired w1 -> paired w2 -> paired (w1 ++ w2).
Proof. unfold paired. rewrite !elem_of_app. naive_solver. Qed.

Lemma paired_nil : paired [].
Proof. unfold paired. set_solver. Qed.

Lemma paired_both (ws : list var) : paired ws -> paired (VAccessToken :: VTokenExpiry :: ws).
Proof. unfold paired. set_solver. Qed.

#[export] Hint Resolve paired_app paired_nil paired_both : gateway.

(** ** The rules of [keeps] *)

Section KeepsRules.
Context (R : request -> Prop).

Lemma keeps_inv {A} (p : prog A) :
  keeps R p ->
  (forall g t, paired (segment p g t).2) /\
  (forall g t r, fetched (segment p g t).1.1.1 = Some r -> R r) /\
  (forall q, resumes p q -> keeps R q).
Proof. by inversion 1. Qed.

(** A program that stops without assigning, sending or resuming. *)
Local Ltac keeps_final :=
  constructor; cbn; [intros; apply paired_nil | congruence |];
  intros ? (? & ? & ? & ? & ? & [? | (? & ? & ? & ? & _)]); cbn in *; simplify_eq.

Lemma keeps_ret {A} (a : A) : keeps R (Ret a).
Proof. keeps_final. Qed.

Lemma keeps_throw {A} (e : jserror) : keeps R (@Throw A e).
Proof. keeps_final. Qed.

Lemma keeps_yield {A} (k : prog A) : keeps R k -> keeps R (Yield k).
Proof.
  intros Hk. constructor; cbn; [intros; apply paired_nil | congruence |].
  intros q (g & t & g' & l & ws & [H | (r & k' & x & H & _)]); cbn in H; by simplify_eq.
Qed.

Lemma keeps_fetch {A} (r : request) (k : fetch_result -> prog A) :
  R r -> (forall x, keeps R (k x)) -> keeps R (Fetch r k).
Proof.
  intros Hr Hk. constructor; cbn; [intros; apply paired_nil | intros; by simplify_eq |].
  intros q (g & t & g' & l & ws & [H | (r' & k' & x & H & ->)]); cbn in H; simplify_eq; auto.
Qed.

(** A segment that goes on through [Date.now()], a read of the state or
    a log line keeps what its continuation keeps. *)
Lemma keeps_pass {A} (p : prog A) (next : globals -> Z -> prog A) (logs : list log_line) :
  (forall g t, segment p g t =
     let '(q, g', l, ws) := segment (next g t) g t in (q, g', logs ++ l, ws)) ->
  (forall g t, keeps R (next g t)) -> keeps R p.
Proof.
  intros Hs Hk. constructor.
  - intros g t. rewrite Hs. destruct (keeps_inv _ (Hk g t)) as (Hp & _ & _).
    specialize (Hp g t). by destruct (segment (next g t) g t) as [[[??]?]?].
  - intros g t r. rewrite Hs. destruct (keeps_inv _ (Hk g t)) as (_ & Hf & _).
    specialize (Hf g t r). by destruct (segment (next g t) g t) as [[[??]?]?].
  - intros q (g & t & g' & l & ws & H). rewrite Hs in H.
    destruct (keeps_inv _ (Hk g t)) as (_ & _ & Hr). apply Hr.
    exists g, t. destruct (segment (next g t) g t) as [[[q' g1] l1] w1].
    destruct H as [H | (r & k & x & H & ->)]; simplify_eq; eauto 10.
Qed.

Lemma keeps_now {A} (k : Z -> prog A) : (forall t, keeps R (k t)) -> keeps R (Now k).
Proof.
  intros Hk. apply (keeps_pass _ (fun _ t => k t) []); [| auto].
  intros g t. cbn. by destruct (segment (k t) g t) as [[[??]?]?].
Qed.

Lemma keeps_getg {A} (k : globals -> prog A) : (forall g, keeps R (k g)) -> keeps R (GetG k).
Proof.
  intros Hk. apply (keeps_pass _ (fun g _ => k g) []); [| auto].
  intros g t. cbn. by destruct (segment (k g) g t) as [[[??]?]?].
Qed.

Lemma keeps_log {A} (m : log_line) (k : prog A) : keeps R k -> keeps R (Log m k).
Proof.
  intros Hk. apply (keeps_pass _ (fun _ _ => k) [m]); [| auto].
  intros g t. cbn. by destruct (segment k g t) as [[[??]?]?].
Qed.

Lemma keeps_bind {A B} (p : prog A) (f : A -> prog B) :
  keeps R p -> (forall a, keeps R (f a)) -> keeps R (bind p f).
Proof.
  intros Hp Hf. induction Hp as [p Hpair Hfetch Hres IH]. constructor.
  - intros g t. rewrite segment_bind. specialize (Hpair g t).
    destruct (segment p g t) as [[[q g1] l1] w1]. cbn in Hpair.
    destruct q as [a| | | | | | |]; cbn; try done.
    destruct (keeps_inv _ (Hf a)) as (Hp2 & _ & _). specialize (Hp2 g1 t).
    destruct (segment (f a) g1 t) as [[[??]?]?]. cbn in *. by apply paired_app.
  - intros g t r. rewrite segment_bind. specialize (Hfetch g t r).
    destruct (segment p g t) as [[[q g1] l1] w1]. cbn in Hfetch.
    destruct q as [a| | | | | | |]; cbn; try congruence; [|auto].
    destruct (keeps_inv _ (Hf a)) as (_ & Hf2 & _). specialize (Hf2 g1 t r).
    destruct (segment (f a) g1 t) as [[[??]?]?]. cbn in *. auto.
  - intros q (g & t & g' & l & ws & H). rewrite segment_bind in H.
    destruct (segment p g t) as [[[q0 g1] l1] w1] eqn:Hs.
    destruct q0 as [a|e|k|k|x v k|m k|k|r k]; cbn in H.
    + destruct (segment (f a) g1 t) as [[[q2 g2] l2] w2] eqn:Hs2.
      destruct (keeps_inv _ (Hf a)) as (_ & _ & Hr2). apply Hr2. exists g1, t.
      rewrite Hs2. destruct H as [H | (r & k & x & H & ->)]; simplify_eq; eauto 10.
    + destruct H as [H | (r & k & x & H & _)]; simplify_eq.
    + destruct H as [H | (r & k' & x & H & _)]; simplify_eq.
    + destruct H as [H | (r & k' & x & H & _)]; simplify_eq.
    + destruct H as [H | (r & k' & x' & H & _)]; simplify_eq.
    + destruct H as [H | (r & k' & x & H & _)]; simplify_eq.
    + destruct H as [H | (r & k' & x & H & _)]; simplify_eq.
      apply IH. exists g, t. rewrite Hs. eauto 10.
    + destruct H as [H | (r' & k' & x & H & ->)]; simplify_eq.
      apply IH. exists g, t. rewrite Hs. eauto 10.
Qed.

Lemma keeps_catch {A} (p : prog A) (h : jserror -> prog A) :
  keeps R p -> (forall e, keeps R (h e)) -> keeps R (catch p h).
Proof.
  intros Hp Hh. induction Hp as [p Hpair Hfetch Hres IH]. constructor.
  - intros g t. rewrite segment_catch. specialize (Hpair g t).
    destruct (segment p g t) as [[[q g1] l1] w1]. cbn in Hpair.
    destruct q as [|e| | | | | |]; cbn; try done.
    destruct (keeps_inv _ (Hh e)) as (Hp2 & _ & _). specialize (Hp2 g1 t).
    destruct (segment (h e) g1 t) as [[[??]?]?]. cbn in *. by apply paired_app.
  - intros g t r. rewrite segment_catch. specialize (Hfetch g t r).
    destruct (segment p g t) as [[[q g1] l1] w1]. cbn in Hfetch.
    destruct q as [|e| | | | | |]; cbn; try congruence; [|auto].
    destruct (keeps_inv _ (Hh e)) as (_ & Hf2 & _). specialize (Hf2 g1 t r).
    destruct (segment (h e) g1 t) as [[[??]?]?]. cbn in *. auto.
  - intros q (g & t & g' & l & ws & H). rewrite segment_catch in H.
    destruct (segment p g t) as [[[q0 g1] l1] w1] eqn:Hs.
    destruct q0 as [a|e|k|k|x v k|m k|k|r k]; cbn in H.
    + destruct H as [H | (r & k & x & H & _)]; simplify_eq.
    + destruct (segment (h e) g1 t) as [[[q2 g2] l2] w2] eqn:Hs2.
      destruct (keeps_inv _ (Hh e)) as (_ & _ & Hr2). apply Hr2. exists g1, t.
      rewrite Hs2. destruct H as [H | (r & k & x & H & ->)]; simplify_eq; eauto 10.
    + destruct H as [H | (r & k' & x & H & _)]; simplify_eq.
    + destruct H as [H | (r & k' & x & H & _)]; simplify_eq.
    + destruct H as [H | (r & k' & x' & H & _)]; simplify_eq.
    + destruct H as [H | (r & k' & x & H & _)]; simplify_eq.
    + destruct H as [H | (r & k' & x & H & _)]; simplify_eq.
      apply IH. exists g, t. rewrite Hs. eauto 10.
    + destruct H as [H | (r' & k' & x & H & ->)]; simplify_eq.
      apply IH. exists g, t. rewrite Hs. eauto 10.
Qed.

(** The two assignments of lines 45-47, with no [await] between them:
    when the second property read cannot fail, the segment assigns both
    variables, and then goes on as [rest]. *)
Lemma keeps_assign_pair {B} (tok : jsval) (what : string) (o : option jsval)
    (expiry : Z -> jsval -> jsval) (rest : prog B) :
  o <> None -> keeps R rest ->
  keeps R (bind (assign VAccessToken tok) (fun _ =>
           bind now (fun t =>
           bind (js_op what o) (fun ex =>
           bind (assign VTokenExpiry (expiry t ex)) (fun _ => rest))))).
Proof.
  intros Ho Hrest. destruct o as [ex|]; [|done].
  destruct (keeps_inv _ Hrest) as (Hp & Hf & Hr). constructor; cbn.
  - intros g t. specialize (Hp (set_var (set_var g VAccessToken tok) VTokenExpiry (expiry t ex)) t).
    destruct (segment rest _ t) as [[[??]?]?]. cbn in *. by apply paired_both.
  - intros g t r. specialize (Hf (set_var (set_var g VAccessToken tok) VTokenExpiry (expiry t ex)) t r).
    destruct (segment rest _ t) as [[[??]?]?]. cbn in *. auto.
  - intros q (g & t & g' & l & ws & H). cbn in H. apply Hr.
    exists (set_var (set_var g VAccessToken tok) VTokenExpiry (expiry t ex)), t.
    destruct (segment rest _ t) as [[[q' g1] l1] w1].
    destruct H as [H | (r & k & x & H & ->)]; simplify_eq; eauto 10.
Qed.

Lemma keeps_now_ : keeps R now.
Proof. apply keeps_now. intros. apply keeps_ret. Qed.

Lemma keeps_get_globals : keeps R get_globals.
Proof. apply keeps_getg. intros. apply keeps_ret. Qed.

Lemma keeps_log_ (m : log_line) : keeps R (log m).
Proof. apply keeps_log, keeps_ret. Qed.

Lemma keeps_import : keeps R import_fetch.
Proof. apply keeps_yield, keeps_ret. Qed.

Lemma keeps_fetch_ (r : request) : R r -> keeps R (fetch r).
Proof. intros Hr. apply keeps_fetch; [done|]. intros [?|?]; [apply keeps_ret | apply keeps_throw]. Qed.

Lemma keeps_json (r : response) : keeps R (json r).
Proof. apply keeps_yield. destruct (body r); [apply keeps_ret | apply keeps_throw]. Qed.

Lemma keeps_js_op {A} (what : string) (o : option A) : keeps R (js_op what o).
Proof. destruct o; [apply keeps_ret | apply keeps_throw]. Qed.

Lemma keeps_await_promise {A} (p : prog A) : keeps R p -> keeps R (await_promise p).
Proof.
  intros Hp. unfold await_promise, mbind, prog_bind. apply keeps_catch.
  - apply keeps_bind; [done | intros a]. apply keeps_yield, keeps_ret.
  - intros e. apply keeps_yield, keeps_throw.
Qed.

End KeepsRules.

(** Apply the rules of [keeps] to a program built from the effects. *)
Ltac keeps_auto :=
  repeat first
    [ apply keeps_bind; [| intros ?]
    | apply keeps_catch; [| intros ?]
    | apply keeps_ret | apply keeps_throw | apply keeps_now_ | apply keeps_get_globals
    | apply keeps_log_ | apply keeps_import | apply keeps_json | apply keeps_js_op
    | match goal with |- keeps _ (if ?b then _ else _) => destruct b end ].

(** ** The handlers keep the invariant *)

(** The requests the code builds are of the three allowed kinds. *)
Lemma token_request_allowed E : token_exchange E (token_request E).
Proof.
  split_and!; [reflexivity | reflexivity | by left |].
  eexists. split_and!; reflexivity.
Qed.

Lemma partner_request_allowed E path tok : partner_read_at E path (partner_request E path tok).
Proof. split_and!; [reflexivity.. |]. exists (to_string tok). by left. Qed.

Lemma logo_request_allowed E domain : logo_search (logo_request E domain).
Proof. split_and!; [reflexivity | reflexivity | by eexists]. Qed.

(** [keeps] is monotone in the requests it allows. *)
Lemma keeps_impl {A} (R R' : request -> Prop) (p : prog A) :
  (forall r, R r -> R' r) -> keeps R p -> keeps R' p.
Proof.
  intros HR Hp. induction Hp as [p Hpair Hfetch Hres IH]. constructor; [done | | done].
  intros g t r Hr. by eapply HR, Hfetch.
Qed.

Lemma keeps_refresh E : keeps (token_exchange E) (refresh E).
Proof.
  unfold refresh, mbind, prog_bind, mret, prog_ret.
  apply keeps_bind; [apply keeps_import | intros _].
  apply keeps_bind; [apply keeps_fetch_, token_request_allowed | intros response].
  destruct (negb (resp_ok response)); [apply keeps_throw |].
  apply keeps_bind; [apply keeps_json | intros data].
  destruct (get_prop data "access_token") as [tok|] eqn:Htok;
    cbn [js_op bind]; [| apply keeps_throw].
  apply keeps_assign_pair.
  - intros Hex%get_prop_None. rewrite <- (get_prop_None _ "access_token") in Hex. congruence.
  - keeps_auto.
Qed.

Lemma keeps_getAccessToken E : keeps (token_exchange E) (getAccessToken E).
Proof.
  unfold getAccessToken, mbind, prog_bind, mret, prog_ret.
  apply keeps_bind; [apply keeps_get_globals | intros g].
  apply keeps_bind; [apply keeps_now_ | intros t].
  destruct (cache_hit g t); [apply keeps_ret |].
  apply keeps_catch; [apply keeps_refresh | intros; keeps_auto].
Qed.

Lemma keeps_partner_get E path label msg :
  keeps (fun r => token_exchange E r \/ partner_read_at E path r)
    (@partner_get (cache_token_source E) E path label msg).
Proof.
  unfold partner_get, mbind, prog_bind, mret, prog_ret.
  apply keeps_catch; [| intros; keeps_auto].
  apply keeps_bind; [| intros tok].
  { apply keeps_await_promise. eapply keeps_impl; [| apply keeps_getAccessToken]. by left. }
  apply keeps_bind; [apply keeps_import | intros _].
  apply keeps_bind; [apply keeps_fetch_; right; apply partner_request_allowed | intros ?].
  keeps_auto.
Qed.

Lemma keeps_api_logo E domain : keeps logo_search (api_logo E domain).
Proof.
  unfold api_logo, mbind, prog_bind, mret, prog_ret.
  apply keeps_catch; [| intros; keeps_auto].
  apply keeps_bind; [apply keeps_import | intros _].
  apply keeps_bind; [apply keeps_fetch_, logo_request_allowed | intros ?].
  keeps_auto.
Qed.

Lemma keeps_route E p : route E p -> keeps (allowed_request E) p.
Proof.
  destruct 1; [| | apply keeps_ret | eapply keeps_impl; [| apply keeps_api_logo]; by right; right].
  all: eapply keeps_impl; [| apply keeps_partner_get];
    intros r [Hr | Hr]; [by left | right; left; eexists; split; [| exact Hr]; auto].
Qed.

(** ** The invariant of the loop *)

Lemma task_ok_after E (p : prog res) g t :
  keeps (allowed_request E) p -> task_ok E (after (segment p g t).1.1.1).
Proof.
  intros Hp. destruct (keeps_inv _ _ Hp) as (_ & _ & Hres).
  pose proof (segment_stops p g t) as Hstop.
  destruct (segment p g t) as [[[q g'] l] ws] eqn:Hs; cbn in *.
  destruct q; cbn; try exact I; try contradiction.
  - apply Hres. exists g, t, g', l, ws. by left.
  - intros x. apply Hres. exists g, t, g', l, ws. right. eauto.
Qed.

Lemma loop_inv_run_segment E c i p :
  loop_inv E c -> c_tasks c !! i = Some (Ready p) -> loop_inv E (run_segment c i p).
Proof.
  intros (Htag & Hsent & Htasks) Hi.
  assert (Hp : keeps (allowed_request E) p) by (by eapply (Forall_lookup_1 _ _ _ _ Htasks Hi)).
  pose proof (task_ok_after E p (c_globals c) (c_now c) Hp) as Hafter.
  destruct (keeps_inv _ _ Hp) as (Hpair & Hfetch & _).
  specialize (Hpair (c_globals c) (c_now c)). specialize (Hfetch (c_globals c) (c_now c)).
  unfold run_segment. destruct (segment p (c_globals c) (c_now c)) as [[[q g'] l] ws].
  cbn in *. split_and!.
  - unfold paired in Hpair. do 2 case_bool_decide; naive_solver.
  - apply Forall_app. split; [done|]. destruct (fetched q) eqn:Hq; cbn; auto.
  - by apply Forall_insert.
Qed.

Lemma loop_inv_step E c c' : loop_inv E c -> step E c c' -> loop_inv E c'.
Proof.
  intros Hinv Hstep. destruct Hstep as [c p Hp|c i p Hi|c i r k x Hi|c d Hd].
  - destruct Hinv as (? & ? & ?). split_and!; try done. cbn.
    apply Forall_app. split; [done|]. constructor; [by apply keeps_route | done].
  - by apply loop_inv_run_segment.
  - destruct Hinv as (? & ? & Htasks). split_and!; try done. cbn.
    apply Forall_insert; [done|]. exact (Forall_lookup_1 _ _ _ _ Htasks Hi x).
  - by destruct Hinv as (? & ? & ?).
Qed.

(** Induction over the reachable configurations: a property of the
    initial configuration that every step preserves holds in all of them. *)
Lemma reachable_ind E t0 (P : config -> Prop) :
  P (config_init t0) -> (forall c c', P c -> step E c c' -> P c') ->
  forall c, reachable E t0 c -> P c.
Proof. intros Hinit Hstep c Hr. eapply (rtc_ind_r P); [exact Hinit | | exact Hr]. eauto. Qed.

Lemma loop_inv_reachable E t0 c : reachable E t0 c -> loop_inv E c.
Proof.
  apply reachable_ind; [split_and!; constructor |]. eauto using loop_inv_step.
Qed.

(** ** Reachable configurations *)

Lemma reachable_run_ready E t0 c i :
  reachable E t0 c -> is_ready c i = true -> reachable E t0 (run_ready c i).
Proof.
  unfold is_ready, run_ready. intros Hr Hi. destruct (c_tasks c !! i) as [[p| |]|] eqn:Hl; try done.
  eapply rtc_r; [exact Hr | by apply step_run].
Qed.

Lemma reachable_answer_task E t0 c i x :
  reachable E t0 c -> is_waiting c i = true -> reachable E t0 (answer_task c i x).
Proof.
  unfold is_waiting, answer_task. intros Hr Hi. destruct (c_tasks c !! i) as [[|r k|]|] eqn:Hl; try done.
  eapply rtc_r; [exact Hr | by eapply step_answer].
Qed.

Lemma reachable_arrive E t0 c p : reachable E t0 c -> route E p -> reachable E t0 (arrive c p).
Proof. intros Hr Hp. eapply rtc_r; [exact Hr | by apply step_arrive]. Qed.

(** The moves of [run_ready] on a ready task, field by field. *)
Lemma run_ready_fields c i p q g' l ws :
  c_tasks c !! i = Some (Ready p) -> segment p (c_globals c) (c_now c) = (q, g', l, ws) ->
  c_tasks (run_ready c i) = <[i := after q]> (c_tasks c) /\ c_globals (run_ready c i) = g' /\
  c_now (run_ready c i) = c_now c /\ c_sent (run_ready c i) = c_sent c ++ option_list (fetched q).
Proof. intros Hi Hs. unfold run_ready. rewrite Hi. unfold run_segment. by rewrite Hs. Qed.

(** On a cold cache, a users request runs up to the [await import]
    of the refresh, then up to the token [fetch]; neither segment
    touches the state. *)
Lemma users_first_segments E g t :
  cache_hit g t = false ->
  exists k1 k2, segment (users_cached E) g t = (Yield k1, g, [], []) /\
    forall g' t', segment k1 g' t' = (Fetch (token_request E) k2, g', [], []).
Proof.
  intros Hmiss. unfold users_cached, api_users, partner_get, await_promise, get_token, cache_token_source,
    getAccessToken, refresh, mbind, prog_bind, mret, prog_ret.
  cbn. rewrite Hmiss. cbn. do 2 eexists. split; [reflexivity|]. intros g' t'. reflexivity.
Qed.

Lemma race_config_reachable E t0 : reachable E t0 (race_config E t0).
Proof.
  unfold race_config.
  repeat (apply reachable_run_ready; [| reflexivity]).
  repeat (apply reachable_arrive; [| constructor]). apply rtc_refl.
Qed.

Lemma race_finish_reachable E t0 a ea b eb : reachable E t0 (race_finish E t0 a ea b eb).
Proof.
  unfold race_finish.
  do 2 (do 2 (apply reachable_run_ready; [| reflexivity]);
         apply reachable_answer_task; [| reflexivity]).
  apply race_config_reachable.
Qed.

(** ** Properties of every interleaving *)

(** *** C7 (invariant)
    In every configuration the event loop can reach, [accessToken] and
    [tokenExpiry] were last assigned by the same synchronous segment:
    no request ever observes a token with the expiry of another refresh,
    or a token without its expiry, whatever the interleaving of the
    requests, the network's answers and the clock. *)
Theorem cache_written_together E t0 c :
  reachable E t0 c -> c_tag_token c = c_tag_expiry c.
Proof. intros Hr. apply (loop_inv_reachable E t0 c Hr). Qed.

(** *** C10 (safety)
    In every reachable configuration, every request the server has sent
    is one of the three kinds the spec allows, as it describes their
    fields: the client-credentials [POST] to [FORTIUM_TOKEN_ENDPOINT]
    with the configured client id, secret and audience in its JSON
    body; a [GET] of [FORTIUM_API_URL] + [/api/users] or
    [/api/companies] with a bearer token and no body; or a [GET] of the
    logo search.  Each partner handler, on every path, sends nothing
    but the token exchange and the [GET] of its own resource. *)
Theorem only_allowed_requests E t0 c :
  reachable E t0 c ->
  Forall (allowed_request E) (c_sent c) /\
  keeps (fun r => token_exchange E r \/ partner_read_at E "/api/users" r) (@api_users (cache_token_source E) E) /\
  keeps (fun r => token_exchange E r \/ partner_read_at E "/api/companies" r)
    (@api_companies (cache_token_source E) E).
Proof.
  intros Hr. split_and!; [apply (loop_inv_reachable E t0 c Hr) | apply keeps_partner_get | apply keeps_partner_get].
Qed.

(** *** C9 (functional)
    Refreshes are not serialised: in every configuration the event loop
    can reach in which the cached token is not valid, two
    [GET /api/users] that arrive can both run up to their token
    [fetch] before either is answered, so that two token requests are
    sent for one refresh; the state is left as it was. *)
Theorem concurrent_misses_both_refresh E t0 c :
  reachable E t0 c -> cache_hit (c_globals c) (c_now c) = false ->
  let n := length (c_tasks c) in
  let c2 := arrive (arrive c (users_cached E)) (users_cached E) in
  let c' := run_ready (run_ready (run_ready (run_ready c2 n) n) (S n)) (S n) in
  reachable E t0 c' /\ c_sent c' = c_sent c ++ [token_request E; token_request E] /\
  c_globals c' = c_globals c /\ is_waiting c' n = true /\ is_waiting c' (S n) = true.
Proof.
  intros Hr Hmiss n c2 c'.
  destruct (users_first_segments E _ _ Hmiss) as (k1 & k2 & H1 & H2).
  assert (Ht2 : c_tasks c2 = c_tasks c ++ [Ready (users_cached E); Ready (users_cached E)])
    by (cbn; by rewrite <- app_assoc).
  assert (Hn : c_tasks c2 !! n = Some (Ready (users_cached E)))
    by (rewrite Ht2, lookup_app_r, Nat.sub_diag by lia; done).
  assert (HSn : c_tasks c2 !! S n = Some (Ready (users_cached E)))
    by (rewrite Ht2, lookup_app_r by lia; by replace (S n - length (c_tasks c)) with 1 by lia).
  set (c3 := run_ready c2 n).
  destruct (run_ready_fields c2 n _ _ _ _ _ Hn H1) as (T3 & G3 & N3 & S3). fold c3 in T3, G3, N3, S3.
  assert (L3 : c_tasks c3 !! n = Some (Ready k1)).
  { rewrite T3. apply list_lookup_insert_eq. by eapply lookup_lt_Some. }
  set (c4 := run_ready c3 n).
  destruct (run_ready_fields c3 n _ _ _ _ _ L3 (H2 _ _)) as (T4 & G4 & N4 & S4). fold c4 in T4, G4, N4, S4.
  assert (L4 : c_tasks c4 !! S n = Some (Ready (users_cached E))).
  { rewrite T4, list_lookup_insert_ne, T3, list_lookup_insert_ne by lia. exact HSn. }
  assert (H1' : segment (users_cached E) (c_globals c4) (c_now c4) = (Yield k1, c_globals c4, [], [])).
  { rewrite G4, G3, N4, N3. exact H1. }
  set (c5 := run_ready c4 (S n)).
  destruct (run_ready_fields c4 (S n) _ _ _ _ _ L4 H1') as (T5 & G5 & N5 & S5). fold c5 in T5, G5, N5, S5.
  assert (L5 : c_tasks c5 !! S n = Some (Ready k1)).
  { rewrite T5. apply list_lookup_insert_eq. by eapply lookup_lt_Some. }
  destruct (run_ready_fields c5 (S n) _ _ _ _ _ L5 (H2 _ _)) as (T6 & G6 & N6 & S6). change (run_ready c5 (S n)) with c' in T6, G6, N6, S6.
  split_and!.
  - assert (R2 : reachable E t0 c2)
      by (apply reachable_arrive; [apply reachable_arrive; [done | constructor] | constructor]).
    assert (R3 : reachable E t0 c3) by (apply reachable_run_ready; [done | unfold is_ready; by rewrite Hn]).
    assert (R4 : reachable E t0 c4) by (apply reachable_run_ready; [done | unfold is_ready; by rewrite L3]).
    assert (R5 : reachable E t0 c5) by (apply reachable_run_ready; [done | unfold is_ready; by rewrite L4]).
    change (reachable E t0 (run_ready c5 (S n))).
    apply reachable_run_ready; [done | unfold is_ready; by rewrite L5].
  - rewrite S6, S5, S4, S3. cbn. by rewrite <- !app_assoc.
  - by rewrite G6, G5, G4, G3.
  - unfold is_waiting. rewrite T6, list_lookup_insert_ne, T5, list_lookup_insert_ne, T4 by lia.
    cbn. rewrite list_lookup_insert_eq; [done |]. rewrite T3, length_insert. by eapply lookup_lt_Some.
  - unfold is_waiting. rewrite T6. rewrite list_lookup_insert_eq; [done |].
    rewrite T5, length_insert. by eapply lookup_lt_Some.
Qed.

(** One schedule of the race: last write wins. when the second request's refresh completes first,
    with the token [a], and the first one's afterwards, with [b], the
    cache holds [b] and the expiry computed from [b]'s lifetime. *)
Theorem later_refresh_wins E t0 a ea b eb :
  reachable E t0 (race_finish E t0 a ea b eb) /\
  c_globals (race_finish E t0 a ea b eb) = mkGlobals (JStr b) (JNum (expiry_of t0 (JNum (Int eb)))).
Proof. split; [apply race_finish_reachable | reflexivity]. Qed.

(** ** Witnesses *)

Lemma cache_written_together_witness :
  reachable ∅ 0 (race_finish ∅ 0 "a" 3600 "b" 3600) /\
  c_tag_token (race_finish ∅ 0 "a" 3600 "b" 3600) = c_tag_expiry (race_finish ∅ 0 "a" 3600 "b" 3600).
Proof.
  split; [apply race_finish_reachable |].
  apply (cache_written_together ∅ 0); apply race_finish_reachable.
Defined.

Lemma concurrent_misses_both_refresh_witness :
  cache_hit (c_globals (config_init 0)) 0 = false /\
  c_sent (race_config ∅ 0) = [token_request ∅; token_request ∅].
Proof.
  split; [reflexivity |].
  exact (proj1 (proj2 (concurrent_misses_both_refresh ∅ 0 (config_init 0) (rtc_refl _ _) eq_refl))).
Defined.

Lemma only_allowed_requests_witness :
  reachable ∅ 0 (race_config ∅ 0) /\ Forall (allowed_request ∅) (c_sent (race_config ∅ 0)).
Proof.
  split; [apply race_config_reachable |].
  apply (proj1 (only_allowed_requests ∅ 0 _ (race_config_reachable ∅ 0))).
Defined.

End EventLoop.
