(* ===== verification/Liveness.v ===== *)
(** Termination of the handlers: bounds on their suspensions.

    [bounded n p]: on every path of [p], whatever the clock, the state
    and the network answer, [p] reaches its end after at most [n]
    [await]s.  [fetches n p]: on every path, at most [n] of them are
    [fetch]es, each of which needs an answer of the network.  The
    partner handlers are bounded by 7 awaits on a cache miss (line 71's
    [await getAccessToken()] around [import], the token [fetch] and its
    [json], then [import], the partner [fetch] and its [json]) and by 2
    fetches; the logo handler by 3 awaits and 1 fetch.  A program with
    [n] fetches does not hang when the network has [n] answers for it;
    each segment the event loop runs uses up one await of the bound
    ([segment_bounded]), the measure of [Agreement]. *)

From S2P Require Import Prelude JsValue Prog TokenCache Uri Handlers EventLoop.
Import Js Prog TokenCache Handlers EventLoop.

Module Liveness.

(** ** Programs with a bounded number of awaits *)

Inductive bounded {A} : nat -> prog A -> Prop :=
| b_ret n a : bounded n (Ret a)
| b_throw n e : bounded n (Throw e)
| b_now n k : (forall t, bounded n (k t)) -> bounded n (Now k)
| b_getg n k : (forall g, bounded n (k g)) -> bounded n (GetG k)
| b_setvar n x v k : bounded n k -> bounded n (SetVar x v k)
| b_log n l k : bounded n k -> bounded n (Log l k)
| b_yield n k : bounded n k -> bounded (S n) (Yield k)
| b_fetch n r k : (forall x, bounded n (k x)) -> bounded (S n) (Fetch r k).

Inductive fetches {A} : nat -> prog A -> Prop :=
| f_ret n a : fetches n (Ret a)
| f_throw n e : fetches n (Throw e)
| f_now n k : (forall t, fetches n (k t)) -> fetches n (Now k)
| f_getg n k : (forall g, fetches n (k g)) -> fetches n (GetG k)
| f_setvar n x v k : fetches n k -> fetches n (SetVar x v k)
| f_log n l k : fetches n k -> fetches n (Log l k)
| f_yield n k : fetches n k -> fetches n (Yield k)
| f_fetch n r k : (forall x, fetches n (k x)) -> fetches (S n) (Fetch r k).

(** ** Bounds of programs *)

Lemma bounded_mono {A} n m (p : prog A) : bounded n p -> n <= m -> bounded m p.
Proof.
  intros H; revert m; induction H; intros m Hm; try (constructor; auto; fail).
  - destruct m as [|m]; [lia |]. constructor. apply IHbounded. lia.
  - destruct m as [|m]; [lia |]. constructor. intros x. apply H0. lia.
Qed.

(** A segment of a bounded program ends, or stops at an [await] whose
    continuation has one [await] less. *)
Lemma segment_bounded {A} n (p : prog A) g t :
  bounded n p ->
  match (segment p g t).1.1.1 with
  | Ret _ | Throw _ => True
  | Yield k => exists m, n = S m /\ bounded m k
  | Fetch _ k => exists m, n = S m /\ forall x, bounded m (k x)
  | _ => False
  end.
Proof.
  intros H; revert g.
  induction H as [| | n k _ IH | n k _ IH | n x v k _ IH | n l k _ IH | |]; intros g; cbn; eauto.
  - apply IH.
  - apply IH.
  - specialize (IH (set_var g x v)). by destruct (segment k (set_var g x v) t) as [[[??]?]?].
  - specialize (IH g). by destruct (segment k g t) as [[[??]?]?].
Qed.

(** Unfold a closed program to its tree and check a bound node by node:
    the constructor that fits each node is the only one whose index
    matches. *)
Ltac prog_tree :=
  repeat (intros; unfold await_promise, mbind, prog_bind, mret, prog_ret, js_op; cbn;
          first [ constructor | case_match ]).

Lemma fetches_mono {A} n m (p : prog A) : fetches n p -> n <= m -> fetches m p.
Proof.
  intros H; revert m; induction H; intros m Hm; try (constructor; auto; fail).
  destruct m as [|m]; [lia |]. constructor. intros x. apply H0. lia.
Qed.

(** ** Every handler is bounded *)

Lemma getAccessToken_bounded E : bounded 3 (getAccessToken E).
Proof. unfold getAccessToken, refresh. prog_tree. Qed.

Lemma api_logo_bounded E domain : bounded 3 (api_logo E domain).
Proof. unfold api_logo. prog_tree. Qed.

Lemma partner_get_bounded E path label msg :
  bounded 7 (@partner_get (cache_token_source E) E path label msg).
Proof. unfold partner_get, get_token, cache_token_source, getAccessToken, refresh. prog_tree. Qed.

Lemma route_bounded_7 E p : route E p -> bounded 7 p.
Proof.
  destruct 1; [apply partner_get_bounded | apply partner_get_bounded | constructor |].
  eapply bounded_mono; [apply api_logo_bounded | lia].
Qed.

Lemma route_fetches_2 E p : route E p -> fetches 2 p.
Proof.
  destruct 1; [| | constructor |].
  1,2: unfold api_users, api_companies, partner_get, get_token, cache_token_source, getAccessToken, refresh;
       prog_tree.
  eapply (fetches_mono 1); [unfold api_logo; prog_tree | lia].
Qed.

(** A program with at most [n] fetches does not hang when the network
    has [n] answers for it. *)
Lemma fetches_run_answered {A} n (p : prog A) ans w :
  fetches n p -> n <= length ans -> (run p ans w).1.1 <> Hung.
Proof.
  intros H; revert ans w; induction H as [| |n k _ IH|n k _ IH|n x v k _ IH|n l k _ IH|n k _ IH|n r k _ IH];
    intros ans w Hn; cbn; try done; eauto with lia.
  destruct ans as [|[d y] ans]; cbn in Hn; [lia|]. apply IH. lia.
Qed.

(** ** The task moves of the loop *)

Lemma run_segment_lookup c i p tk :
  c_tasks c !! i = Some tk ->
  c_tasks (run_segment c i p) !! i = Some (after (segment p (c_globals c) (c_now c)).1.1.1).
Proof.
  intros Hi. unfold run_segment. destruct (segment p _ _) as [[[q g'] l] ws]. cbn.
  apply list_lookup_insert_eq. by eapply lookup_lt_Some.
Qed.

(** ** Termination *)

(** *** C11 (termination)
    Every handler reaches its end after a bounded number of awaits on
    every path, whatever the clock, the cache and the network answer:
    [getAccessToken] and the logo handler after at most 3, the partner
    handlers after at most 7 (the [await getAccessToken()] of line 71
    included), of which at most 2 are fetches.  No handler loops or
    retries. *)
Theorem handlers_bounded E path label msg domain :
  bounded 3 (getAccessToken E) /\ bounded 3 (api_logo E domain) /\
  bounded 7 (@partner_get (cache_token_source E) E path label msg) /\
  fetches 2 (@partner_get (cache_token_source E) E path label msg).
Proof.
  split_and!; [apply getAccessToken_bounded | apply api_logo_bounded | apply partner_get_bounded |].
  unfold partner_get, get_token, cache_token_source, getAccessToken, refresh. prog_tree.
Qed.

End Liveness.
