(* ===== verification/Agreement.v ===== *)
(** The event loop agrees with [Prog.run]: a task the loop runs alone,
    its segments run one after the other and each of its [fetch]es
    answered by the next answer of the network after the time that
    answer took, ends in the outcome, state, log and requests [run]
    computes.  [run] is the big-step semantics of one request (the one
    [App.respond] uses), [EventLoop.step] the small-step semantics of
    the process; the other tasks of the configuration are left as they
    are.  The proof splits [run] at the end of a segment and goes by
    well-founded induction on the bound of [Liveness.bounded]. *)

From S2P Require Import Prelude JsValue Prog TokenCache Uri Handlers EventLoop Liveness.
Import Js Prog TokenCache Handlers EventLoop Liveness.

Module Agreement.

(** What the outside world has seen of a configuration. *)
Definition world_of (c : config) : world := mkWorld (c_globals c) (c_now c) (c_log c) (c_sent c).

(** The task that corresponds to an outcome of [run]: finished with it,
    or waiting for an answer the network did not give. *)
Definition task_done (o : outcome res) (tk : task) : Prop :=
  match o with
  | Hung => exists r k, tk = Waiting r k
  | _ => tk = Finished o
  end.

(** The loop reaches [c'] from [c], the task [i] ending as [run] says,
    and leaves the other tasks as they were. *)
Definition runs_alone (E : gmap string string) (c : config) (i : nat)
    (res : outcome res * list answer * world) : Prop :=
  let '(o, _, w') := res in
  exists c', rtc (step E) c c' /\ world_of c' = w' /\
    (exists tk, c_tasks c' !! i = Some tk /\ task_done o tk) /\
    forall j, j <> i -> c_tasks c' !! j = c_tasks c !! j.

(** ** [run] split at the end of a segment *)

Lemma run_split {A} (p : prog A) ans w :
  run p ans w =
  let '(q, g', l, _) := segment p (w_globals w) (w_now w) in
  run q ans (mkWorld g' (w_now w) (w_log w ++ l) (w_sent w)).
Proof.
  revert w; induction p as [a|e|k IH|k IH|x v k IH|m k IH|k|r k]; intros [g t lg sn];
    cbn [run segment set_globals add_log w_globals w_now w_log w_sent];
    rewrite ?app_nil_r; try done; try apply IH.
  - unfold set_globals; cbn [w_globals w_now w_log w_sent]. rewrite (IH (mkWorld (set_var g x v) t lg sn)). cbn.
    by destruct (segment k (set_var g x v) t) as [[[??]?]?].
  - unfold add_log; cbn [w_globals w_now w_log w_sent]. rewrite (IH (mkWorld g t (lg ++ [m]) sn)). cbn.
    destruct (segment k g t) as [[[??]?]?]. by rewrite <- app_assoc.
Qed.

(** ** The moves of a lone task *)

Lemma run_segment_world c i p :
  world_of (run_segment c i p) =
  let '(q, g', l, _) := segment p (c_globals c) (c_now c) in
  mkWorld g' (c_now c) (c_log c ++ l) (c_sent c ++ option_list (fetched q)).
Proof. unfold run_segment. by destruct (segment p _ _) as [[[??]?]?]. Qed.

Lemma run_segment_other c i j p : j <> i -> c_tasks (run_segment c i p) !! j = c_tasks c !! j.
Proof.
  intros Hj. unfold run_segment. destruct (segment p _ _) as [[[??]?]?]. cbn.
  by rewrite list_lookup_insert_ne.
Qed.

(** Answering the fetch of task [i] after [d] milliseconds: a tick,
    then the answer. *)
Lemma answer_after E c i r k d x :
  c_tasks c !! i = Some (Waiting r k) ->
  let c' := with_tasks (with_now c (c_now c + Z.of_N d)) (<[i := Ready (k x)]> (c_tasks c)) in
  rtc (step E) c c' /\ c_tasks c' !! i = Some (Ready (k x)) /\
  (forall j, j <> i -> c_tasks c' !! j = c_tasks c !! j) /\
  world_of c' = mkWorld (c_globals c) (c_now c + Z.of_N d) (c_log c) (c_sent c).
Proof.
  intros Hi c'. split_and!.
  - eapply rtc_l; [apply (step_tick E c (Z.of_N d)); lia |].
    apply rtc_once. exact (step_answer E (with_now c (c_now c + Z.of_N d)) i r k x Hi).
  - apply list_lookup_insert_eq. by eapply lookup_lt_Some.
  - intros j Hj. cbn. by rewrite list_lookup_insert_ne.
  - done.
Qed.

Lemma runs_alone_step E c c1 i res :
  step E c c1 -> (forall j, j <> i -> c_tasks c1 !! j = c_tasks c !! j) ->
  runs_alone E c1 i res -> runs_alone E c i res.
Proof.
  destruct res as [[o ?] w']. intros Hs Ho (c' & Hr & Hw & Ht & Hj).
  exists c'. split_and!; [by eapply rtc_l | done | done |]. intros j Hji. by rewrite Hj, Ho.
Qed.

Lemma runs_alone_rtc E c c1 i res :
  rtc (step E) c c1 -> (forall j, j <> i -> c_tasks c1 !! j = c_tasks c !! j) ->
  runs_alone E c1 i res -> runs_alone E c i res.
Proof.
  destruct res as [[o ?] w']. intros Hs Ho (c' & Hr & Hw & Ht & Hj).
  exists c'. split_and!; [by etrans | done | done |]. intros j Hji. by rewrite Hj, Ho.
Qed.

(** ** A lone task runs as [run] says *)

(** By well-founded induction on the bound: each segment uses up one
    await of it. *)
Lemma lone_task_runs E n :
  forall p c i ans, bounded n p -> c_tasks c !! i = Some (Ready p) ->
  runs_alone E c i (run p ans (world_of c)).
Proof.
  induction n as [n IH] using (well_founded_induction lt_wf). intros p c i ans Hb Hi.
  pose proof (segment_bounded n p (c_globals c) (c_now c) Hb) as Hs.
  pose proof (run_segment_world c i p) as Hw.
  pose proof (run_segment_lookup c i p _ Hi) as Hl.
  apply (runs_alone_step E c (run_segment c i p) i);
    [by apply step_run | intros j Hj; by apply run_segment_other |].
  change (world_of c) with (mkWorld (c_globals c) (c_now c) (c_log c) (c_sent c)).
  rewrite run_split. cbn [w_globals w_now w_log w_sent].
  destruct (segment p (c_globals c) (c_now c)) as [[[q g'] l] ws] eqn:Hseg.
  cbn in Hs, Hl. set (c1 := run_segment c i p) in *.
  unfold world_of in Hw. injection Hw as Hg Hn Hlg Hsn.
  destruct q as [a|e| | | | |k|r k]; try contradiction; cbn [run after fetched option_list] in Hl, Hsn |- *.
  - unfold runs_alone. exists c1. split_and!; [done | unfold world_of; by rewrite Hg, Hn, Hlg, Hsn, app_nil_r | by eexists | done].
  - unfold runs_alone. exists c1. split_and!; [done | unfold world_of; by rewrite Hg, Hn, Hlg, Hsn, app_nil_r | by eexists | done].
  - destruct Hs as (m & -> & Hk).
    replace (mkWorld g' (c_now c) (c_log c ++ l) (c_sent c)) with (world_of c1)
      by (unfold world_of; by rewrite Hg, Hn, Hlg, Hsn, app_nil_r).
    apply (IH m); [lia | done | done].
  - destruct Hs as (m & -> & Hk). destruct ans as [|[d x] ans].
    + unfold runs_alone. exists c1. split_and!; [done | | exists (Waiting r k); split; [done | by exists r, k] | done].
      unfold world_of, send. cbn. by rewrite Hg, Hn, Hlg, Hsn, Z.add_0_r.
    + destruct (answer_after E c1 i r k d x Hl) as (Hr & Hl2 & Ho & Hw2).
      eapply runs_alone_rtc; [exact Hr | exact Ho |].
      replace (send (mkWorld g' (c_now c) (c_log c ++ l) (c_sent c)) r d) with
        (world_of (with_tasks (with_now c1 (c_now c1 + Z.of_N d)) (<[i := Ready (k x)]> (c_tasks c1))))
        by (rewrite Hw2; unfold send; cbn; by rewrite Hg, Hn, Hlg, Hsn).
      apply (IH m); [lia | apply Hk | exact Hl2].
Qed.

End Agreement.
