(* ===== verification/Routing.v ===== *)
(** The Express application of [src/server.js] as a stack of layers:
    [cors()], [express.json()] and [express.static('.')] (lines 10-12),
    then the six [app.get] routes (lines 59-154), tried in the order the
    code registers them.  A request goes down the stack until a layer
    answers it; a request no layer answers gets Express's 404.

    The layers are library code ([cors], [body-parser], [serve-static]
    with [send], Express's router with [path-to-regexp]); they are
    modelled as those libraries behave with the options the code gives
    them (none), to the extent that decides which layer answers:
    - [cors()] answers every [OPTIONS] request itself (a preflight,
      204) and lets the others through;
    - [express.json()] parses a body whose type is [application/json];
      an invalid or non-object/array ("strict") body is a 400 error;
    - [express.static(root)] serves, for [GET] and [HEAD], the file
      under [root] named by the decoded, normalised path; a path ending
      in [/] serves that directory's [index.html]; a directory named
      without the slash is redirected; [..] escaping the root is
      refused; a path whose last segment starts with a dot is ignored,
      which is the legacy default of [send] 0.x (Express 4), under which
      files {i inside} a dot directory are served; [send] 1.x (Express
      5) ignores those too.  The repository has no [package.json], so
      the version is not known: the theorems that depend on the rule
      ([dotfiles_not_served]) hold under both, and
      [static_serves_every_plain_file] speaks only of paths without a
      dot segment; anything else falls through;
    - [app.get(pattern)] matches [GET] and [HEAD], case-insensitively,
      with one optional trailing slash; a [:param] segment is
      URI-decoded, and a segment that does not decode is a 400 error.

    The working directory is the list of its files, as paths relative
    to it; the server is started in its own directory, so that it is
    also the [__dirname] of [res.sendFile]. *)

From S2P Require Import Prelude JsValue Prog TokenCache Uri Handlers.
Import Js Prog Uri Handlers.

Module Routing.

(** ** Requests and outcomes *)

(** A request body as [body-parser] reads it. *)
Inductive body_text := BEmpty | BJson (v : jsval) | BInvalid.

Record http_request := mkHttp {
  h_method : string;                        (** upper case, as Node gives it *)
  h_path : string;                          (** the pathname, still URI-encoded *)
  h_body : option (string * body_text) }.   (** content type and body *)

(** What the route handlers of lines 59-154 do. *)
Inductive action :=
| ASendFile (file : string)   (** [res.sendFile(path.join(__dirname, file))] *)
| AUsers | ACompanies | AConfig | ALogo.

Inductive layer :=
| LCors
| LJson
| LStatic (root : string)
| LGet (pattern : string) (a : action).

Inductive outcome :=
| Preflight                              (** 204 from [cors] *)
| BadBody                                (** 400 from [express.json] *)
| BadParam                               (** 400: a route parameter does not decode *)
| Static (file : string)                 (** a file served by [express.static] *)
| Redirect (location : string)           (** 301 to the directory with a slash *)
| Route (a : action) (params : list string)
| NotFound.                              (** Express's final 404 *)

(** ** The application (lines 6-12, 59-154) *)

Definition middleware : list layer := [LCors; LJson; LStatic "."].

Definition file_routes : list layer :=
  [LGet "/" (ASendFile "index.html"); LGet "/embed" (ASendFile "embed.html")].

Definition api_routes : list layer :=
  [LGet "/api/users" AUsers; LGet "/api/companies" ACompanies;
   LGet "/api/config" AConfig; LGet "/api/logo/:domain" ALogo].

Definition app_stack : list layer := middleware ++ file_routes ++ api_routes.

(** ** Paths *)

Fixpoint split_on (c : ascii) (s : string) : list string :=
  match s with
  | EmptyString => [EmptyString]
  | String a s' =>
      let r := split_on c s' in
      if ascii_dec a c then EmptyString :: r
      else match r with x :: rs => String a x :: rs | [] => [String a EmptyString] end
  end.

(** The segments of an absolute path, [None] for a path without its
    leading slash. *)
Definition path_segments (p : string) : option (list string) :=
  match p with
  | String c rest => if ascii_dec c "/" then Some (split_on "/" rest) else None
  | EmptyString => None
  end.

Definition ascii_lower (c : ascii) : ascii :=
  let n := nat_of_ascii c in if (65 <=? n) && (n <=? 90) then ascii_of_nat (n + 32) else c.

Fixpoint lower (s : string) : string :=
  match s with EmptyString => EmptyString | String c s' => String (ascii_lower c) (lower s') end.

Definition is_dot_part (s : string) : bool :=
  match s with String "." (String _ _) => true | _ => false end.

Definition ends_with_slash (p : string) : bool :=
  match last (split_on "/" p) with Some EmptyString => true | _ => false end.

(** [path.normalize]: drop the empty and [.] segments, and let [..]
    remove the segment before it; [None] when [..] leaves the root. *)
Fixpoint normalize_rev (acc : list string) (segs : list string) : option (list string) :=
  match segs with
  | [] => Some acc
  | s :: rest =>
      if String.eqb s "" || String.eqb s "." then normalize_rev acc rest
      else if String.eqb s ".." then
        match acc with [] => None | _ :: acc' => normalize_rev acc' rest end
      else normalize_rev (s :: acc) rest
  end.

Definition normalize (segs : list string) : option (list string) := reverse <$> normalize_rev [] segs.

Definition has_file (files : list string) (f : string) : bool := existsb (String.eqb f) files.

Definition is_dir (files : list string) (d : string) : bool :=
  existsb (fun f => String.prefix (d ++ "/")%string f) files.

Definition is_get (m : string) : bool := String.eqb m "GET" || String.eqb m "HEAD".

(** ** The layers *)

(** [cors()]: a preflight is answered at once. *)
Definition cors_layer (r : http_request) : option outcome :=
  if String.eqb (h_method r) "OPTIONS" then Some Preflight else None.

(** The media type of a [Content-Type] header, without its parameters. *)
Definition media_type (ct : string) : string :=
  lower (trim (match split_on ";" ct with x :: _ => x | [] => "" end)).

(** [strict] mode accepts only an object or an array at the top. *)
Definition strict_ok (v : jsval) : bool :=
  match v with JObj _ | JArr _ => true | _ => false end.

(** [express.json()]: a JSON body that does not parse, or is not an
    object or an array, is a 400 error passed to Express's final
    handler; any other request goes on. *)
Definition json_layer (r : http_request) : option outcome :=
  match h_body r with
  | Some (ct, t) =>
      if String.eqb (media_type ct) "application/json" then
        match t with
        | BEmpty => None
        | BJson v => if strict_ok v then None else Some BadBody
        | BInvalid => Some BadBody
        end
      else None
  | None => None
  end.

(** The path of [rel] under the directory [root], relative to the
    working directory. *)
Definition under (root rel : string) : string :=
  if String.eqb root "." then rel else (root ++ "/" ++ rel)%string.

(** [express.static(root)] with its default options: the files looked
    up are those under [root]. *)
Definition serve_static (files : list string) (root m path : string) : option outcome :=
  if negb (is_get m) then None else
  match decodeURIComponent path with
  | None => None
  | Some p =>
      match path_segments p with
      | None => None
      | Some segs =>
          match normalize segs with
          | None => None
          | Some norm =>
              let rel := String.concat "/" norm in
              if ends_with_slash p then
                let f := match norm with [] => "index.html" | _ => (rel ++ "/index.html")%string end in
                if has_file files (under root f) then Some (Static (under root f)) else None
              else if match last norm with Some x => is_dot_part x | None => false end then None
              else if has_file files (under root rel) then Some (Static (under root rel))
              else if is_dir files (under root rel) then Some (Redirect (path ++ "/")%string)
              else None
          end
      end
  end.

(** A compiled route pattern. *)
Inductive seg := SLit (s : string) | SParam.

Definition compile_pattern (pat : string) : list seg :=
  match path_segments pat with
  | Some segs =>
      (fun s => match s with String ":" _ => SParam | _ => SLit s end) <$>
        List.filter (fun s => negb (String.eqb s "")) segs
  | None => []
  end.

(** The raw values of the parameters, when the segments match. *)
Fixpoint match_segs (pat : list seg) (segs : list string) : option (list string) :=
  match pat, segs with
  | [], [] => Some []
  | SLit l :: ps, s :: ss => if String.eqb (lower s) (lower l) then match_segs ps ss else None
  | SParam :: ps, s :: ss => if String.eqb s "" then None else cons s <$> match_segs ps ss
  | _, _ => None
  end.

(** One trailing slash is optional. *)
Definition strip_trailing (segs : list string) : list string :=
  match last segs with Some EmptyString => removelast segs | _ => segs end.

Definition route_match (pat path : string) : option (list string) :=
  match path_segments path with
  | Some segs => match_segs (compile_pattern pat) (strip_trailing segs)
  | None => None
  end.

Definition get_layer (pat : string) (a : action) (r : http_request) : option outcome :=
  if is_get (h_method r) then
    match route_match pat (h_path r) with
    | Some raw =>
        Some (match mapM decodeURIComponent raw with Some ps => Route a ps | None => BadParam end)
    | None => None
    end
  else None.

Definition run_layer (files : list string) (l : layer) (r : http_request) : option outcome :=
  match l with
  | LCors => cors_layer r
  | LJson => json_layer r
  | LStatic root => serve_static files root (h_method r) (h_path r)
  | LGet pat a => get_layer pat a r
  end.

(** The request goes down the stack until a layer answers it. *)
Fixpoint dispatch (files : list string) (ls : list layer) (r : http_request) : outcome :=
  match ls with
  | [] => NotFound
  | l :: ls' => match run_layer files l r with Some o => o | None => dispatch files ls' r end
  end.

Definition serve (files : list string) (r : http_request) : outcome := dispatch files app_stack r.

(** A path segment that [path.normalize] keeps as it is. *)
Definition plain_seg (s : string) : bool :=
  negb (String.eqb s "") && negb (String.eqb s ".") && negb (String.eqb s "..").

Definition no_char (c : ascii) (s : string) : bool :=
  string_forall (fun a => negb (bool_decide (a = c))) s.

(** A file name the browser can ask for as it is: no [%], no empty,
    [.] or [..] segment, and no segment that starts with a dot (no
    dotfile and no dot directory, so that the dotfile rule of any
    version of [send] lets it through). *)
Definition plain_file (f : string) : bool :=
  no_char "%" f && forallb plain_seg (split_on "/" f) &&
  forallb (fun x => negb (is_dot_part x)) (split_on "/" f).

(** A working directory like the repository's: the two pages, the
    server, its manifest, its secrets and a git checkout. *)
Definition sample_files : list string :=
  ["index.html"; "embed.html"; "server.js"; "package.json"; ".env"; ".git/config"].

(** ** Paths: lemmas *)

Lemma split_on_cons_ne c a s :
  a <> c -> exists x rs, split_on c (String a s) = String a x :: rs /\ split_on c s = x :: rs.
Proof.
  intros Hne. cbn. destruct (ascii_dec a c); [done|].
  destruct s as [|b s]; cbn; [eauto|].
  destruct (ascii_dec b c); [eauto|]. destruct (split_on c s); eauto.
Qed.

Lemma split_on_not_nil c s : split_on c s <> [].
Proof. destruct s as [|a s]; cbn; [done|]. destruct (ascii_dec a c); [done|]. by case_match. Qed.

Lemma split_on_no_char c s : no_char c s = true -> split_on c s = [s].
Proof.
  induction s as [|a s IH]; [done|]. cbn. intros [Ha Hs]%andb_true_iff.
  destruct (ascii_dec a c); [subst; by rewrite bool_decide_true in Ha|]. by rewrite IH.
Qed.

Lemma concat_split_on c s : String.concat (String c EmptyString) (split_on c s) = s.
Proof.
  induction s as [|a s IH]; [done|].
  destruct (ascii_dec a c) as [->|Hne].
  - cbn [split_on]. destruct (ascii_dec c c); [|done]. pose proof (split_on_not_nil c s).
    destruct (split_on c s) as [|x rs] eqn:E; [done|]. rewrite string_concat_cons2, IH. done.
  - destruct (split_on_cons_ne c a s Hne) as (x & rs & -> & E). rewrite E in IH.
    destruct rs as [|y rs]; [cbn in *; by rewrite IH|].
    rewrite string_concat_cons2 in IH |- *. by rewrite <- IH.
Qed.

Lemma normalize_rev_plain acc segs :
  forallb plain_seg segs = true -> normalize_rev acc segs = Some (reverse segs ++ acc).
Proof.
  revert acc; induction segs as [|x segs IH]; intros acc; [done|].
  cbn [normalize_rev forallb]. intros [Hx Hs]%andb_true_iff. unfold plain_seg in Hx.
  destruct (String.eqb x "") eqn:E1, (String.eqb x ".") eqn:E2, (String.eqb x "..") eqn:E3;
    cbn in Hx; try done.
  cbn [orb]. rewrite IH by done. rewrite reverse_cons, <- app_assoc. reflexivity.
Qed.

Lemma normalize_plain segs : forallb plain_seg segs = true -> normalize segs = Some segs.
Proof.
  intros H. unfold normalize. rewrite normalize_rev_plain by done. cbn.
  by rewrite app_nil_r, reverse_involutive.
Qed.

(** Decoding leaves a string without [%] as it is. *)
Lemma decode_cons_other (c : ascii) (s : string) :
  c <> "%"%char -> decodeURIComponent (String c s) = String c <$> decodeURIComponent s.
Proof. intros Hc. destruct c as [[] [] [] [] [] [] [] []]; try done. Qed.

Lemma decode_no_pct s : no_char "%" s = true -> decodeURIComponent s = Some s.
Proof.
  induction s as [|a s IH]; [done|]. unfold no_char; cbn [string_forall]. intros [Ha Hs]%andb_true_iff.
  rewrite decode_cons_other by (intros ->; by rewrite bool_decide_true in Ha).
  by rewrite IH.
Qed.

Lemma split_on_app c s t :
  no_char c s = true -> split_on c (s ++ String c t) = s :: split_on c t.
Proof.
  induction s as [|a s IH].
  { intros _. simpl. destruct (ascii_dec c c); [done | congruence]. }
  unfold no_char; simpl.
  intros [Ha Hs]%andb_true_iff. rewrite IH by done.
  destruct (ascii_dec a c); [subst; by rewrite bool_decide_true in Ha | done].
Qed.

Lemma split_on_single_empty c s : split_on c s = [EmptyString] -> s = EmptyString.
Proof.
  destruct s as [|a s]; [done|]. cbn. pose proof (split_on_not_nil c s).
  destruct (ascii_dec a c); [by intros [=] |]. by case_match.
Qed.

Lemma strip_trailing_nil segs : segs <> [] -> strip_trailing segs = [] -> segs = [EmptyString].
Proof.
  unfold strip_trailing. destruct segs as [|x [|y rs]]; cbn; try done.
  - by destruct x.
  - destruct (last (y :: rs)) as [[|??]|]; [| done | done]. by destruct rs.
Qed.

(** The pattern ["/"] matches the path ["/"] only. *)
Lemma route_match_root p raw : route_match "/" p = Some raw -> p = "/".
Proof.
  unfold route_match. destruct p as [|c rest]; [done|]. cbn [path_segments].
  destruct (ascii_dec c "/") as [->|]; [|done].
  pose proof (split_on_not_nil "/" rest).
  destruct (strip_trailing (split_on "/" rest)) eqn:E; [|done].
  intros _. apply strip_trailing_nil, split_on_single_empty in E; [by subst | done].
Qed.

Lemma split_on_cons_sep c s : split_on c (String c s) = EmptyString :: split_on c s.
Proof. cbn [split_on]. by destruct (ascii_dec c c). Qed.

(** A path whose last segment is not empty does not end with a slash. *)
Lemma ends_with_slash_last p x :
  last (split_on "/" p) = Some x -> x <> EmptyString -> ends_with_slash (String "/" p) = false.
Proof.
  intros Hx Hne. unfold ends_with_slash. rewrite split_on_cons_sep.
  pose proof (split_on_not_nil "/" p). destruct (split_on "/" p) as [|y ys]; [done|].
  change (last ("" :: y :: ys)) with (last (y :: ys)). rewrite Hx. by destruct x.
Qed.

Lemma is_get_not_options m : is_get m = true -> String.eqb m "OPTIONS" = false.
Proof. unfold is_get. intros [->%String.eqb_eq | ->%String.eqb_eq]%orb_true_iff; done. Qed.

(** A [GET] or [HEAD] without a body passes [cors] and [express.json]
    and reaches [express.static]. *)
Lemma serve_get m p files :
  is_get m = true ->
  serve files (mkHttp m p None) =
  match serve_static files "." m p with
  | Some o => o
  | None => dispatch files (file_routes ++ api_routes) (mkHttp m p None)
  end.
Proof.
  intros Hm. unfold serve, app_stack, middleware.
  cbn [app dispatch run_layer]. unfold cors_layer, json_layer. cbn [h_method h_body].
  by rewrite is_get_not_options.
Qed.

Lemma serve_static_plain files m f :
  is_get m = true -> plain_file f = true ->
  serve_static files "." m ("/" ++ f) =
  if has_file files f then Some (Static f)
  else if is_dir files f then Some (Redirect ("/" ++ f ++ "/")%string) else None.
Proof.
  intros Hm Hf. unfold plain_file in Hf. apply andb_true_iff in Hf as [[Hpct Hsegs]%andb_true_iff Hlast].
  change ("/" ++ f)%string with (String "/" f). unfold serve_static. rewrite Hm. cbn [negb].
  rewrite decode_no_pct by (unfold no_char; cbn; exact Hpct). cbn [path_segments].
  destruct (ascii_dec "/" "/"); [|done]. rewrite normalize_plain, concat_split_on by done.
  assert (Hend : ends_with_slash (String "/" f) = false).
  { pose proof (split_on_not_nil "/" f).
    destruct (last (split_on "/" f)) as [x|] eqn:Ex; [|by apply last_None in Ex].
    apply (ends_with_slash_last _ x Ex). intros ->.
    apply last_Some_elem_of, list_elem_of_In in Ex.
    by pose proof (proj1 (forallb_forall _ _) Hsegs _ Ex). }
  rewrite Hend.
  assert (Hl : match last (split_on "/" f) with Some x => is_dot_part x | None => false end = false).
  { destruct (last (split_on "/" f)) as [x|] eqn:Ex; [|done].
    apply last_Some_elem_of, list_elem_of_In in Ex.
    apply negb_true_iff. exact (proj1 (forallb_forall _ _) Hlast _ Ex). }
  rewrite Hl. done.
Qed.

Lemma string_forall_impl (f g : ascii -> bool) s :
  (forall a, f a = true -> g a = true) -> string_forall f s = true -> string_forall g s = true.
Proof. intros Hfg. induction s as [|a s IH]; cbn; [done|]. intros [? ?]%andb_true_iff. rewrite Hfg, IH; done. Qed.

(** An encoded component has no slash, is not empty when the component
    is not, and decodes back. *)
Lemma encoded_segment d :
  d <> EmptyString ->
  no_char "/" (encodeURIComponent d) = true /\ encodeURIComponent d <> EmptyString /\
  decodeURIComponent (encodeURIComponent d) = Some d.
Proof.
  intros Hd. split_and!.
  - apply (string_forall_impl no_delimiter); [| apply encodeURIComponent_no_delimiter].
    intros a Ha. unfold no_delimiter in Ha. apply negb_true_iff. apply negb_true_iff in Ha.
    apply bool_decide_eq_false. apply bool_decide_eq_false in Ha. intros ->. apply Ha. set_solver.
  - intros He. pose proof (decode_encodeURIComponent d) as Hdec. rewrite He in Hdec. naive_solver.
  - apply decode_encodeURIComponent.
Qed.

(** The paths of the routes without parameters reach their route. *)
Lemma serve_fixed_route files m p a :
  is_get m = true ->
  In (p, a) [("/embed", ASendFile "embed.html"); ("/api/users", AUsers);
             ("/api/companies", ACompanies); ("/api/config", AConfig)] ->
  serve_static files "." m p = None ->
  serve files (mkHttp m p None) = Route a [].
Proof.
  intros Hm Hin Hs. rewrite serve_get, Hs by done.
  unfold file_routes, api_routes. cbn [app dispatch run_layer]. unfold get_layer.
  cbn [h_method h_path]. rewrite Hm.
  destruct Hin as [[= <- <-]|[[= <- <-]|[[= <- <-]|[[= <- <-]|[]]]]]; reflexivity.
Qed.

(** A route answer comes from a route layer of the stack whose pattern
    matches the path, with the decoded values of its parameters. *)
Lemma run_layer_route files l req a ps :
  run_layer files l req = Some (Route a ps) ->
  exists pat raw, l = LGet pat a /\ route_match pat (h_path req) = Some raw /\
                  mapM decodeURIComponent raw = Some ps.
Proof.
  destruct l as [| |root|pat a']; cbn.
  - unfold cors_layer. case_match; congruence.
  - unfold json_layer. repeat case_match; congruence.
  - unfold serve_static. repeat case_match; congruence.
  - unfold get_layer. repeat case_match; intros; simplify_eq; eauto.
Qed.

Lemma dispatch_route files ls req a ps :
  dispatch files ls req = Route a ps ->
  exists pat raw, In (LGet pat a) ls /\ route_match pat (h_path req) = Some raw /\
                  mapM decodeURIComponent raw = Some ps.
Proof.
  induction ls as [|l ls IH]; cbn; [discriminate|].
  destruct (run_layer files l req) as [o|] eqn:Hl.
  - intros ->. destruct (run_layer_route files l req a ps Hl) as (pat & raw & -> & ?). eauto 10.
  - intros H. destruct (IH H) as (pat & raw & ? & ?). eauto 10.
Qed.

(** A pattern gives one value per parameter. *)
Lemma match_segs_length pat segs raw :
  match_segs pat segs = Some raw -> length raw = length (List.filter (fun x => match x with SParam => true | _ => false end) pat).
Proof.
  revert segs raw; induction pat as [|[l|] pat IH]; intros [|s segs] raw; cbn; try congruence.
  - by intros [= <-].
  - case_match; [apply IH | discriminate].
  - case_match; [discriminate|]. intros (raw' & Hr & ->)%fmap_Some. cbn. f_equal. by apply (IH segs).
Qed.

(** The logo route hands its callback exactly one parameter. *)
Lemma serve_logo_one_param files req ps : serve files req = Route ALogo ps -> exists d, ps = [d].
Proof.
  intros (pat & raw & Hin & Hm & Hd)%dispatch_route.
  assert (pat = "/api/logo/:domain") as ->.
  { unfold app_stack, middleware, file_routes, api_routes in Hin. cbn in Hin. naive_solver. }
  unfold route_match in Hm. destruct (path_segments (h_path req)); [|discriminate].
  apply match_segs_length in Hm. change (length raw = 1) in Hm.
  apply mapM_Some in Hd. apply Forall2_length in Hd.
  destruct ps as [|d [|]]; cbn in Hd; [lia | by exists d | lia].
Qed.

(** ** What the application answers *)

(** *** C21 (safety)
    [express.static('.')] comes before every route and serves the whole
    working directory, not a public subdirectory: every file whose name
    the browser can send as it is and has no dot segment, [server.js]
    and [package.json] included, is served to a [GET] or [HEAD], under
    any version of [send]'s dotfile rule. *)
Theorem static_serves_every_plain_file files m f :
  is_get m = true -> has_file files f = true -> plain_file f = true ->
  serve files (mkHttp m ("/" ++ f) None) = Static f.
Proof. intros Hm Hf Hp. by rewrite serve_get, serve_static_plain, Hf. Qed.

(** *** C24 (safety)
    A dotfile at the top of the directory, such as [.env], is never
    served, whatever the directory holds: the static layer ignores it
    and no route matches it, so the answer is Express's 404. *)
Theorem dotfiles_not_served files m y :
  is_get m = true -> y <> EmptyString -> no_char "/" y = true -> no_char "%" y = true ->
  serve files (mkHttp m (String "/" (String "." y)) None) = NotFound.
Proof.
  intros Hm Hy Hslash Hpct.
  assert (Hseg : split_on "/" (String "." y) = [String "." y]).
  { apply split_on_no_char. unfold no_char in *. cbn. by rewrite Hslash. }
  assert (Hs : serve_static files "." m (String "/" (String "." y)) = None).
  { unfold serve_static. rewrite Hm. cbn [negb].
    rewrite decode_no_pct by (unfold no_char in *; cbn; by rewrite Hpct).
    cbn [path_segments]. destruct (ascii_dec "/" "/"); [|done]. rewrite Hseg.
    destruct (plain_seg (String "." y)) eqn:Hp.
    - rewrite normalize_plain by (cbn; by rewrite Hp).
      rewrite (ends_with_slash_last _ (String "." y)) by (rewrite ?Hseg; done).
      cbn. by destruct y.
    - destruct y as [|a y]; [done|]. unfold plain_seg in Hp. cbn in Hp.
      destruct (Ascii.eqb a ".") eqn:Ea; [|done]. destruct y; [|done].
      by apply Ascii.eqb_eq in Ea as ->. }
  rewrite serve_get, Hs by done. unfold file_routes, api_routes.
  cbn [app dispatch run_layer]. unfold get_layer, route_match. cbn [h_method h_path path_segments].
  rewrite Hm. destruct (ascii_dec "/" "/"); [|done]. rewrite Hseg. reflexivity.
Qed.

(** *** C23 (equivalence)
    The route [GET /] of line 59 is dead code when the directory holds
    [index.html]: the static layer answers [/] with that file first, and
    the application without the route answers every request as the
    application with it does. *)
Theorem root_route_redundant files r :
  has_file files "index.html" = true ->
  dispatch files app_stack r = dispatch files (middleware ++ tail file_routes ++ api_routes) r.
Proof.
  intros Hidx. unfold app_stack, middleware, file_routes. cbn [app tail dispatch].
  destruct (run_layer files LCors r); [done|]. destruct (run_layer files LJson r); [done|].
  destruct (run_layer files (LStatic ".") r) eqn:Hs; [done|].
  cbn [run_layer] in Hs |- *. unfold get_layer at 1.
  destruct (is_get (h_method r)) eqn:Hm; [|done].
  destruct (route_match "/" (h_path r)) eqn:Hr; [|done].
  apply route_match_root in Hr. rewrite Hr in Hs. unfold serve_static in Hs.
  rewrite Hm in Hs. cbn in Hs. by rewrite Hidx in Hs.
Qed.

(** *** C22 (roundtrip)
    The logo route receives exactly the domain the client encoded: a
    [GET] of [/api/logo/] followed by [encodeURIComponent(d)] passes the
    middleware and the five routes before it, and reaches the logo
    handler with [req.params.domain = d], unless a file of the
    directory answers it first. *)
Theorem logo_route_receives_domain files m d :
  is_get m = true -> d <> EmptyString ->
  serve_static files "." m ("/api/logo/" ++ encodeURIComponent d) = None ->
  serve files (mkHttp m ("/api/logo/" ++ encodeURIComponent d) None) = Route ALogo [d].
Proof.
  intros Hm Hd Hs. destruct (encoded_segment d Hd) as (Hslash & Hne & Hdec).
  rewrite serve_get, Hs by done.
  generalize dependent (encodeURIComponent d). intros e Hs Hslash Hne Hdec.
  assert (Hseg : split_on "/" ("api/logo/" ++ e) = ["api"; "logo"; e]).
  { change ("api/logo/" ++ e)%string with ("api" ++ String "/" ("logo" ++ String "/" e))%string.
    rewrite !split_on_app by done. by rewrite split_on_no_char. }
  change ("/api/logo/" ++ e)%string with (String "/" ("api/logo/" ++ e)).
  unfold file_routes, api_routes. cbn [app dispatch run_layer]. unfold get_layer, route_match.
  cbn [h_method h_path path_segments]. rewrite Hm. destruct (ascii_dec "/" "/"); [|done].
  rewrite Hseg. destruct e as [|c e]; [done|]. cbv -[decodeURIComponent]. by rewrite Hdec.
Qed.

(** [/embed] and the three fixed API paths reach their route, for [GET]
    and [HEAD], unless a file of the directory answers them first. *)
Theorem api_routes_reached files m p a :
  is_get m = true ->
  In (p, a) [("/embed", ASendFile "embed.html"); ("/api/users", AUsers);
             ("/api/companies", ACompanies); ("/api/config", AConfig)] ->
  serve_static files "." m p = None ->
  serve files (mkHttp m p None) = Route a [].
Proof. apply serve_fixed_route. Qed.

(** *** C25 (error)
    The middleware answers before any route: an [OPTIONS] request is a
    CORS preflight, and any other request whose JSON body does not parse
    or is not an object or an array is a 400, even on the routes that
    never read a body. *)
Theorem middleware_answers_first files r :
  (h_method r = "OPTIONS" -> serve files r = Preflight) /\
  (forall ct t, h_method r <> "OPTIONS" -> h_body r = Some (ct, t) ->
     media_type ct = "application/json" ->
     (t = BInvalid \/ exists v, t = BJson v /\ strict_ok v = false) ->
     serve files r = BadBody).
Proof.
  unfold serve, app_stack, middleware. cbn [app dispatch run_layer]. unfold cors_layer, json_layer.
  split.
  - intros ->. done.
  - intros ct t Hm Hb Hct Ht. rewrite Hb, Hct.
    destruct (String.eqb (h_method r) "OPTIONS") eqn:E; [by apply String.eqb_eq in E|].
    destruct Ht as [-> | (v & -> & Hv)]; [done|]. by rewrite Hv.
Qed.

(** ** Witnesses *)

Lemma static_serves_every_plain_file_witness :
  is_get "GET" = true /\ has_file sample_files "server.js" = true /\
  plain_file "server.js" = true /\
  serve sample_files (mkHttp "GET" ("/" ++ "server.js") None) = Static "server.js".
Proof.
  split_and!; [reflexivity.. |].
  apply static_serves_every_plain_file; reflexivity.
Defined.

Lemma dotfiles_not_served_witness :
  is_get "GET" = true /\ "env" <> EmptyString /\ no_char "/" "env" = true /\
  no_char "%" "env" = true /\
  serve sample_files (mkHttp "GET" (String "/" (String "." "env")) None) = NotFound.
Proof.
  split_and!; [reflexivity | discriminate | reflexivity | reflexivity |].
  apply dotfiles_not_served; [reflexivity | discriminate | reflexivity | reflexivity].
Defined.

Lemma root_route_redundant_witness :
  has_file sample_files "index.html" = true /\
  dispatch sample_files app_stack (mkHttp "GET" "/" None) =
  dispatch sample_files (middleware ++ tail file_routes ++ api_routes) (mkHttp "GET" "/" None).
Proof. split; [reflexivity | apply root_route_redundant; reflexivity]. Defined.

Lemma logo_route_receives_domain_witness :
  is_get "HEAD" = true /\ "fortium.com" <> EmptyString /\
  serve_static sample_files "." "HEAD" ("/api/logo/" ++ encodeURIComponent "fortium.com") = None /\
  serve sample_files (mkHttp "HEAD" ("/api/logo/" ++ encodeURIComponent "fortium.com") None) =
    Route ALogo ["fortium.com"].
Proof.
  split_and!; [reflexivity | discriminate | vm_compute; reflexivity |].
  apply logo_route_receives_domain; [reflexivity | discriminate | vm_compute; reflexivity].
Defined.

Lemma api_routes_reached_witness :
  is_get "GET" = true /\ serve_static sample_files "." "GET" "/api/users" = None /\
  serve sample_files (mkHttp "GET" "/api/users" None) = Route AUsers [].
Proof.
  split_and!; [reflexivity | vm_compute; reflexivity |].
  apply api_routes_reached; [reflexivity | cbn; tauto | vm_compute; reflexivity].
Defined.

Lemma middleware_answers_first_witness :
  serve sample_files (mkHttp "OPTIONS" "/api/users" None) = Preflight /\
  serve sample_files (mkHttp "GET" "/api/config" (Some ("application/json", BInvalid))) = BadBody.
Proof.
  split.
  - apply (proj1 (middleware_answers_first sample_files (mkHttp "OPTIONS" "/api/users" None))).
    reflexivity.
  - apply (proj2 (middleware_answers_first sample_files (mkHttp "GET" "/api/config"
             (Some ("application/json", BInvalid)))) "application/json" BInvalid);
      [discriminate | reflexivity | vm_compute; reflexivity | by left].
Defined.

End Routing.
