(* ===== verification/Startup.v ===== *)
(** Start-up of [src/server.js]: [require('dotenv').config()] (line 4),
    which fills the variables [process.env] lacks from [.env], the port
    (line 7) and the lines
    [app.listen]'s callback logs (lines 156-165), among them the
    environment check, which reports five variables as set or missing.

    The check reads the same [process.env] as the handlers.  It reports
    [FORTIUM_API_KEY], which no request uses, and does not report
    [FORTIUM_TOKEN_ENDPOINT], [FORTIUM_AUDIENCE] and
    [LOGODEV_SEARCH_TOKEN], which the token and logo requests need. *)

From S2P Require Import Prelude JsValue Prog TokenCache Uri Handlers.
Import Js Prog TokenCache Handlers.

Module Startup.

(** [require('dotenv').config()] (line 4), with the lines of [.env]
    already read as pairs: each variable of the file that [process.env]
    does not have is added, a later line for the same name replacing an
    earlier one; a variable [process.env] has is kept ([override] is
    false by default). *)
Definition dotenv_config (file : list (string * string)) (E : gmap string string) : gmap string string :=
  foldl (fun acc '(k, v) => match E !! k with Some _ => acc | None => <[k:=v]> acc end) E file.

(** [process.env.PORT || 3000] (line 7). *)
Definition PORT (E : gmap string string) : jsval :=
  let v := env_get E "PORT" in if truthy v then v else JNum (Int 3000).

(** [process.env.X ? '✓ Set' : '✗ Missing'] (lines 159-163). *)
Definition set_or_missing (v : jsval) : string := if truthy v then "✓ Set" else "✗ Missing".

(** The variables the check reports, in the order of lines 159-163. *)
Definition checked_vars : list string :=
  ["FORTIUM_API_URL"; "FORTIUM_CLIENT_ID"; "FORTIUM_CLIENT_SECRET"; "FORTIUM_API_KEY";
   "LOGODEV_TOKEN"].

Definition check_line (E : gmap string string) (x : string) : log_line :=
  Info [("- " ++ x ++ ":")%string; set_or_missing (env_get E x)].

Definition newline : string := String (ascii_of_nat 10) EmptyString.
Definition dquote : string := String (ascii_of_nat 34) EmptyString.

(** The callback of [app.listen(PORT, ...)] (lines 156-165). *)
Definition startup_log (E : gmap string string) : list log_line :=
  [Info [("🚀 Fortium Partners Logo Wall running on http://localhost:" ++ to_string (PORT E))%string];
   Info [(newline ++ "📋 Environment check:")%string]] ++
  (check_line E <$> checked_vars) ++
  [Info [(newline ++ "💡 Select " ++ dquote ++ "Partner Connect API" ++ dquote ++
          " in the data source dropdown to test with live data")%string]].

(** The variables the requests read and the check does not report. *)
Definition unchecked_vars : list string :=
  ["FORTIUM_TOKEN_ENDPOINT"; "FORTIUM_AUDIENCE"; "LOGODEV_SEARCH_TOKEN"].

(** ** Lemmas *)

Lemma env_get_insert_ne E k k' v : k <> k' -> env_get (<[k:=v]> E) k' = env_get E k'.
Proof. intros Hne. unfold env_get. by rewrite lookup_insert_ne. Qed.

Lemma env_get_delete_ne E k k' : k <> k' -> env_get (delete k E) k' = env_get E k'.
Proof. intros Hne. unfold env_get. by rewrite lookup_delete_ne. Qed.

(** The environment after [dotenv]: the value of [process.env], or
    else the last value the file gives. *)
Lemma dotenv_config_lookup file E k :
  dotenv_config file E !! k =
  match E !! k with
  | Some v => Some v
  | None => last (snd <$> List.filter (fun kv => String.eqb kv.1 k) file)
  end.
Proof.
  unfold dotenv_config.
  induction file as [|[k' v] file IH] using rev_ind; [cbn; by destruct (E !! k)|].
  rewrite foldl_app, List.filter_app. cbn.
  destruct (E !! k') eqn:Hk'.
  - rewrite IH. destruct (String.eqb_spec k' k) as [->|]; [by rewrite Hk' | by rewrite app_nil_r].
  - destruct (String.eqb_spec k' k) as [->|Hne].
    + rewrite lookup_insert_eq, Hk'. rewrite fmap_app. cbn [fmap list_fmap snd]. by rewrite last_snoc.
    + rewrite lookup_insert_ne, IH by done. by rewrite app_nil_r.
Qed.

(** ** What the start-up logs *)

(** *** C32 (functional)
    The start-up log, on the environment [dotenv] leaves (a variable of
    [process.env] is kept, a missing one takes the last value [.env]
    gives), names the port [PORT || 3000] and reports each of the five
    checked variables as [✓ Set] exactly when it is set to a non-empty
    string. *)
Theorem startup_report E file :
  let E' := dotenv_config file E in
  head (startup_log E') =
    Some (Info [("🚀 Fortium Partners Logo Wall running on http://localhost:" ++
                 match E' !! "PORT" with
                 | Some s => if String.eqb s "" then "3000" else s
                 | None => "3000"
                 end)%string]) /\
  forall x, In x checked_vars ->
    check_line E' x ∈ startup_log E' /\
    (set_or_missing (env_get E' x) = "✓ Set" <-> exists s, E' !! x = Some s /\ s <> "") /\
    E' !! x = match E !! x with
              | Some v => Some v
              | None => last (snd <$> List.filter (fun kv => String.eqb kv.1 x) file)
              end.
Proof.
  cbn zeta. generalize (dotenv_config_lookup file E). generalize (dotenv_config file E). intros E' HE'.
  split.
  - unfold startup_log, PORT, env_get. cbn [head app].
    destruct (E' !! "PORT") as [s|]; [|done]. cbn. by destruct (String.eqb s "").
  - intros x Hx. split_and!; [| | apply HE'].
    + unfold startup_log. apply elem_of_app. right. apply elem_of_app. left.
      apply list_elem_of_fmap_2, list_elem_of_In, Hx.
    + unfold set_or_missing, env_get. destruct (E' !! x) as [s|].
      * destruct (truthy _) eqn:Ht.
        -- apply truthy_str in Ht. naive_solver.
        -- split; [discriminate|]. intros (s' & [= <-] & Hs). apply truthy_str in Hs. congruence.
      * split; [discriminate | naive_solver].
Qed.

(** *** C30 (error)
    The environment check does not see the variables the token and logo
    requests need: changing [FORTIUM_TOKEN_ENDPOINT], [FORTIUM_AUDIENCE]
    or [LOGODEV_SEARCH_TOKEN], or removing it, leaves the start-up log
    as it is, while without [FORTIUM_TOKEN_ENDPOINT] the token request
    goes to the URL ["undefined"]. *)
Theorem env_check_blind_spots E k v :
  In k unchecked_vars ->
  startup_log (<[k:=v]> E) = startup_log E /\ startup_log (delete k E) = startup_log E /\
  (E !! "FORTIUM_TOKEN_ENDPOINT" = None -> req_url (token_request E) = "undefined").
Proof.
  intros Hk. split_and!.
  - destruct Hk as [<-|[<-|[<-|[]]]]; unfold startup_log, PORT, check_line, checked_vars;
      cbn [fmap list_fmap]; rewrite !env_get_insert_ne by discriminate; reflexivity.
  - destruct Hk as [<-|[<-|[<-|[]]]]; unfold startup_log, PORT, check_line, checked_vars;
      cbn [fmap list_fmap]; rewrite !env_get_delete_ne by discriminate; reflexivity.
  - intros Hnone. unfold token_request, env_get. by rewrite Hnone.
Qed.

(** *** C31 (functional)
    The check reports [FORTIUM_API_KEY], but no handler reads it: the
    token cache, the partner handlers and the logo handler are the same
    programs whatever its value. *)
Theorem api_key_unused E v path label msg domain :
  let E' := <["FORTIUM_API_KEY":=v]> E in
  getAccessToken E' = getAccessToken E /\
  @partner_get (cache_token_source E') E' path label msg =
    @partner_get (cache_token_source E) E path label msg /\
  api_logo E' domain = api_logo E domain.
Proof.
  cbn zeta. unfold partner_get, get_token, cache_token_source, api_logo, logo_request,
    partner_request, getAccessToken, refresh, token_request, token_request_body.
  rewrite !env_get_insert_ne by discriminate. done.
Qed.

(** ** Witnesses *)

Lemma startup_report_witness :
  In "FORTIUM_API_URL" checked_vars /\
  set_or_missing (env_get (dotenv_config [("FORTIUM_API_URL", "https://partner.example")] ∅) "FORTIUM_API_URL")
    = "✓ Set".
Proof.
  split; [cbn; tauto |].
  apply (proj1 (proj2 (proj2 (startup_report ∅ [("FORTIUM_API_URL", "https://partner.example")])
                  "FORTIUM_API_URL" ltac:(cbn; tauto)))).
  by exists "https://partner.example".
Defined.

Lemma env_check_blind_spots_witness :
  In "FORTIUM_TOKEN_ENDPOINT" unchecked_vars /\
  startup_log (<["FORTIUM_TOKEN_ENDPOINT":="https://auth.example/token"]> ∅) = startup_log ∅ /\
  req_url (token_request ∅) = "undefined".
Proof.
  split_and!; [by left | |].
  - apply (env_check_blind_spots ∅ "FORTIUM_TOKEN_ENDPOINT" "https://auth.example/token"). by left.
  - apply (env_check_blind_spots ∅ "FORTIUM_TOKEN_ENDPOINT" ""); [by left | reflexivity].
Defined.

End Startup.
