(* ===== verification/Json.v ===== *)
(** JSON texts: [JSON.stringify], which [res.json] applies to every
    answer body of the handlers (lines 80-154), and [JSON.parse], which
    [response.json()] applies to the upstream bodies.

    [stringify] follows the ECMAScript algorithm on the values of the
    model: [undefined] is not serialised (a property whose value is
    [undefined] is left out, an array element becomes [null]), NaN
    becomes [null], an integer its decimal digits, a string is quoted
    with the escapes of QuoteJSONString, and an object lists its own
    properties in the order JavaScript gives them: the keys that are
    array indices first, in increasing order, then the other keys in
    the order they were first added, each with its last value.

    [parse_json] reads a JSON text on the strings of the model: white
    space, the literals, integers (a leading zero followed by a digit is
    refused), strings with their escapes ([\u] escapes above [00ff] are
    outside the model and refused), arrays and objects, in which it
    keeps the members in the order of the text.  A number with a
    fraction or an exponent is outside the model and refused.

    [json_typed] is the type of what [parse_json] gives (no [undefined],
    no NaN at any depth); [text_answers] says that every upstream
    response that arrives has a text for a body. *)

From S2P Require Import Prelude JsValue Prog TokenCache Uri Handlers.
Import Js Prog TokenCache Handlers.

Module Json.

(** ** Printing *)

Definition dquote_char : ascii := ascii_of_nat 34.
Definition bslash_char : ascii := ascii_of_nat 92.

Definition hex_lower (n : nat) : ascii :=
  if n <? 10 then ascii_of_nat (48 + n) else ascii_of_nat (87 + n).

(** The escape of one code unit in QuoteJSONString. *)
Definition escape_char (c : ascii) : string :=
  let n := nat_of_ascii c in
  if n =? 8 then String bslash_char "b"
  else if n =? 9 then String bslash_char "t"
  else if n =? 10 then String bslash_char "n"
  else if n =? 12 then String bslash_char "f"
  else if n =? 13 then String bslash_char "r"
  else if n =? 34 then String bslash_char (String dquote_char EmptyString)
  else if n =? 92 then String bslash_char (String bslash_char EmptyString)
  else if n <? 32 then
    String bslash_char (String "u" (String "0" (String "0"
      (String (hex_lower (n / 16)) (String (hex_lower (n mod 16)) EmptyString)))))
  else String c EmptyString.

Fixpoint escape (s : string) : string :=
  match s with EmptyString => EmptyString | String c s' => (escape_char c ++ escape s')%string end.

Definition quote (s : string) : string := String dquote_char (escape s ++ String dquote_char EmptyString).

(** The own property keys of an object, in JavaScript's order. *)
Fixpoint insert_index (k : string) (i : nat) (ks : list (string * nat)) : list (string * nat) :=
  match ks with
  | [] => [(k, i)]
  | (k', j) :: ks' => if i <? j then (k, i) :: ks else (k', j) :: insert_index k i ks'
  end.

Fixpoint own_keys_go (fs : list (string * jsval)) (idx : list (string * nat)) (named : list string)
  : list string :=
  match fs with
  | [] => (fst <$> idx) ++ reverse named
  | (k, _) :: fs' =>
      match key_index k with
      | Some i => if existsb (fun p => String.eqb (fst p) k) idx then own_keys_go fs' idx named
                  else own_keys_go fs' (insert_index k i idx) named
      | None => if existsb (String.eqb k) named then own_keys_go fs' idx named
                else own_keys_go fs' idx (k :: named)
      end
  end.

Definition own_keys (fs : list (string * jsval)) : list string := own_keys_go fs [] [].

Definition join (sep : string) (l : list string) : string := String.concat sep l.

(** The value of the last member named [k], as [obj_lookup] reads it. *)
Definition assoc_last {A} (l : list (string * A)) (k : string) : option A :=
  snd <$> find (fun kv => String.eqb kv.1 k) (List.rev l).

(** The text of the member [k] of an object whose members serialise
    as [ms]: left out when its value is [undefined]. *)
Definition member_text (ms : list (string * option string)) (k : string) : option string :=
  match assoc_last ms k with Some (Some t) => Some (quote k ++ ":" ++ t)%string | _ => None end.

(** [JSON.stringify(v)]; [None] is [undefined].  A number is written
    as its decimal digits, which is what [Number::toString] gives for
    an integer below 10^21; above, it uses an exponent, but no integer
    of that size is a double the model keeps exactly (2^53 < 10^21),
    see "Bounds" in the header of [Prelude.v]. *)
Fixpoint stringify (v : jsval) : option string :=
  match v with
  | JUndefined => None
  | JNull => Some "null"
  | JBool true => Some "true"
  | JBool false => Some "false"
  | JNum NaN => Some "null"
  | JNum (Int z) => Some (pretty z)
  | JStr s => Some (quote s)
  | JArr l =>
      Some ("[" ++ join "," ((fun x => default "null" (stringify x)) <$> l) ++ "]")%string
  | JObj fs =>
      let fix members (fs' : list (string * jsval)) : list (string * option string) :=
        match fs' with [] => [] | (k, x) :: r => (k, stringify x) :: members r end in
      Some ("{" ++ join "," (omap (member_text (members fs)) (own_keys fs)) ++ "}")%string
  end.

(** ** Parsing *)

Definition is_ws (c : ascii) : bool :=
  let n := nat_of_ascii c in (n =? 32) || (n =? 9) || (n =? 10) || (n =? 13).

Fixpoint skip_ws (s : string) : string :=
  match s with String c s' => if is_ws c then skip_ws s' else s | EmptyString => EmptyString end.

Definition is_digit (c : ascii) : bool := let n := nat_of_ascii c in (48 <=? n) && (n <=? 57).

(** The leading digits of [s] read into [acc], their number and the rest. *)
Fixpoint read_digits (s : string) (acc : Z) (n : nat) : Z * nat * string :=
  match s with
  | String c s' => if is_digit c then read_digits s' (10 * acc + (Z.of_nat (nat_of_ascii c) - 48))%Z (S n)
                   else (acc, n, s)
  | EmptyString => (acc, n, s)
  end.

Definition starts_number_tail (s : string) : bool :=
  match s with String c _ => Ascii.eqb c "." || Ascii.eqb c "e" || Ascii.eqb c "E" | _ => false end.

(** An integer: an optional minus sign, then [0] or a digit other than
    [0] followed by digits. *)
Definition parse_number (s : string) : option (Z * string) :=
  let '(neg, s1) := match s with
                    | String c s' => if Ascii.eqb c "-" then (true, s') else (false, s)
                    | EmptyString => (false, s)
                    end in
  match s1 with
  | String c _ =>
      if is_digit c then
        let '(v, n, rest) := read_digits s1 0 0 in
        if (Ascii.eqb c "0" && (1 <? n)) || starts_number_tail rest then None
        else Some (if neg then (- v)%Z else v, rest)
      else None
  | EmptyString => None
  end.

Definition hex_val (c : ascii) : option nat :=
  let n := nat_of_ascii c in
  if (48 <=? n) && (n <=? 57) then Some (n - 48)
  else if (65 <=? n) && (n <=? 70) then Some (n - 55)
  else if (97 <=? n) && (n <=? 102) then Some (n - 87)
  else None.

(** The code unit of a short escape [\x]. *)
Definition short_escape (e : ascii) : option ascii :=
  let n := nat_of_ascii e in
  if n =? 34 then Some dquote_char else if n =? 92 then Some bslash_char
  else if n =? 47 then Some "/"%char else if n =? 98 then Some (ascii_of_nat 8)
  else if n =? 102 then Some (ascii_of_nat 12) else if n =? 110 then Some (ascii_of_nat 10)
  else if n =? 114 then Some (ascii_of_nat 13) else if n =? 116 then Some (ascii_of_nat 9)
  else None.

(** The characters of a string literal up to its closing quote. *)
Fixpoint parse_chars (s : string) : option (string * string) :=
  match s with
  | EmptyString => None
  | String c s' =>
      if Ascii.eqb c dquote_char then Some (EmptyString, s')
      else if Ascii.eqb c bslash_char then
        match s' with
        | String "u" (String h1 (String h2 (String h3 (String h4 r)))) =>
            match hex_val h1, hex_val h2, hex_val h3, hex_val h4 with
            | Some 0, Some 0, Some a, Some b =>
                (fun '(t, r') => (String (ascii_of_nat (16 * a + b)) t, r')) <$> parse_chars r
            | _, _, _, _ => None
            end
        | String e r =>
            match short_escape e with
            | Some x => (fun '(t, r') => (String x t, r')) <$> parse_chars r
            | None => None
            end
        | EmptyString => None
        end
      else if nat_of_ascii c <? 32 then None
      else (fun '(t, r') => (String c t, r')) <$> parse_chars s'
  end.

(** The first non-blank character of [s] and what follows it. *)
Definition next_char (s : string) : option (ascii * string) :=
  match skip_ws s with String c r => Some (c, r) | EmptyString => None end.

Fixpoint parse_value (fuel : nat) (s : string) : option (jsval * string) :=
  match fuel with
  | 0 => None
  | S f =>
      match skip_ws s with
      | String "n" (String "u" (String "l" (String "l" r))) => Some (JNull, r)
      | String "t" (String "r" (String "u" (String "e" r))) => Some (JBool true, r)
      | String "f" (String "a" (String "l" (String "s" (String "e" r)))) => Some (JBool false, r)
      | String c r =>
          if Ascii.eqb c dquote_char then (fun '(t, r') => (JStr t, r')) <$> parse_chars r
          else if Ascii.eqb c "[" then
            match next_char r with
            | Some (c', r') => if Ascii.eqb c' "]" then Some (JArr [], r')
                               else (fun '(l, r'') => (JArr l, r'')) <$> parse_elems f r
            | None => None
            end
          else if Ascii.eqb c "{" then
            match next_char r with
            | Some (c', r') => if Ascii.eqb c' "}" then Some (JObj [], r')
                               else (fun '(l, r'') => (JObj l, r'')) <$> parse_members f r
            | None => None
            end
          else (fun '(z, r') => (JNum (Int z), r')) <$> parse_number (String c r)
      | EmptyString => None
      end
  end
with parse_elems (fuel : nat) (s : string) : option (list jsval * string) :=
  match fuel with
  | 0 => None
  | S f =>
      match parse_value f s with
      | Some (v, r) =>
          match next_char r with
          | Some (c, r') =>
              if Ascii.eqb c "," then (fun '(l, r'') => (v :: l, r'')) <$> parse_elems f r'
              else if Ascii.eqb c "]" then Some ([v], r')
              else None
          | None => None
          end
      | None => None
      end
  end
with parse_members (fuel : nat) (s : string) : option (list (string * jsval) * string) :=
  match fuel with
  | 0 => None
  | S f =>
      match next_char s with
      | Some (c, r) =>
          if Ascii.eqb c dquote_char then
            match parse_chars r with
            | Some (k, r1) =>
                match next_char r1 with
                | Some (c1, r2) =>
                    if Ascii.eqb c1 ":" then
                      match parse_value f r2 with
                      | Some (v, r3) =>
                          match next_char r3 with
                          | Some (c3, r4) =>
                              if Ascii.eqb c3 "," then
                                (fun '(l, r5) => ((k, v) :: l, r5)) <$> parse_members f r4
                              else if Ascii.eqb c3 "}" then Some ([(k, v)], r4)
                              else None
                          | None => None
                          end
                      | None => None
                      end
                    else None
                | None => None
                end
            | None => None
            end
          else None
      | None => None
      end
  end.

(** [JSON.parse(text)]: a value, then only white space.  Each value,
    element or member read uses up one unit of fuel, and each takes at
    least one character, so the length of the text plus one is enough;
    [need_le_length] proves it for the texts [stringify] writes. *)
Definition parse_json (text : string) : option jsval :=
  match parse_value (S (String.length text)) text with
  | Some (v, rest) => if String.eqb (skip_ws rest) "" then Some v else None
  | None => None
  end.

(** ** Values the round trip keeps *)

(** A value [JSON.parse] can give back as it is: no [undefined] and no
    NaN anywhere, and objects whose keys are distinct and not array
    indices (JavaScript would list those first). *)
Fixpoint canonical (v : jsval) : bool :=
  match v with
  | JUndefined | JNum NaN => false
  | JNull | JBool _ | JNum (Int _) | JStr _ => true
  | JArr l => forallb canonical l
  | JObj fs =>
      let fix go (fs' : list (string * jsval)) : bool :=
        match fs' with [] => true | (_, x) :: r => canonical x && go r end in
      go fs && bool_decide (NoDup (fst <$> fs)) &&
      forallb (fun kv => match key_index kv.1 with Some _ => false | None => true end) fs
  end.

(** The values [JSON.parse] can give: no [undefined] and no NaN, at any
    depth. *)
Fixpoint json_typed (v : jsval) : bool :=
  match v with
  | JUndefined | JNum NaN => false
  | JNull | JBool _ | JNum (Int _) | JStr _ => true
  | JArr l => forallb json_typed l
  | JObj fs =>
      let fix go (fs' : list (string * jsval)) : bool :=
        match fs' with [] => true | (_, x) :: r => json_typed x && go r end in
      go fs
  end.

(** The fuel [parse_elems] and [parse_members] need for a sequence of
    values that need [ns]. *)
Definition need_seq (ns : list nat) : nat := foldr (fun n acc => S (Nat.max n acc)) 0 ns.

(** The fuel [parse_value] needs for a value. *)
Fixpoint need (v : jsval) : nat :=
  match v with
  | JArr l =>
      S ((fix go (l' : list jsval) : nat :=
            match l' with [] => 0 | x :: r => S (Nat.max (need x) (go r)) end) l)
  | JObj fs =>
      S ((fix go (fs' : list (string * jsval)) : nat :=
            match fs' with [] => 0 | (_, x) :: r => S (Nat.max (need x) (go r)) end) fs)
  | _ => 1
  end.

(** What may follow a value in a text: nothing, a comma or a closing
    bracket. *)
Definition stops (r : string) : bool :=
  match r with
  | EmptyString => true
  | String c _ => Ascii.eqb c "," || Ascii.eqb c "]" || Ascii.eqb c "}"
  end.

(** ** Induction on values with their nested lists *)

Section jsval_ind_nested.
Context (P : jsval -> Prop)
  (Pu : P JUndefined) (Pn : P JNull) (Pb : forall b, P (JBool b)) (Pnum : forall n, P (JNum n))
  (Ps : forall s, P (JStr s)) (Pa : forall l, Forall P l -> P (JArr l))
  (Po : forall fs, Forall (fun kv => P kv.2) fs -> P (JObj fs)).

Fixpoint jsval_ind_nested (v : jsval) : P v :=
  match v with
  | JUndefined => Pu | JNull => Pn | JBool b => Pb b | JNum n => Pnum n | JStr s => Ps s
  | JArr l =>
      Pa l ((fix go (l' : list jsval) : Forall P l' :=
               match l' with [] => Forall_nil_2 _ | x :: r => Forall_cons_2 _ _ _ (jsval_ind_nested x) (go r) end) l)
  | JObj fs =>
      Po fs ((fix go (fs' : list (string * jsval)) : Forall (fun kv => P kv.2) fs' :=
                match fs' with
                | [] => Forall_nil_2 _
                | (k, x) :: r => Forall_cons_2 _ (k, x) _ (jsval_ind_nested x) (go r)
                end) fs)
  end.
End jsval_ind_nested.

(** [parse_value] reads back what [stringify] writes, followed by [r]. *)
Definition roundtrips (v : jsval) : Prop :=
  forall f r, need v <= f -> stops r = true ->
  parse_value f (default "null" (stringify v) ++ r) = Some (v, r).

(** The first character of a number: a digit or a minus sign. *)
Definition number_start (c : ascii) : bool := is_digit c || Ascii.eqb c "-".

(** The texts of the elements of an array. *)
Definition elem_text (x : jsval) : string := default "null" (stringify x).
Definition member_line (kv : string * jsval) : string := (quote kv.1 ++ ":" ++ elem_text kv.2)%string.

(** ** Texts on the wire *)

(** The body [res.json(obj)] sends (Express's [res.json] calls
    [JSON.stringify] and sends the text; no text when it gives
    [undefined]). *)
Definition sent_text (r : res) : string := default "" (stringify (res_json r)).

(** An upstream answer with the status [st] and the body [text]:
    [response.json()] is [JSON.parse(text)], a SyntaxError where it
    fails. *)
Definition text_response (st : Z) (text : string) : response := mkResponse st (parse_json text).

(** Network answers as the network gives them: every response that
    arrives has a text for a body. *)
Definition text_answers (ans : list answer) : Prop :=
  Forall (fun a => match a.2 with
                   | Resolved r => exists st t, r = text_response st t
                   | Rejected _ => True
                   end) ans.

(** ** The equations of the nested definitions *)

Lemma stringify_obj fs :
  stringify (JObj fs) =
  Some ("{" ++ join "," (omap (member_text ((fun kv => (kv.1, stringify kv.2)) <$> fs)) (own_keys fs))
        ++ "}")%string.
Proof.
  cbn [stringify]. do 6 f_equal. induction fs as [|[k x] fs IH]; [done|]. cbn. by rewrite IH.
Qed.

Lemma canonical_obj fs :
  canonical (JObj fs) =
  forallb (fun kv => canonical kv.2) fs && bool_decide (NoDup (fst <$> fs)) &&
  forallb (fun kv => match key_index kv.1 with Some _ => false | None => true end) fs.
Proof. cbn [canonical]. do 3 f_equal. induction fs as [|[k x] fs IH]; [done|]. cbn. by rewrite IH. Qed.

Lemma json_typed_obj fs : json_typed (JObj fs) = forallb (fun kv => json_typed kv.2) fs.
Proof. cbn [json_typed]. induction fs as [|[k x] fs IH]; [done|]. cbn. by rewrite IH. Qed.

(** The shapes of what [parse_value] reads. *)
Lemma parse_value_cases f s v r :
  parse_value (S f) s = Some (v, r) ->
  v = JNull \/ (exists b, v = JBool b) \/ (exists t, v = JStr t) \/ (exists z, v = JNum (Int z)) \/
  v = JArr [] \/ v = JObj [] \/
  (exists l s1 r1, v = JArr l /\ parse_elems f s1 = Some (l, r1)) \/
  (exists fs s1 r1, v = JObj fs /\ parse_members f s1 = Some (fs, r1)).
Proof.
  cbn [parse_value]. destruct (skip_ws s) as [|c s']; [discriminate|].
  destruct c as [[] [] [] [] [] [] [] []]; cbn -[parse_elems parse_members parse_chars parse_number next_char];
    intros H; repeat (first [ case_match
                            | match goal with x : (_ * _)%type |- _ => destruct x end
                            | match goal with H : _ <$> _ = Some _ |- _ => apply fmap_Some in H as [? [? ?]] end ];
                      simplify_eq/=);
    naive_solver.
Qed.

(** [JSON.parse] gives only JSON values: the reader of values, of
    elements and of members preserve [json_typed], by one induction on
    the fuel. *)
Lemma parse_typed f :
  (forall s v r, parse_value f s = Some (v, r) -> json_typed v = true) /\
  (forall s l r, parse_elems f s = Some (l, r) -> forallb json_typed l = true) /\
  (forall s fs r, parse_members f s = Some (fs, r) -> forallb (fun kv => json_typed kv.2) fs = true).
Proof.
  induction f as [|f (IHv & IHe & IHm)]; [split_and!; discriminate|]. split_and!.
  - intros s v r H.
    destruct (parse_value_cases f s v r H)
      as [->|[[b ->]|[[t ->]|[[z ->]|[->|[->|[(l & s1 & r1 & -> & Hl)|(fs & s1 & r1 & -> & Hfs)]]]]]]];
      try done.
    + cbn [json_typed]. by eapply IHe.
    + rewrite json_typed_obj. by eapply IHm.
  - intros s l r H. cbn [parse_elems] in H.
    repeat (first [ case_match
                  | match goal with x : (_ * _)%type |- _ => destruct x end
                  | match goal with H : _ <$> _ = Some _ |- _ => apply fmap_Some in H as [? [? ?]] end ];
            simplify_eq/=);
      apply andb_true_iff; split; eauto.
  - intros s fs r H. cbn [parse_members] in H.
    repeat (first [ case_match
                  | match goal with x : (_ * _)%type |- _ => destruct x end
                  | match goal with H : _ <$> _ = Some _ |- _ => apply fmap_Some in H as [? [? ?]] end ];
            simplify_eq/=);
      apply andb_true_iff; split; eauto.
Qed.

Lemma parse_json_typed t v : parse_json t = Some v -> json_typed v = true.
Proof.
  unfold parse_json. destruct (parse_value _ t) as [[v' rest]|] eqn:Hp; [|discriminate].
  destruct (String.eqb _ _); [intros [= <-] | discriminate]. by eapply parse_typed.
Qed.

Lemma need_arr l : need (JArr l) = S (need_seq (need <$> l)).
Proof. cbn [need]. f_equal. induction l as [|x l IH]; [done|]. cbn. by rewrite IH. Qed.

Lemma need_obj fs : need (JObj fs) = S (need_seq ((fun kv => need kv.2) <$> fs)).
Proof. cbn [need]. f_equal. induction fs as [|[k x] fs IH]; [done|]. cbn. by rewrite IH. Qed.

(** ** Strings *)

Lemma parse_chars_escape_char (c : ascii) (t : string) :
  parse_chars (escape_char c ++ t) = (fun '(u, r') => (String c u, r')) <$> parse_chars t.
Proof. destruct c as [[] [] [] [] [] [] [] []]; reflexivity. Qed.

Lemma parse_chars_escape (s r : string) :
  parse_chars (escape s ++ String dquote_char r) = Some (s, r).
Proof.
  induction s as [|c s IH]; [reflexivity|]. cbn [escape].
  rewrite string_app_assoc, parse_chars_escape_char, IH. reflexivity.
Qed.

(** ** Numbers *)

Lemma pretty_N_char_digit (x : N) :
  (x < 10)%N -> is_digit (pretty_N_char x) = true /\
  (Z.of_nat (nat_of_ascii (pretty_N_char x)) - 48)%Z = Z.of_N x /\ (x <> 0%N -> pretty_N_char x <> "0"%char).
Proof.
  intros Hx. assert (x = 0 \/ x = 1 \/ x = 2 \/ x = 3 \/ x = 4 \/ x = 5 \/ x = 6 \/ x = 7 \/ x = 8 \/ x = 9)%N
    as H by lia.
  repeat destruct H as [-> | H]; [..| subst x]; split_and!; done.
Qed.

Lemma read_digits_pretty_N_go (x : N) (s : string) :
  exists k, forall acc n, read_digits (pretty_N_go x s) acc n = read_digits s (acc * 10 ^ Z.of_nat k + Z.of_N x)%Z (n + k).
Proof.
  revert s. induction (N.lt_wf_0 x) as [x _ IH]; intros s.
  destruct (decide (x = 0%N)) as [->|Hx].
  - exists 0. intros acc n. rewrite pretty_N_go_0, Nat.add_0_r. f_equal. lia.
  - rewrite pretty_N_go_step by lia.
    destruct (IH (x `div` 10)%N ltac:(apply N.div_lt; lia) (String (pretty_N_char (x `mod` 10)) s)) as [k Hk].
    destruct (pretty_N_char_digit (x `mod` 10)%N ltac:(apply N.mod_lt; lia)) as (Hd & Hv & _).
    exists (S k). intros acc n. rewrite Hk. cbn [read_digits]. rewrite Hd, Hv.
    rewrite Nat.add_succ_r. f_equal. pose proof (N.div_mod x 10 ltac:(lia)).
    rewrite Nat2Z.inj_succ, Z.pow_succ_r by lia. lia.
Qed.

Lemma pretty_N_go_app (x : N) (s : string) : pretty_N_go x s = (pretty_N_go x "" ++ s)%string.
Proof.
  revert s. induction (N.lt_wf_0 x) as [x _ IH]; intros s.
  destruct (decide (x = 0%N)) as [->|Hx]; [done|].
  rewrite (pretty_N_go_step x s), (pretty_N_go_step x "") by lia.
  set (c := pretty_N_char (x `mod` 10)).
  rewrite (IH (x `div` 10)%N ltac:(apply N.div_lt; lia) (String c s)).
  rewrite (IH (x `div` 10)%N ltac:(apply N.div_lt; lia) (String c "")).
  by rewrite string_app_assoc.
Qed.

Lemma pretty_N_go_head (x : N) (s : string) :
  (0 < x)%N -> exists c t, pretty_N_go x s = String c t /\ is_digit c = true /\ c <> "0"%char.
Proof.
  revert s. induction (N.lt_wf_0 x) as [x _ IH]; intros s Hx.
  rewrite pretty_N_go_step by done.
  destruct (decide (x `div` 10 = 0)%N) as [H0|H0].
  - rewrite H0, pretty_N_go_0. exists (pretty_N_char (x `mod` 10)), s. split; [done|].
    destruct (pretty_N_char_digit (x `mod` 10)%N ltac:(apply N.mod_lt; lia)) as (Hd & _ & Hz).
    split; [done|]. apply Hz. pose proof (N.div_mod x 10 ltac:(lia)). lia.
  - apply IH; [apply N.div_lt; lia | by apply N.neq_0_lt_0].
Qed.

Lemma read_digits_stops (r : string) acc n : stops r = true -> read_digits r acc n = (acc, n, r).
Proof.
  destruct r as [|c r]; [done|]. cbn [stops read_digits]. intros Hs.
  destruct (is_digit c) eqn:Hd; [|done]. exfalso.
  destruct c as [[] [] [] [] [] [] [] []]; cbn in Hs, Hd; discriminate.
Qed.

Lemma stops_no_tail (r : string) : stops r = true -> starts_number_tail r = false.
Proof. destruct r as [|c r]; [done|]. destruct c as [[] [] [] [] [] [] [] []]; cbn; done. Qed.

Lemma digit_not_minus (c : ascii) : is_digit c = true -> Ascii.eqb c "-" = false.
Proof. destruct c as [[] [] [] [] [] [] [] []]; cbn; done. Qed.

Lemma parse_number_pretty (z : Z) (r : string) :
  stops r = true -> parse_number (pretty z ++ r) = Some (z, r).
Proof.
  intros Hr. unfold parse_number.
  destruct z as [|p|p].
  - change (pretty 0%Z ++ r)%string with (String "0" r). cbn -[read_digits].
    replace (read_digits (String "0" r) 0 0) with (read_digits r 0 1) by reflexivity.
    rewrite (read_digits_stops r) by done. cbn. by rewrite stops_no_tail.
  - change (pretty (Z.pos p)) with (pretty_N_go (N.pos p) ""). rewrite <- pretty_N_go_app.
    destruct (pretty_N_go_head (N.pos p) r ltac:(lia)) as (c & t & Ht & Hd & Hz).
    destruct (read_digits_pretty_N_go (N.pos p) r) as [k Hk].
    rewrite Ht. rewrite digit_not_minus by done. rewrite Hd. rewrite <- Ht, Hk, read_digits_stops by done.
    rewrite stops_no_tail by done. destruct (Ascii.eqb c "0") eqn:E; [by apply Ascii.eqb_eq in E|].
    cbn; do 2 f_equal; lia.
  - change (pretty (Z.neg p)) with ("-" ++ pretty_N_go (N.pos p) "")%string.
    rewrite string_app_assoc, <- pretty_N_go_app.
    destruct (pretty_N_go_head (N.pos p) r ltac:(lia)) as (c & t & Ht & Hd & Hz).
    destruct (read_digits_pretty_N_go (N.pos p) r) as [k Hk].
    change ("-" ++ pretty_N_go (N.pos p) r)%string with (String "-" (pretty_N_go (N.pos p) r)).
    cbn -[read_digits is_digit pretty_N_go]. rewrite Ht, Hd. rewrite <- Ht, Hk, read_digits_stops by done.
    rewrite stops_no_tail by done. destruct (Ascii.eqb c "0") eqn:E; [by apply Ascii.eqb_eq in E|].
    cbn; do 2 f_equal; lia.
Qed.

(** ** Values *)

Lemma skip_ws_cons c s : is_ws c = false -> skip_ws (String c s) = String c s.
Proof. intros H. cbn. by rewrite H. Qed.

Lemma next_char_cons c s : is_ws c = false -> next_char (String c s) = Some (c, s).
Proof. intros H. unfold next_char. by rewrite skip_ws_cons. Qed.

Lemma number_start_spec c :
  number_start c = true ->
  is_ws c = false /\ Ascii.eqb c "]" = false /\ Ascii.eqb c "}" = false /\ Ascii.eqb c "," = false.
Proof. destruct c as [[] [] [] [] [] [] [] []]; cbn; done. Qed.

Lemma pretty_head (z : Z) r : exists c u, (pretty z ++ r)%string = String c u /\ number_start c = true.
Proof.
  destruct z as [|p|p].
  - by exists "0"%char, r.
  - change (pretty (Z.pos p)) with (pretty_N_go (N.pos p) ""). rewrite <- pretty_N_go_app.
    destruct (pretty_N_go_head (N.pos p) r ltac:(lia)) as (c & t & Ht & Hd & _).
    exists c, t. unfold number_start. by rewrite Ht, Hd.
  - by exists "-"%char, (pretty_N_go (N.pos p) "" ++ r)%string.
Qed.

Lemma parse_value_number f (z : Z) r :
  stops r = true -> parse_value (S f) (pretty z ++ r) = Some (JNum (Int z), r).
Proof.
  intros Hr. pose proof (parse_number_pretty z r Hr) as Hp.
  destruct (pretty_head z r) as (c & u & Hcu & Hc). rewrite Hcu in *.
  destruct c as [[] [] [] [] [] [] [] []]; try (cbn in Hc; discriminate);
    cbn [parse_value]; rewrite skip_ws_cons by reflexivity; cbn -[parse_number];
    rewrite Hp; reflexivity.
Qed.

(** The text of a value does not start with a blank, a closing bracket
    or a comma. *)
Lemma text_head v :
  canonical v = true ->
  exists c u, default "null" (stringify v) = String c u /\
  is_ws c = false /\ Ascii.eqb c "]" = false /\ Ascii.eqb c "}" = false /\ Ascii.eqb c "," = false.
Proof.
  destruct v as [| |[]|[|z]|s|l|fs]; cbn [canonical]; intros Hc; try discriminate.
  4: { destruct (pretty_head z "") as (c & u & Hcu & Hs). rewrite string_app_nil_r in Hcu.
       exists c, u. split; [done|]. by apply number_start_spec. }
  6: rewrite stringify_obj.
  all: by eexists _, _.
Qed.

Lemma quote_app k t : (quote k ++ t)%string = String dquote_char (escape k ++ String dquote_char t).
Proof. unfold quote. by rewrite string_app_cons, string_app_assoc. Qed.


Lemma need_seq_cons n ns : need_seq (n :: ns) = S (Nat.max n (need_seq ns)).
Proof. done. Qed.

Lemma parse_elems_join (l : list jsval) (f : nat) (r : string) :
  Forall roundtrips l -> l <> [] -> need_seq (need <$> l) <= f ->
  parse_elems f (join "," (elem_text <$> l) ++ String "]" r) = Some (l, r).
Proof.
  intros Hl. revert f. induction Hl as [|x l Hx Hl IH]; intros f Hne Hf; [done|].
  rewrite fmap_cons, need_seq_cons in Hf. destruct f as [|f]; [lia|].
  destruct l as [|y l].
  - cbn [parse_elems fmap list_fmap join String.concat]. unfold elem_text.
    rewrite Hx by (lia || reflexivity). rewrite next_char_cons by reflexivity. reflexivity.
  - unfold join. cbn [fmap list_fmap]. rewrite string_concat_cons2, !string_app_assoc.
    cbn [parse_elems]. unfold elem_text at 1. rewrite string_app_cons.
    rewrite Hx by (lia || reflexivity). rewrite next_char_cons by reflexivity. cbn [Ascii.eqb].
    unfold join in IH. rewrite IH by (done || lia). reflexivity.
Qed.

Lemma parse_members_join (fs : list (string * jsval)) (f : nat) (r : string) :
  Forall (fun kv => roundtrips kv.2) fs -> fs <> [] -> need_seq ((fun kv => need kv.2) <$> fs) <= f ->
  parse_members f (join "," (member_line <$> fs) ++ String "}" r) = Some (fs, r).
Proof.
  intros Hl. revert f. induction Hl as [|[k x] fs Hx Hl IH]; intros f Hne Hf; [done|].
  rewrite fmap_cons, need_seq_cons in Hf. destruct f as [|f]; [lia|]. cbn [fst snd] in *.
  destruct fs as [|kv fs].
  - cbn [parse_members fmap list_fmap join String.concat]. unfold member_line. cbn [fst snd].
    rewrite string_app_assoc, quote_app. rewrite (next_char_cons dquote_char) by reflexivity.
    rewrite Ascii.eqb_refl, parse_chars_escape. cbv beta iota.
    rewrite ?string_app_assoc, string_app_cons, string_app_nil_l.
    rewrite (next_char_cons ":") by reflexivity. cbn [Ascii.eqb].
    unfold elem_text. rewrite Hx by (lia || reflexivity). rewrite next_char_cons by reflexivity.
    reflexivity.
  - unfold join. cbn [fmap list_fmap]. unfold member_line at 1. cbn [fst snd].
    rewrite string_concat_cons2, !string_app_assoc. cbn [parse_members].
    rewrite quote_app. rewrite (next_char_cons dquote_char) by reflexivity.
    rewrite Ascii.eqb_refl, parse_chars_escape. cbv beta iota.
    rewrite ?string_app_assoc, string_app_cons, string_app_nil_l.
    rewrite (next_char_cons ":") by reflexivity. cbn [Ascii.eqb].
    unfold elem_text at 1. rewrite string_app_cons.
    rewrite Hx by (lia || reflexivity). rewrite next_char_cons by reflexivity. cbn [Ascii.eqb].
    unfold join in IH. rewrite IH by (done || lia). reflexivity.
Qed.

(** ** Objects whose keys are distinct and not indices *)

Lemma find_app {A} (p : A -> bool) (l1 l2 : list A) :
  find p (l1 ++ l2) = match find p l1 with Some x => Some x | None => find p l2 end.
Proof. induction l1 as [|x l1 IH]; cbn; [done|]. by destruct (p x). Qed.

Lemma assoc_last_cons {A} (kv : string * A) l k :
  assoc_last (kv :: l) k =
  match assoc_last l k with Some a => Some a | None => if String.eqb kv.1 k then Some kv.2 else None end.
Proof.
  unfold assoc_last. cbn [List.rev]. rewrite find_app.
  destruct (find _ (List.rev l)); cbn; [done|]. by destruct (String.eqb kv.1 k).
Qed.

Lemma assoc_last_notin {A} (l : list (string * A)) k : k ∉ fst <$> l -> assoc_last l k = None.
Proof.
  induction l as [|[k' a] l IH]; [done|]. rewrite fmap_cons, elem_of_cons. intros Hk.
  rewrite assoc_last_cons, IH by naive_solver. cbn. destruct (String.eqb_spec k' k); naive_solver.
Qed.

Lemma assoc_last_nodup {A} (l : list (string * A)) k a :
  NoDup (fst <$> l) -> (k, a) ∈ l -> assoc_last l k = Some a.
Proof.
  induction l as [|[k' a'] l IH]; [by intros _ ?%elem_of_nil|].
  rewrite fmap_cons, NoDup_cons, elem_of_cons. intros [Hk' Hnd] [[= -> ->] | Hin].
  - rewrite assoc_last_cons, assoc_last_notin by done. cbn. by rewrite String.eqb_refl.
  - rewrite assoc_last_cons, IH by done. done.
Qed.

Lemma own_keys_go_plain fs named :
  Forall (fun kv => key_index kv.1 = None) fs -> NoDup (fst <$> fs) ->
  (forall k, k ∈ fst <$> fs -> k ∉ named) ->
  own_keys_go fs [] named = reverse named ++ (fst <$> fs).
Proof.
  revert named. induction fs as [|[k x] fs IH]; intros named Hidx Hnd Hnamed.
  - cbn. by rewrite app_nil_r.
  - apply Forall_cons in Hidx as [Hk Hidx]. cbn [fst] in Hk. rewrite fmap_cons, NoDup_cons in Hnd.
    cbn [own_keys_go]. rewrite Hk.
    assert (Hex : existsb (String.eqb k) named = false).
    { apply not_true_iff_false. intros (k' & Hin & Heq)%existsb_exists.
      apply String.eqb_eq in Heq. subst k'.
      apply (Hnamed k); [rewrite fmap_cons; apply elem_of_cons; by left | by apply list_elem_of_In]. }
    rewrite Hex, IH; [| done | naive_solver |].
    + rewrite reverse_cons, <- app_assoc. done.
    + intros k' Hk'. rewrite elem_of_cons. intros [-> | Hn]; [naive_solver|].
      apply (Hnamed k'); [rewrite fmap_cons; apply elem_of_cons; by right | done].
Qed.

Lemma stringify_defined v : v <> JUndefined -> exists t, stringify v = Some t.
Proof. destruct v as [| |[]|[]| | |]; try done; intros _; rewrite ?stringify_obj; by eexists. Qed.

(** [JSON.stringify] writes a text for every JSON value. *)
Lemma stringify_typed v : json_typed v = true -> exists t, stringify v = Some t.
Proof. intros Hv. apply stringify_defined. by intros ->. Qed.

(** A text [JSON.stringify] writes is never empty. *)
Lemma stringify_nonempty v t : stringify v = Some t -> t <> "".
Proof.
  destruct v as [| |b|[|z]|s|l|fs]; [discriminate | | | | | | | rewrite stringify_obj];
    cbn [stringify]; intros H.
  - by injection H as <-.
  - destruct b; by injection H as <-.
  - by injection H as <-.
  - injection H as <-. destruct (pretty_head z "") as (c & u & Hcu & _).
    rewrite string_app_nil_r in Hcu. by rewrite Hcu.
  - injection H as <-. unfold quote. discriminate.
  - injection H as <-. rewrite string_app_cons. discriminate.
  - injection H as <-. rewrite string_app_cons. discriminate.
Qed.

Lemma forallb_Forall {A} (p : A -> bool) l : forallb p l = true -> Forall (fun x => p x = true) l.
Proof. intros H. apply Forall_forall. intros x Hx%list_elem_of_In. exact (proj1 (forallb_forall _ _) H x Hx). Qed.

(** A canonical object lists its members in the order of its list. *)
Lemma stringify_obj_canonical fs :
  canonical (JObj fs) = true ->
  stringify (JObj fs) = Some ("{" ++ join "," (member_line <$> fs) ++ "}")%string.
Proof.
  rewrite canonical_obj. intros [[Hc Hnd]%andb_true_iff Hidx]%andb_true_iff.
  apply bool_decide_eq_true in Hnd. apply forallb_Forall in Hc, Hidx.
  rewrite stringify_obj. unfold own_keys.
  rewrite own_keys_go_plain; [| | done | set_solver].
  2: { eapply Forall_impl; [exact Hidx|]. intros kv. cbn. by destruct (key_index kv.1). }
  rewrite reverse_nil, app_nil_l. do 4 f_equal.
  set (ms := (fun kv => (kv.1, stringify kv.2)) <$> fs).
  assert (Hms : NoDup (fst <$> ms)).
  { unfold ms. rewrite <- list_fmap_compose. exact Hnd. }
  assert (Hsub : forall kv, kv ∈ fs -> member_text ms kv.1 = Some (member_line kv)).
  { intros [k x] Hin. unfold member_text. cbn [fst].
    rewrite (assoc_last_nodup ms k (stringify x)); [| done | exact (list_elem_of_fmap_2 (fun kv => (kv.1, stringify kv.2)) fs (k, x) Hin)].
    assert (Hx : canonical x = true) by exact (proj1 (Forall_forall _ _) Hc (k, x) Hin).
    destruct (stringify_defined x) as [t Ht]; [by intros ->|].
    unfold member_line, elem_text. cbn. by rewrite Ht. }
  clearbody ms. clear -Hsub. induction fs as [|kv fs IH]; [done|].
  rewrite !fmap_cons. cbn [omap list_omap]. rewrite (Hsub kv) by (apply elem_of_cons; by left).
  rewrite IH; [done|]. intros kv' Hin. apply Hsub. apply elem_of_cons. by right.
Qed.

Lemma join_head (t : string) (ts : list string) : exists rest, join "," (t :: ts) = (t ++ rest)%string.
Proof.
  destruct ts as [|t' ts]; unfold join.
  - exists "". by rewrite string_app_nil_r.
  - rewrite string_concat_cons2. by eexists.
Qed.

(** The first character of a non-empty sequence of texts is the first
    character of its first text. *)
Lemma next_char_join {A} (h : A -> string) (a : A) (l : list A) (c : ascii) (u s : string) :
  h a = String c u -> is_ws c = false ->
  exists u', next_char (join "," (h <$> a :: l) ++ s) = Some (c, u').
Proof.
  intros Ha Hc. rewrite fmap_cons. destruct (join_head (h a) (h <$> l)) as [rest ->].
  rewrite Ha, !string_app_cons, next_char_cons by done. by eexists.
Qed.

(** The induction hypotheses of the nested lists, where the values are
    known to satisfy a boolean test. *)
Lemma Forall_forallb_impl {A} (p : A -> bool) (Q : A -> Prop) l :
  Forall (fun x => p x = true -> Q x) l -> forallb p l = true -> Forall Q l.
Proof. induction 1; cbn; [constructor|]. intros [? ?]%andb_true_iff. constructor; auto. Qed.

Lemma roundtrips_arr l : canonical (JArr l) = true -> Forall roundtrips l -> roundtrips (JArr l).
Proof.
  intros Hc HF f r Hf Hr. rewrite need_arr in Hf. destruct f as [|f]; [lia|].
  change (default "null" (stringify (JArr l))) with ("[" ++ join "," (elem_text <$> l) ++ "]")%string.
  rewrite !string_app_assoc, !string_app_cons, !string_app_nil_l.
  cbn [parse_value]. rewrite skip_ws_cons by reflexivity.
  cbn -[next_char parse_elems parse_members parse_chars parse_number join elem_text].
  destruct l as [|x l].
  - cbn [fmap list_fmap join String.concat]. rewrite string_app_nil_l, next_char_cons by reflexivity.
    reflexivity.
  - cbn [canonical] in Hc. apply andb_true_iff in Hc as [Hx _].
    destruct (text_head x Hx) as (c & u & Hcu & Hws & Hb & _).
    destruct (next_char_join elem_text x l c u (String "]" r) Hcu Hws) as [u' ->].
    rewrite Hb, parse_elems_join; [reflexivity | done | done | lia].
Qed.

Lemma roundtrips_obj fs :
  canonical (JObj fs) = true -> Forall (fun kv => roundtrips kv.2) fs -> roundtrips (JObj fs).
Proof.
  intros Hc HF f r Hf Hr. rewrite need_obj in Hf. destruct f as [|f]; [lia|].
  unfold default. rewrite (stringify_obj_canonical fs Hc). cbn [from_option id].
  rewrite !string_app_assoc, !string_app_cons, !string_app_nil_l.
  cbn [parse_value]. rewrite skip_ws_cons by reflexivity.
  cbn -[next_char parse_elems parse_members parse_chars parse_number join member_line].
  destruct fs as [|kv fs].
  - cbn [fmap list_fmap join String.concat]. rewrite string_app_nil_l, next_char_cons by reflexivity.
    reflexivity.
  - destruct (next_char_join member_line kv fs dquote_char
                (escape kv.1 ++ String dquote_char (":" ++ elem_text kv.2))%string (String "}" r))
      as [u' ->]; [unfold member_line; by rewrite quote_app | reflexivity |].
    cbn [Ascii.eqb dquote_char]. rewrite parse_members_join; [reflexivity | done | done | lia].
Qed.

Lemma canonical_roundtrips v : canonical v = true -> roundtrips v.
Proof.
  induction v as [| |b|n|s|l IH|fs IH] using jsval_ind_nested; intros Hc; try discriminate.
  - intros f r Hf Hr. destruct f; [cbn in Hf; lia | reflexivity].
  - intros f r Hf Hr. destruct f; [cbn in Hf; lia | by destruct b].
  - intros f r Hf Hr. destruct n as [|z]; [discriminate|]. destruct f; [cbn in Hf; lia|].
    cbn [stringify default]. by apply parse_value_number.
  - intros f r Hf Hr. destruct f; [cbn in Hf; lia|]. cbn [stringify default from_option id]. unfold quote.
    rewrite string_app_cons, string_app_assoc, string_app_cons, string_app_nil_l.
    cbn [parse_value]. rewrite skip_ws_cons by reflexivity.
    cbn -[parse_chars escape]. by rewrite parse_chars_escape.
  - apply roundtrips_arr; [done|]. cbn [canonical] in Hc. exact (Forall_forallb_impl _ _ _ IH Hc).
  - apply roundtrips_obj; [done|]. rewrite canonical_obj in Hc.
    apply andb_true_iff in Hc as [[Hc _]%andb_true_iff _]. exact (Forall_forallb_impl _ _ _ IH Hc).
Qed.

(** ** Enough fuel *)

Lemma need_seq_join {A} (g : A -> nat) (h : A -> string) (l : list A) :
  Forall (fun a => g a <= String.length (h a)) l ->
  need_seq (g <$> l) <= S (String.length (join "," (h <$> l))).
Proof.
  induction 1 as [|a l Ha Hl IH]; [cbn; lia|].
  rewrite !fmap_cons, need_seq_cons. destruct l as [|b l].
  - cbn. lia.
  - unfold join in *. cbn [fmap list_fmap] in *.
    rewrite string_concat_cons2, !string_app_length. cbn [String.length]. lia.
Qed.

Lemma need_le_length v : canonical v = true -> need v <= String.length (elem_text v).
Proof.
  induction v as [| |b|n|s|l IH|fs IH] using jsval_ind_nested; intros Hc; try discriminate.
  5: { rewrite need_arr.
       change (elem_text (JArr l)) with ("[" ++ join "," (elem_text <$> l) ++ "]")%string.
       rewrite !string_app_length. cbn [String.length].
       enough (need_seq (need <$> l) <= S (String.length (join "," (elem_text <$> l)))) by lia.
       apply need_seq_join. cbn [canonical] in Hc. exact (Forall_forallb_impl _ _ _ IH Hc). }
  5: { pose proof Hc as Hc'. rewrite need_obj. unfold elem_text, default.
       rewrite (stringify_obj_canonical fs Hc'). cbn [from_option id].
       rewrite !string_app_length. cbn [String.length].
       enough (need_seq ((fun kv => need kv.2) <$> fs) <= S (String.length (join "," (member_line <$> fs))))
         by lia.
       apply need_seq_join. rewrite canonical_obj in Hc. apply andb_true_iff in Hc as [[Hc _]%andb_true_iff _].
       apply forallb_Forall in Hc. apply Forall_forall. intros kv Hkv.
       pose proof (proj1 (Forall_forall _ _) IH kv Hkv (proj1 (Forall_forall _ _) Hc kv Hkv)).
       unfold member_line. rewrite !string_app_length. lia. }
  all: destruct (text_head _ Hc) as (c & u & Hcu & _); unfold elem_text; rewrite Hcu;
    cbn [need String.length]; lia.
Qed.

(** ** The round trip *)

(** [JSON.parse] gives back what [JSON.stringify] writes: every value
    without [undefined] or NaN, whose objects have distinct keys that are
    not array indices, is serialised to a text that parses to the value
    itself.  The fuel [parse_json] gives its reader, the length of the
    text plus one, is enough. *)
Theorem json_roundtrip v :
  canonical v = true -> exists t, stringify v = Some t /\ parse_json t = Some v.
Proof.
  intros Hc. destruct (stringify_defined v) as [t Ht]; [by intros ->|]. exists t. split; [done|].
  pose proof (need_le_length v Hc) as Hn. unfold elem_text in Hn. rewrite Ht in Hn. cbn in Hn.
  pose proof (canonical_roundtrips v Hc (S (String.length t)) "" ltac:(lia) eq_refl) as H.
  unfold elem_text in H. rewrite Ht in H. cbn [default from_option id] in H.
  rewrite string_app_nil_r in H. unfold parse_json. by rewrite H.
Qed.

(** ** The texts the handlers send *)

(** *** C33 (roundtrip)
    A partner handler relays the value, not the text: when the token
    source yields a token and the upstream answers 2xx with a text that
    [JSON.parse] reads as a value without duplicate or array-index keys,
    the handler answers 200 with a text that parses to that same value. *)
Theorem partner_relay_same_value `{TokenSource} E path label msg ans w tok w1 d st text v ans2 :
  run get_token ans w = (Done tok, (d, Resolved (text_response st text)) :: ans2, w1) ->
  (200 <= st <= 299)%Z -> parse_json text = Some v -> canonical v = true ->
  exists r, (run (partner_get E path label msg) ans w).1.1 = Done r /\ res_status r = 200%Z /\
    parse_json (sent_text r) = Some v.
Proof.
  intros Htok Hst Hp Hc.
  assert (Hok : resp_ok (text_response st text) = true).
  { unfold resp_ok. cbn. apply andb_true_iff. split; apply Z.leb_le; lia. }
  rewrite run_partner_get, Htok. cbn. rewrite Hok. cbn. rewrite Hp.
  exists (mkRes 200 v). split_and!; [done | done |].
  destruct (json_roundtrip v Hc) as (t & Ht & Hpt). unfold sent_text. cbn. by rewrite Ht.
Qed.

(** The relay is not verbatim: for the upstream text
    [{"b":1,"1":2}] the users handler sends [{"1":2,"b":1}], the key
    that is an array index moved first, as [JSON.stringify] orders the
    keys [JSON.parse] gave the object. *)
Example users_relay_reorders :
  let text := ("{" ++ quote "b" ++ ":1," ++ quote "1" ++ ":2}")%string in
  let w := mkWorld (mkGlobals (JStr "tok") (JNum (Int 2000))) 1000 [] [] in
  exists r, (run (@api_users (cache_token_source ∅) ∅) [(0%N, Resolved (text_response 200 text))] w).1.1
              = Done r /\
    sent_text r = ("{" ++ quote "1" ++ ":2," ++ quote "b" ++ ":1}")%string /\ sent_text r <> text.
Proof.
  exists (mkRes 200 (JObj [("b", JNum (Int 1)); ("1", JNum (Int 2))])).
  split_and!; [vm_compute; reflexivity | vm_compute; reflexivity | vm_compute; discriminate].
Qed.

(** *** C34 (functional)
    The text of the logo handler's 200 answer: [{"logoUrl":...}] with
    the text of the first result's [logo_url], and [{}] when the first
    result has no [logo_url], since [JSON.stringify] leaves out a
    property whose value is [undefined]. *)
Theorem logo_answer_text E domain d ans w r fs rest :
  resp_ok r = true -> body r = Some (JArr (JObj fs :: rest)) ->
  exists a, (run (api_logo E domain) ((d, Resolved r) :: ans) w).1.1 = Done a /\ res_status a = 200%Z /\
    sent_text a = match obj_lookup fs "logo_url" with
                  | JUndefined => "{}"
                  | u => "{" ++ quote "logoUrl" ++ ":" ++ elem_text u ++ "}"
                  end%string.
Proof.
  intros Hok Hb. exists (mkRes 200 (JObj [("logoUrl", obj_lookup fs "logo_url")])).
  split_and!; [cbn; by rewrite Hok, Hb | done |].
  unfold sent_text, elem_text. cbn [res_json]. rewrite stringify_obj.
  generalize (obj_lookup fs "logo_url"). intros u.
  change (own_keys [("logoUrl", u)]) with ["logoUrl"].
  assert (Hu : u = JUndefined \/ u <> JUndefined) by (destruct u; [left | right..]; done).
  destruct Hu as [-> | Hu]; [reflexivity |].
  destruct (stringify_defined u Hu) as [t Ht].
  transitivity ("{" ++ quote "logoUrl" ++ ":" ++ t ++ "}")%string.
  - cbn [fmap list_fmap fst snd]. rewrite Ht. cbn -[quote]. by rewrite !string_app_assoc.
  - destruct u; [done | ..]; by rewrite Ht.
Qed.

(** *** C35 (functional)
    The text of the token request body: the members [client_id],
    [client_secret] and [audience] of the variables that are set, in
    this order, then [grant_type]; a variable that is not set leaves no
    member, so without [FORTIUM_AUDIENCE] the body has no audience. *)
Theorem token_request_text E :
  stringify (token_request_body E) =
  Some ("{" ++ join ","
          (omap (fun '(k, x) => (fun s => quote k ++ ":" ++ quote s)%string <$> E !! x)
             [("client_id", "FORTIUM_CLIENT_ID"); ("client_secret", "FORTIUM_CLIENT_SECRET");
              ("audience", "FORTIUM_AUDIENCE")] ++
           [quote "grant_type" ++ ":" ++ quote "client_credentials"]) ++ "}")%string.
Proof.
  unfold token_request_body, env_get. rewrite stringify_obj. cbn [omap list_omap].
  destruct (E !! "FORTIUM_CLIENT_ID"), (E !! "FORTIUM_CLIENT_SECRET"), (E !! "FORTIUM_AUDIENCE");
    reflexivity.
Qed.

(** What a partner handler answers, when the upstream bodies are
    texts, is a JSON value. *)
Lemma partner_answer_typed `{TokenSource} E path label msg ans w :
  text_answers ans ->
  match (run (partner_get E path label msg) ans w).1.1 with
  | Done r => json_typed (res_json r) = true | _ => True end.
Proof.
  intros Hans. pose proof (run_suffix get_token ans w) as [pre Hpre].
  rewrite run_partner_get. destruct (run get_token ans w) as [[[tok|e|] ans1] w1]; cbn in *; try done.
  rewrite Hpre in Hans. apply Forall_app in Hans as [_ Hans1].
  destruct ans1 as [|[d [r|e]] ans2]; cbn; try done.
  apply Forall_cons in Hans1 as [(st & t & ->) _]. cbn.
  destruct (resp_ok _); cbn; [|done].
  destruct (parse_json t) as [v|] eqn:Hp; cbn; [|done]. by apply (parse_json_typed t).
Qed.

(** *** C13 (type)
    Every answer a partner handler sends is a JSON value, whatever the
    token source does, as long as the upstream bodies are texts: no
    [undefined] and no NaN at any depth, so [res.json] always sends a
    text.  On success it is what [JSON.parse] read, on failure the
    fixed error object. *)
Theorem partner_answers_typed `{TokenSource} E path label msg ans w :
  text_answers ans ->
  match (run (partner_get E path label msg) ans w).1.1 with
  | Done r => json_typed (res_json r) = true /\ exists t, stringify (res_json r) = Some t
  | _ => True
  end.
Proof.
  intros Hans. pose proof (partner_answer_typed E path label msg ans w Hans) as Hty.
  destruct (run _ ans w) as [[[r| |] ?] ?]; cbn in *; try done. split; [done|]. by apply stringify_typed.
Qed.

(** ** Witnesses *)

Lemma partner_relay_same_value_witness :
  let text := ("[" ++ quote "ada" ++ "," ++ quote "bob" ++ "]")%string in
  let w := mkWorld (mkGlobals (JStr "tok") (JNum (Int 2000))) 1000 [] [] in
  exists r, (run (@api_users (cache_token_source ∅) ∅) [(0%N, Resolved (text_response 200 text))] w).1.1
              = Done r /\ res_status r = 200%Z /\ parse_json (sent_text r) = Some (JArr [JStr "ada"; JStr "bob"]).
Proof.
  intros text w.
  apply (@partner_relay_same_value (cache_token_source ∅) ∅ "/api/users" "Error fetching users:"
           "Failed to fetch users" [(0%N, Resolved (text_response 200 text))] w (JStr "tok") w 0%N 200
           text (JArr [JStr "ada"; JStr "bob"]) []);
    [vm_compute; reflexivity | lia | vm_compute; reflexivity | vm_compute; reflexivity].
Defined.

Lemma logo_answer_text_witness :
  exists a, (run (api_logo ∅ "acme.com")
               [(0%N, Resolved (mkResponse 200 (Some (JArr [JObj [("name", JStr "Acme")]]))))]
               (mkWorld globals_init 1000 [] [])).1.1 = Done a /\ res_status a = 200%Z /\
    sent_text a = "{}".
Proof.
  apply (logo_answer_text ∅ "acme.com" 0%N [] (mkWorld globals_init 1000 [] [])
           (mkResponse 200 (Some (JArr [JObj [("name", JStr "Acme")]]))) [("name", JStr "Acme")] []);
    reflexivity.
Defined.

Lemma partner_answers_typed_witness :
  let text := ("[" ++ quote "ada" ++ "]")%string in
  let w := mkWorld (mkGlobals (JStr "tok") (JNum (Int 2000))) 1000 [] [] in
  text_answers [(0%N, Resolved (text_response 200 text))] /\
  match (run (@api_users (cache_token_source ∅) ∅) [(0%N, Resolved (text_response 200 text))] w).1.1 with
  | Done r => json_typed (res_json r) = true /\ exists t, stringify (res_json r) = Some t
  | _ => True
  end.
Proof.
  intros text w. assert (Hans : text_answers [(0%N, Resolved (text_response 200 text))]).
  { constructor; [by exists 200%Z, text | constructor]. }
  split; [exact Hans|].
  exact (@partner_answers_typed (cache_token_source ∅) ∅ "/api/users" "Error fetching users:"
           "Failed to fetch users" _ w Hans).
Defined.

End Json.
