(* ===== verification/App.v ===== *)
(** The application end to end: a request as Express receives it goes
    down the layer stack of [Routing] and, when it reaches one of the
    API routes, the callback [app.get] registered for it runs; its
    answer is the text [res.json] sends ([Json.sent_text]), or, to a
    [HEAD] request, which [app.get] also matches, the status without a
    body.

    [respond] runs one request alone against the network's answers.
    The handler programs are arrivals of [EventLoop.route]
    ([handler_arrives]), and [respond_agrees_with_loop] shows that the
    reply and the world [respond] computes are what the loop reaches
    when the request arrives and runs alone ([Agreement]); the
    interleavings with other requests are those of the loop.
    A promise an async callback rejects is not caught by Express, so the
    request would get no reply; no handler rejects ([Handlers]). *)

From S2P Require Import Prelude JsValue Prog TokenCache Uri Handlers EventLoop Liveness Agreement Routing Json.
Import Js Prog TokenCache Handlers EventLoop Liveness Agreement Routing Json.

Module App.

(** ** Replies *)

Inductive reply :=
| RJson (status : Z) (text : string)   (** [res.status(status).json(obj)]: the text sent *)
| RHead (status : Z)                   (** the same answer to a [HEAD] request: headers, no body *)
| RFile (file : string)                (** a file of the directory: [express.static] or [res.sendFile] *)
| RRedirect (location : string)        (** the 301 of [express.static] to a directory *)
| RExpress (status : Z)                (** an answer of Express itself: 204, 400 or 404 *)
| NoReply.                             (** the request is never answered *)

(** ** The callbacks of the routes *)

(** The callback [app.get] registers for an API action (lines 69, 93,
    121, 128-130): the partner handlers with the token cache as their
    token source, the config handler, and the logo handler with
    [const { domain } = req.params]. *)
Definition handler (E : gmap string string) (a : action) (params : list string) : option (prog res) :=
  match a, params with
  | AUsers, _ => Some (@api_users (cache_token_source E) E)
  | ACompanies, _ => Some (@api_companies (cache_token_source E) E)
  | AConfig, _ => Some (Ret (api_config E))
  | ALogo, domain :: _ => Some (api_logo E domain)
  | _, _ => None
  end.

(** ** One request *)

(** [res.sendFile(path.join(__dirname, file))] (lines 60, 65): the file,
    or Express's 404 when it does not exist. *)
Definition send_file (files : list string) (f : string) : reply :=
  if has_file files f then RFile f else RExpress 404.

(** The reply a handler's outcome gives: the text [res.json] sent (no
    body for a [HEAD] request, which Express routes to the [app.get]
    callbacks and answers with the headers only), or none when the
    handler hung or rejected its promise. *)
Definition reply_of (head : bool) (o : Prog.outcome res) : reply :=
  match o with
  | Done r => if head then RHead (res_status r) else RJson (res_status r) (sent_text r)
  | _ => NoReply
  end.

(** A request through the application, run alone against the network's
    answers [ans] from the world [w]. *)
Definition respond (E : gmap string string) (files : list string) (req : http_request)
    (ans : list answer) (w : world) : reply * list answer * world :=
  match serve files req with
  | Preflight => (RExpress 204, ans, w)
  | BadBody | BadParam => (RExpress 400, ans, w)
  | NotFound => (RExpress 404, ans, w)
  | Static f => (RFile f, ans, w)
  | Redirect l => (RRedirect l, ans, w)
  | Route (ASendFile f) _ => (send_file files f, ans, w)
  | Route a ps =>
      match handler E a ps with
      | Some p =>
          let '(o, ans', w') := run p ans w in (reply_of (String.eqb (h_method req) "HEAD") o, ans', w')
      | None => (NoReply, ans, w)
      end
  end.

(** The reply of a task of the event loop. *)
Definition task_reply (head : bool) (tk : task) : reply :=
  match tk with Finished o => reply_of head o | _ => NoReply end.

(** What a JSON reply promises: one of the handlers' statuses and a
    non-empty text. *)
Definition reply_ok (rp : reply) : Prop :=
  match rp with
  | NoReply => False
  | RJson st t => (st = 200 \/ st = 404 \/ st = 500)%Z /\ t <> ""
  | RHead st => (st = 200 \/ st = 404 \/ st = 500)%Z
  | _ => True
  end.

(** ** Lemmas *)

(** The handler programs are arrivals of the event loop. *)
Lemma handler_arrives E a ps p : handler E a ps = Some p -> route E p.
Proof.
  destruct a, ps; cbn; intros; simplify_eq; constructor.
Qed.

Lemma sent_text_nonempty r : res_json r <> JUndefined -> sent_text r <> "".
Proof.
  intros Hr. destruct (stringify_defined _ Hr) as [t Ht].
  unfold sent_text. rewrite Ht. by apply (stringify_nonempty (res_json r)).
Qed.

(** A routed API request is replied as its handler's run says. *)
Lemma respond_route E files req ans w a ps p :
  serve files req = Route a ps -> handler E a ps = Some p ->
  respond E files req ans w =
  let '(o, ans', w') := run p ans w in (reply_of (String.eqb (h_method req) "HEAD") o, ans', w').
Proof. intros Hs Hh. unfold respond. rewrite Hs. destruct a; [discriminate | ..]; by rewrite Hh. Qed.

Lemma respond_handler E files req ans w a ps p :
  serve files req = Route a ps -> handler E a ps = Some p ->
  (respond E files req ans w).1.1 = reply_of (String.eqb (h_method req) "HEAD") (run p ans w).1.1.
Proof. intros Hs Hh. rewrite (respond_route E files req ans w a ps p Hs Hh). by destruct (run p ans w) as [[??]?]. Qed.

(** A handler that lets no exception escape, whose answers satisfy
    [P], replies when the network answers its (at most two) fetches. *)
Lemma reply_ok_handler E files req ans w a ps p (P : res -> Prop) :
  serve files req = Route a ps -> (forall f, a <> ASendFile f) -> handler E a ps = Some p ->
  2 <= length ans -> post P (fun _ => False) p ->
  (forall r, (run p ans w).1.1 = Done r -> P r -> reply_ok (RJson (res_status r) (sent_text r))) ->
  reply_ok (respond E files req ans w).1.1.
Proof.
  intros Hs Ha Hh Hlen Hpost Hok. rewrite (respond_handler E files req ans w a ps p Hs Hh).
  pose proof (fetches_run_answered 2 p ans w (route_fetches_2 E p (handler_arrives E a ps p Hh)) Hlen).
  pose proof (post_run P _ p ans w Hpost) as Hr.
  destruct (run p ans w) as [[[r|e|] ?] ?]; cbn in *; [| done | done].
  destruct (String.eqb _ _); [apply (Hok r eq_refl Hr) | by apply Hok].
Qed.

Lemma partner_reply_ok E files req ans w a ps path label msg :
  serve files req = Route a ps -> (forall f, a <> ASendFile f) ->
  handler E a ps = Some (@partner_get (cache_token_source E) E path label msg) ->
  2 <= length ans -> text_answers ans -> reply_ok (respond E files req ans w).1.1.
Proof.
  intros Hs Ha Hh Hlen Hans.
  eapply (reply_ok_handler E files req ans w a ps _ _ Hs Ha Hh Hlen (partner_get_post E path label msg)).
  intros r Hrun [Hst | ->]; split; [by left | | by right; right | by apply sent_text_nonempty].
  pose proof (@partner_answer_typed (cache_token_source E) E path label msg ans w Hans) as Hty. rewrite Hrun in Hty.
  apply sent_text_nonempty. intros Hu. by rewrite Hu in Hty.
Qed.

(** ** The application answers every request *)

(** *** C8 (error)
    Every request gets a reply, whatever its method, path and body and
    whatever the directory holds, as long as the network answers the
    fetches of its handler (two answers are enough) with texts: no
    handler hangs or rejects its promise, and every JSON reply has the
    status 200, 404 or 500 and a non-empty text. *)
Theorem every_request_replied E files req ans w :
  2 <= length ans -> text_answers ans -> reply_ok (respond E files req ans w).1.1.
Proof.
  intros Hlen Hans. destruct (serve files req) as [| | |f|l|a ps|] eqn:Hs;
    try (unfold respond; rewrite Hs; done).
  destruct a as [f| | | |].
  - unfold respond, send_file. rewrite Hs. by case_match.
  - by eapply partner_reply_ok.
  - by eapply partner_reply_ok.
  - eapply (reply_ok_handler E files req ans w _ _ _ (fun r => r = api_config E) Hs); try done.
    + by constructor.
    + intros r _ ->. split; [by left | by apply sent_text_nonempty].
  - destruct (serve_logo_one_param files req ps Hs) as [d ->].
    eapply (reply_ok_handler E files req ans w _ _ _ _ Hs); [done | done | done | apply api_logo_post |].
    intros r _ [[u <-]|[->| ->]]; (split; [unfold logo_not_found; cbn; lia | by apply sent_text_nonempty]).
Qed.

(** *** C20 (functional)
    [GET /api/config] end to end: unless a file of the directory answers
    it first, the reply is 200 with the text
    [{"logodevToken":"<token>"}], the token being [LOGODEV_TOKEN] when
    it is set and non-empty and ["pk_demo_token"] otherwise, and a
    [HEAD] request gets the 200 without the text; no network answer is
    used and the world is unchanged. *)
Theorem config_end_to_end E files m ans w :
  is_get m = true -> serve_static files "." m "/api/config" = None ->
  respond E files (mkHttp m "/api/config" None) ans w =
  (if String.eqb m "HEAD" then RHead 200
   else RJson 200 ("{" ++ quote "logodevToken" ++ ":" ++
                   quote (match E !! "LOGODEV_TOKEN" with
                          | Some s => if String.eqb s "" then "pk_demo_token" else s
                          | None => "pk_demo_token"
                          end) ++ "}")%string, ans, w).
Proof.
  intros Hm Hs. unfold respond.
  rewrite (serve_fixed_route files m "/api/config" AConfig Hm ltac:(cbn; tauto) Hs). cbn -[sent_text quote].
  destruct (String.eqb m "HEAD"); [reflexivity |].
  unfold sent_text, api_config, env_get. cbn [res_json]. rewrite stringify_obj.
  destruct (E !! "LOGODEV_TOKEN") as [s|]; [destruct (String.eqb s "") eqn:He|]; cbn -[quote];
    rewrite ?He; cbn -[quote]; rewrite ?string_app_assoc; reflexivity.
Qed.

(** ** The reply is what the event loop reaches *)

(** [respond] is the event loop's run of the request: a request routed
    to an API handler arrives in any configuration of the loop as a new
    task; run alone, its segments one after the other and each [fetch]
    answered by the next answer of the network after the time it took,
    the task ends with the reply [respond] computes, the loop's state,
    clock, log and requests sent are the world [respond] computes, and
    the tasks already there are untouched. *)
Theorem respond_agrees_with_loop E files req a ps p ans c :
  serve files req = Route a ps -> handler E a ps = Some p ->
  exists c' tk, rtc (step E) c c' /\ c_tasks c' !! length (c_tasks c) = Some tk /\
    (respond E files req ans (world_of c)).1.1 = task_reply (String.eqb (h_method req) "HEAD") tk /\
    world_of c' = (respond E files req ans (world_of c)).2 /\
    forall j, j < length (c_tasks c) -> c_tasks c' !! j = c_tasks c !! j.
Proof.
  intros Hs Hh. set (n := length (c_tasks c)).
  assert (Hn : c_tasks (arrive c p) !! n = Some (Ready p)).
  { cbn. rewrite lookup_app_r by lia. by rewrite Nat.sub_diag. }
  pose proof (lone_task_runs E 7 p (arrive c p) n ans
                (route_bounded_7 E p (handler_arrives E a ps p Hh)) Hn) as Hrun.
  change (world_of (arrive c p)) with (world_of c) in Hrun.
  rewrite (respond_route E files req ans (world_of c) a ps p Hs Hh).
  destruct (run p ans (world_of c)) as [[o ans'] w'].
  destruct Hrun as (c' & Hr & Hw & (tk & Htk & Hdone) & Hj).
  exists c', tk. split_and!.
  - eapply rtc_l; [apply step_arrive, (handler_arrives E a ps p Hh) | exact Hr].
  - exact Htk.
  - destruct o; cbn in Hdone |- *; [by subst | by subst | by destruct Hdone as (? & ? & ->)].
  - exact Hw.
  - intros j Hjn. rewrite Hj by lia. cbn. by rewrite lookup_app_l.
Qed.

(** ** Witnesses *)

Lemma respond_agrees_with_loop_witness :
  serve [] (mkHttp "GET" "/api/config" None) = Route AConfig [] /\
  handler ∅ AConfig [] = Some (Ret (api_config ∅)) /\
  exists c' tk, rtc (step ∅) (config_init 0) c' /\ c_tasks c' !! 0 = Some tk /\
    (respond ∅ [] (mkHttp "GET" "/api/config" None) [] (world_of (config_init 0))).1.1 = task_reply false tk /\
    world_of c' = (respond ∅ [] (mkHttp "GET" "/api/config" None) [] (world_of (config_init 0))).2 /\
    forall j, j < 0 -> c_tasks c' !! j = c_tasks (config_init 0) !! j.
Proof.
  split_and!; [vm_compute; reflexivity | reflexivity |].
  exact (respond_agrees_with_loop ∅ [] (mkHttp "GET" "/api/config" None) AConfig [] (Ret (api_config ∅)) []
           (config_init 0) ltac:(vm_compute; reflexivity) eq_refl).
Defined.


Lemma every_request_replied_witness :
  let t := ("[" ++ quote "ada" ++ "]")%string in
  let ans := repeat (0%N, Resolved (text_response 200 t)) 2 in
  2 <= length ans /\ text_answers ans /\
  reply_ok (respond ∅ [] (mkHttp "GET" "/api/users" None) ans (mkWorld globals_init 1000 [] [])).1.1.
Proof.
  intros t ans. assert (Hans : text_answers ans).
  { repeat constructor; by exists 200%Z, t. }
  split_and!; [cbn; lia | exact Hans |].
  apply every_request_replied; [cbn; lia | exact Hans].
Defined.

Lemma config_end_to_end_witness :
  is_get "GET" = true /\ serve_static [] "." "GET" "/api/config" = None /\
  respond (<["LOGODEV_TOKEN":="pk_live"]> ∅) [] (mkHttp "GET" "/api/config" None) [] (mkWorld globals_init 0 [] []) =
  (RJson 200 ("{" ++ quote "logodevToken" ++ ":" ++ quote "pk_live" ++ "}")%string, [], mkWorld globals_init 0 [] []).
Proof.
  split_and!; [reflexivity | vm_compute; reflexivity |].
  rewrite (config_end_to_end (<["LOGODEV_TOKEN":="pk_live"]> ∅) [] "GET" [] (mkWorld globals_init 0 [] [])
             eq_refl ltac:(vm_compute; reflexivity)).
  reflexivity.
Defined.

End App.
